(** * Choices: item management, keyboard handling and scroll animation

    A shallow embedding of [assets/scripts/src/choices.js].  The widget is a
    record of the fields its methods read and write; methods are computations
    in a small state monad with early return, so that a JavaScript [return]
    in the middle of a method body cuts the rest of the body exactly as it
    does in the source.  The redux store and its reducers are not part of the
    sources at hand and are modelled from the specification (section 4.1). *)

From Stdlib Require Import ZArith List String Ascii Bool Lia DecimalString.
From Stdlib Require Import QArith Qround Lqa.
From Stdlib Require Import Sorting.Sorted Sorting.Permutation.
Import ListNotations.
Close Scope Q_scope.
Open Scope string_scope.
Open Scope list_scope.
Open Scope Z_scope.

Set Implicit Arguments.

(** ** JavaScript strings and values *)

(** Truthiness of a string: the empty string is the only falsy one. *)
Definition truthy (s : string) : bool :=
  match s with EmptyString => false | String _ _ => true end.

(** White space removed by [String.prototype.trim] (ASCII part: TAB, LF, VT,
    FF, CR and space). *)
Definition isWhiteSpace (c : ascii) : bool :=
  let n := nat_of_ascii c in
  ((9 <=? n) && (n <=? 13))%nat || (n =? 32)%nat.

Fixpoint trimStart (s : string) : string :=
  match s with
  | EmptyString => EmptyString
  | String c s' => if isWhiteSpace c then trimStart s' else s
  end.

Fixpoint trimEnd (s : string) : string :=
  match s with
  | EmptyString => EmptyString
  | String c s' =>
      match trimEnd s' with
      | EmptyString => if isWhiteSpace c then EmptyString else String c EmptyString
      | t => String c t
      end
  end.

Definition trim (s : string) : string := trimEnd (trimStart s).

(** [Array.prototype.join]. *)
Fixpoint join (sep : string) (xs : list string) : string :=
  match xs with
  | [] => EmptyString
  | [x] => x
  | x :: xs' => String.append x (String.append sep (join sep xs'))
  end.

(** Values a caller may pass where the source expects a string. *)
Inductive jsval :=
  | VUndefined
  | VNull
  | VBoolean (b : bool)
  | VNumber (n : Z)
  | VString (s : string)
  | VObject.

Definition jsval_truthy (v : jsval) : bool :=
  match v with
  | VUndefined | VNull => false
  | VBoolean b => b
  | VNumber n => negb (n =? 0)
  | VString s => truthy s
  | VObject => true
  end.

(** [isType('String', v)] of lib/utils.js. *)
Definition isString (v : jsval) : bool :=
  match v with VString _ => true | _ => false end.

(** What a method call evaluates to. *)
Inductive retval :=
  | undefined
  | this
  | boolean (b : bool).

Definition retval_truthy (r : retval) : bool :=
  match r with undefined => false | this => true | boolean b => b end.

(** A callback option: left undefined, another falsy value, a function, or a
    truthy value that is not a function. *)
Inductive callback :=
  | CbUndefined
  | CbFalsy
  | CbFunction
  | CbNotFunction.

Definition callback_truthy (c : callback) : bool :=
  match c with CbFunction | CbNotFunction => true | _ => false end.

Definition isFunction (c : callback) : bool :=
  match c with CbFunction => true | _ => false end.

(** A default parameter takes over when the argument is undefined only. *)
Definition default_param (arg dflt : callback) : callback :=
  match arg with CbUndefined => dflt | _ => arg end.

(** ** Regular expressions

    [new RegExp(pattern, 'i').test(value)] for patterns made of characters,
    character classes, sequence, alternation and repetition, optionally
    anchored at either end.  Matching is by derivatives. *)

Inductive regex :=
  | RNone
  | REps
  | RChar (c : ascii)
  | RClass (ranges : list (ascii * ascii))
  | RSeq (r1 r2 : regex)
  | RAlt (r1 r2 : regex)
  | RStar (r : regex).

Definition RPlus (r : regex) : regex := RSeq r (RStar r).

Record RegExp := {
  anchoredStart : bool;   (* the pattern begins with ^ *)
  body : regex;
  anchoredEnd : bool      (* the pattern ends with $ *)
}.

(** Case folding of the [i] flag on ASCII letters. *)
Definition toLower (c : ascii) : ascii :=
  let n := nat_of_ascii c in
  if ((65 <=? n) && (n <=? 90))%nat then ascii_of_nat (n + 32) else c.

Definition toUpper (c : ascii) : ascii :=
  let n := nat_of_ascii c in
  if ((97 <=? n) && (n <=? 122))%nat then ascii_of_nat (n - 32) else c.

Definition inRange (c : ascii) (r : ascii * ascii) : bool :=
  ((nat_of_ascii (fst r) <=? nat_of_ascii c)
   && (nat_of_ascii c <=? nat_of_ascii (snd r)))%nat.

Definition inClass (c : ascii) (ranges : list (ascii * ascii)) : bool :=
  existsb (fun r => inRange (toLower c) r || inRange (toUpper c) r) ranges.

Fixpoint nullable (r : regex) : bool :=
  match r with
  | RNone => false
  | REps => true
  | RChar _ => false
  | RClass _ => false
  | RSeq r1 r2 => nullable r1 && nullable r2
  | RAlt r1 r2 => nullable r1 || nullable r2
  | RStar _ => true
  end.

Fixpoint deriv (c : ascii) (r : regex) : regex :=
  match r with
  | RNone => RNone
  | REps => RNone
  | RChar a => if Ascii.eqb (toLower a) (toLower c) then REps else RNone
  | RClass ranges => if inClass c ranges then REps else RNone
  | RSeq r1 r2 =>
      if nullable r1
      then RAlt (RSeq (deriv c r1) r2) (deriv c r2)
      else RSeq (deriv c r1) r2
  | RAlt r1 r2 => RAlt (deriv c r1) (deriv c r2)
  | RStar r1 => RSeq (deriv c r1) (RStar r1)
  end.

(** A match of [r] that starts at the head of [s]: it must reach the end of
    [s] when [toEnd] is set, and may stop anywhere otherwise. *)
Fixpoint matchHere (toEnd : bool) (r : regex) (s : string) : bool :=
  match s with
  | EmptyString => nullable r
  | String c s' => (negb toEnd && nullable r) || matchHere toEnd (deriv c r) s'
  end.

(** A match that may start at any position of [s]. *)
Fixpoint matchAnywhere (toEnd : bool) (r : regex) (s : string) : bool :=
  matchHere toEnd r s ||
  match s with
  | EmptyString => false
  | String _ s' => matchAnywhere toEnd r s'
  end.

Definition RegExp_test (re : RegExp) (s : string) : bool :=
  if anchoredStart re
  then matchHere (anchoredEnd re) (body re) s
  else matchAnywhere (anchoredEnd re) (body re) s.

(** The pattern [^[0-9]+$]. *)
Definition digitsOnly : RegExp :=
  {| anchoredStart := true;
     body := RPlus (RClass [("0"%char, "9"%char)]);
     anchoredEnd := true |}.


(** ** The data model: items, choices, groups *)

(** The decimal numeral of a number, as the template of an element writes
    it into an attribute. *)
Definition numeral (n : Z) : string := NilZero.string_of_int (Z.to_int n).

(** What an item keeps of the choice it comes from, as the caller of
    [_addItem] passes it: a number, or the text of a data-id attribute read
    back from the DOM. *)
Inductive choiceRef :=
  | RefNumber (n : Z)
  | RefString (s : string).
Coercion RefNumber : Z >-> choiceRef.
Arguments Some {A} & a.

(** Truthiness of such a value: the number 0 and the empty string are the
    falsy ones. *)
Definition refTruthy (r : choiceRef) : bool :=
  match r with
  | RefNumber n => negb (n =? 0)
  | RefString s => truthy s
  end.

Module Item.
Record t := mk {
    id : Z;
    value : string;
    label : string;
    active : bool;
    selected : bool;
    choiceId : choiceRef
}.
Definition set_active (b : bool) (i : t) : t :=
  mk (id i) (value i) (label i) b (selected i) (choiceId i).
Definition set_selected (b : bool) (i : t) : t :=
  mk (id i) (value i) (label i) (active i) b (choiceId i).
End Item.

Module Choice.
Record t := mk {
    id : Z;
    value : string;
    label : string;
    groupId : Z;
    selected : bool;
    disabled : bool;
    active : bool;
    score : option Q
}.
Definition set_active (b : bool) (c : t) : t :=
  mk (id c) (value c) (label c) (groupId c) (selected c) (disabled c) b (score c).
Definition set_selected (b : bool) (c : t) : t :=
  mk (id c) (value c) (label c) (groupId c) b (disabled c) (active c) (score c).
Definition set_score (q : option Q) (c : t) : t :=
  mk (id c) (value c) (label c) (groupId c) (selected c) (disabled c) (active c) q.
End Choice.

Module Group.
Record t := mk {
    id : Z;
    value : string;
    active : bool;
    disabled : bool
}.
End Group.

(** One entry of what the fuzzy matcher returns. *)
Record FuseResult := { item : Choice.t; result_score : Q }.

(** ** The store

    [store/index.js], [actions/index.js] and the reducers are not among the
    sources; the definitions of this section follow section 4.1 of the
    specification. *)

(** Modelled from the spec: the state held by the store (missing
    store/index.js): the three append-only logs. *)
Record State := {
  items : list Item.t;
  choices : list Choice.t;
  groups : list Group.t
}.

(** Modelled from the spec: the actions of the missing actions/index.js, one
    constructor per action creator imported by choices.js. *)
Module actions.
Inductive action :=
  | addItem (value label : string) (id : Z) (choiceId : choiceRef)
  | removeItem (id : Z) (choiceId : choiceRef)
  | selectItem (id : Z) (selected : bool)
  | addChoice (value label : string) (id groupId : Z) (disabled : bool)
  | addGroup (value : string) (id : Z) (active disabled : bool)
  | filterChoices (results : list FuseResult)
  | activateChoices (resetSelection : bool)
  | clearAll.
End actions.
Definition action : Type := actions.action.

(** The score the search results give to a choice, if it is among them. *)
Definition scoreIn (results : list FuseResult) (c : Choice.t) : option Q :=
  option_map result_score
    (find (fun r => Choice.id (item r) =? Choice.id c) results).

(** Modelled from the spec: the items reducer (missing reducers/items.js).
    addItem appends a new item with active=true and selected=false;
    removeItem sets active=false on the item with a matching id; selectItem
    sets the selected flag on the matching active item. *)
Definition reduce_items (a : action) (s : list Item.t) : list Item.t :=
  match a with
  | actions.addItem value label id choiceId =>
      s ++ [Item.mk id value label true false choiceId]
  | actions.removeItem id _ =>
      map (fun i => if Item.id i =? id then Item.set_active false i else i) s
  | actions.selectItem id selected =>
      map (fun i => if (Item.id i =? id) && Item.active i
                    then Item.set_selected selected i else i) s
  | actions.clearAll => []
  | _ => s
  end.

(** Modelled from the spec: whether the choice id that an item carries
    references the choice of id [id]: it is that number, or its numeral. *)
Definition references (choiceId : choiceRef) (id : Z) : bool :=
  match choiceId with
  | RefNumber n => n =? id
  | RefString s => String.eqb s (numeral id)
  end.

(** The place of a choice among the search results: the position of the
    first result for it, or the number of results when there is none. *)
Fixpoint rankIn (results : list FuseResult) (c : Choice.t) : nat :=
  match results with
  | [] => O
  | r :: rest =>
      if Choice.id (item r) =? Choice.id c then O else S (rankIn rest c)
  end.

(** A stable sort of the choices by a key. *)
Fixpoint insertByRank (key : Choice.t -> nat) (c : Choice.t)
    (s : list Choice.t) : list Choice.t :=
  match s with
  | [] => [c]
  | d :: s' =>
      if (key c <=? key d)%nat then c :: d :: s'
      else d :: insertByRank key c s'
  end.

Definition sortByRank (key : Choice.t -> nat) (s : list Choice.t)
    : list Choice.t :=
  fold_right (insertByRank key) [] s.

(** Modelled from the spec: the choices reducer (missing reducers/choices.js).
    addChoice appends a new choice with active=true and selected=false.
    removeItem clears the selected flag of the choice that choiceId
    references, so that it becomes choosable again; what makes it
    unchoosable is the addition of the item: addItem sets the selected flag
    of the choice that choiceId references.  filterChoices replaces the
    active choices with the search results, in the order of the results and
    with their scores, and marks the other choices inactive: the log is put
    in the order of the results, the choices that are not among them last.
    activateChoices reactivates all choices and optionally clears their
    selection. *)
Definition reduce_choices (a : action) (s : list Choice.t) : list Choice.t :=
  match a with
  | actions.addChoice value label id groupId disabled =>
      s ++ [Choice.mk id value label groupId false disabled true None]
  | actions.addItem _ _ _ choiceId =>
      map (fun c => if references choiceId (Choice.id c)
                    then Choice.set_selected true c else c) s
  | actions.removeItem _ choiceId =>
      map (fun c => if references choiceId (Choice.id c)
                    then Choice.set_selected false c else c) s
  | actions.filterChoices results =>
      sortByRank (rankIn results)
        (map (fun c => match scoreIn results c with
                       | Some q => Choice.set_score (Some q) (Choice.set_active true c)
                       | None => Choice.set_active false c
                       end) s)
  | actions.activateChoices resetSelection =>
      map (fun c => let c' := Choice.set_active true c in
                    if resetSelection then Choice.set_selected false c' else c') s
  | actions.clearAll => []
  | _ => s
  end.

(** Modelled from the spec: the groups reducer (missing reducers/groups.js):
    addGroup appends a new group. *)
Definition reduce_groups (a : action) (s : list Group.t) : list Group.t :=
  match a with
  | actions.addGroup value id active disabled => s ++ [Group.mk id value active disabled]
  | actions.clearAll => []
  | _ => s
  end.

(** Modelled from the spec: the root reducer, a pure and total function of
    the state and the action. *)
Definition reducer (a : action) (s : State) : State :=
  {| items := reduce_items a (items s);
     choices := reduce_choices a (choices s);
     groups := reduce_groups a (groups s) |}.

(** Modelled from the spec: the views of the missing store/index.js.  The
    full logs are the fields of [State]; the filtered views keep the active
    entries; the selectable view leaves out disabled and selected choices. *)
Definition filteredByActive (s : list Item.t) : list Item.t :=
  filter Item.active s.

Definition choicesFilteredByActive (s : list Choice.t) : list Choice.t :=
  filter Choice.active s.

Definition groupsFilteredByActive (s : list Group.t) : list Group.t :=
  filter Group.active s.

Definition choicesFilteredBySelectable (s : list Choice.t) : list Choice.t :=
  filter (fun c => negb (Choice.disabled c) && negb (Choice.selected c)) s.

Definition itemsReducedToValues (s : list Item.t) : list string :=
  map Item.value s.

(** ** The widget *)

Inductive inputType := text | select_one | select_multiple.

Definition isText (t : inputType) : bool :=
  match t with text => true | _ => false end.

Definition isSelectOne (t : inputType) : bool :=
  match t with select_one => true | _ => false end.

(** The options the methods below read; the presentation options (templates,
    class names, placeholder) have no part in them. *)
Record Options := {
  maxItemCount : Z;
  addItems : bool;
  removeItems : bool;
  removeItemButton : bool;
  editItems : bool;
  duplicateItems : bool;
  delimiter : string;
  paste : bool;
  searchOptions : bool;
  regexFilter : option RegExp;
  prependValue : option string;
  appendValue : option string;
  callbackOnAddItem : callback;
  callbackOnRemoveItem : callback
}.

Definition defaultOptions : Options :=
  {| maxItemCount := -1;
     addItems := true;
     removeItems := true;
     removeItemButton := false;
     editItems := false;
     duplicateItems := true;
     delimiter := ",";
     paste := true;
     searchOptions := true;
     regexFilter := None;
     prependValue := None;
     appendValue := None;
     callbackOnAddItem := CbFunction;
     callbackOnRemoveItem := CbFunction |}.

(** The children of the choice list: group headings, options (with their
    highlighted state) and notices. *)
Inductive element :=
  | OptGroupEl (g : Group.t)
  | OptionEl (c : Choice.t) (highlighted : bool)
  | NoticeEl (label : string).

(** A call of a user callback, as (id, value). *)
Inductive callbackCall :=
  | OnAddItem (id : Z) (value : string)
  | OnRemoveItem (id : Z) (value : string).

(** The instance: its options, its store, the parts of the DOM that the
    methods read back, and its tracking fields.  [dropdown_notice] is [Some]
    once a key-up of a text input has written a notice over the dropdown's
    content. [Fuse_search] stands for [new Fuse(haystack, ...).search(needle)]
    of the external matcher.  The last three fields are logs: the messages
    written to the console, the user callbacks invoked and the actions
    dispatched to the store, each in order of occurrence. *)
Record Choices := mkChoices {
  options : Options;
  passedElement_type : inputType;
  Fuse_search : list Choice.t -> string -> list FuseResult;
  store : State;
  passedElement_value : string;
  input_value : string;
  itemList : list Item.t;
  choiceList : list element;
  dropdown_notice : option string;
  dropdown_active : bool;
  canSearch : bool;
  isSearching : bool;
  currentValue : string;
  highlightPosition : nat;
  console_error : list string;
  callbacks : list callbackCall;
  dispatched : list action
}.

Definition set_store (x : State) (w : Choices) : Choices :=
  mkChoices (options w) (passedElement_type w) (Fuse_search w) x
    (passedElement_value w) (input_value w) (itemList w) (choiceList w)
    (dropdown_notice w) (dropdown_active w) (canSearch w) (isSearching w)
    (currentValue w) (highlightPosition w) (console_error w) (callbacks w)
    (dispatched w).

Definition set_passedElement_value (x : string) (w : Choices) : Choices :=
  mkChoices (options w) (passedElement_type w) (Fuse_search w) (store w) x
    (input_value w) (itemList w) (choiceList w) (dropdown_notice w)
    (dropdown_active w) (canSearch w) (isSearching w) (currentValue w)
    (highlightPosition w) (console_error w) (callbacks w) (dispatched w).

Definition set_input_value (x : string) (w : Choices) : Choices :=
  mkChoices (options w) (passedElement_type w) (Fuse_search w) (store w)
    (passedElement_value w) x (itemList w) (choiceList w) (dropdown_notice w)
    (dropdown_active w) (canSearch w) (isSearching w) (currentValue w)
    (highlightPosition w) (console_error w) (callbacks w) (dispatched w).

Definition set_itemList (x : list Item.t) (w : Choices) : Choices :=
  mkChoices (options w) (passedElement_type w) (Fuse_search w) (store w)
    (passedElement_value w) (input_value w) x (choiceList w)
    (dropdown_notice w) (dropdown_active w) (canSearch w) (isSearching w)
    (currentValue w) (highlightPosition w) (console_error w) (callbacks w)
    (dispatched w).

Definition set_choiceList (x : list element) (w : Choices) : Choices :=
  mkChoices (options w) (passedElement_type w) (Fuse_search w) (store w)
    (passedElement_value w) (input_value w) (itemList w) x (dropdown_notice w)
    (dropdown_active w) (canSearch w) (isSearching w) (currentValue w)
    (highlightPosition w) (console_error w) (callbacks w) (dispatched w).

Definition set_dropdown_notice (x : option string) (w : Choices) : Choices :=
  mkChoices (options w) (passedElement_type w) (Fuse_search w) (store w)
    (passedElement_value w) (input_value w) (itemList w) (choiceList w) x
    (dropdown_active w) (canSearch w) (isSearching w) (currentValue w)
    (highlightPosition w) (console_error w) (callbacks w) (dispatched w).

Definition set_dropdown_active (x : bool) (w : Choices) : Choices :=
  mkChoices (options w) (passedElement_type w) (Fuse_search w) (store w)
    (passedElement_value w) (input_value w) (itemList w) (choiceList w)
    (dropdown_notice w) x (canSearch w) (isSearching w) (currentValue w)
    (highlightPosition w) (console_error w) (callbacks w) (dispatched w).

Definition set_canSearch (x : bool) (w : Choices) : Choices :=
  mkChoices (options w) (passedElement_type w) (Fuse_search w) (store w)
    (passedElement_value w) (input_value w) (itemList w) (choiceList w)
    (dropdown_notice w) (dropdown_active w) x (isSearching w) (currentValue w)
    (highlightPosition w) (console_error w) (callbacks w) (dispatched w).

Definition set_isSearching (x : bool) (w : Choices) : Choices :=
  mkChoices (options w) (passedElement_type w) (Fuse_search w) (store w)
    (passedElement_value w) (input_value w) (itemList w) (choiceList w)
    (dropdown_notice w) (dropdown_active w) (canSearch w) x (currentValue w)
    (highlightPosition w) (console_error w) (callbacks w) (dispatched w).

Definition set_currentValue (x : string) (w : Choices) : Choices :=
  mkChoices (options w) (passedElement_type w) (Fuse_search w) (store w)
    (passedElement_value w) (input_value w) (itemList w) (choiceList w)
    (dropdown_notice w) (dropdown_active w) (canSearch w) (isSearching w) x
    (highlightPosition w) (console_error w) (callbacks w) (dispatched w).

Definition set_highlightPosition (x : nat) (w : Choices) : Choices :=
  mkChoices (options w) (passedElement_type w) (Fuse_search w) (store w)
    (passedElement_value w) (input_value w) (itemList w) (choiceList w)
    (dropdown_notice w) (dropdown_active w) (canSearch w) (isSearching w)
    (currentValue w) x (console_error w) (callbacks w) (dispatched w).

Definition log_console_error (msg : string) (w : Choices) : Choices :=
  mkChoices (options w) (passedElement_type w) (Fuse_search w) (store w)
    (passedElement_value w) (input_value w) (itemList w) (choiceList w)
    (dropdown_notice w) (dropdown_active w) (canSearch w) (isSearching w)
    (currentValue w) (highlightPosition w) (console_error w ++ [msg])
    (callbacks w) (dispatched w).

Definition log_callback (c : callbackCall) (w : Choices) : Choices :=
  mkChoices (options w) (passedElement_type w) (Fuse_search w) (store w)
    (passedElement_value w) (input_value w) (itemList w) (choiceList w)
    (dropdown_notice w) (dropdown_active w) (canSearch w) (isSearching w)
    (currentValue w) (highlightPosition w) (console_error w)
    (callbacks w ++ [c]) (dispatched w).

Definition log_dispatched (a : action) (w : Choices) : Choices :=
  mkChoices (options w) (passedElement_type w) (Fuse_search w) (store w)
    (passedElement_value w) (input_value w) (itemList w) (choiceList w)
    (dropdown_notice w) (dropdown_active w) (canSearch w) (isSearching w)
    (currentValue w) (highlightPosition w) (console_error w) (callbacks w)
    (dispatched w ++ [a]).

(** ** Method bodies: state with early return *)

Inductive completion (A : Type) :=
  | Normal (a : A)
  | Return (r : retval).
Arguments Normal {A} a.
Arguments Return {A} r.

Definition M (A : Type) : Type := Choices -> completion A * Choices.

Definition ret {A} (a : A) : M A := fun w => (Normal a, w).

Definition bind {A B} (m : M A) (k : A -> M B) : M B :=
  fun w =>
    match m w with
    | (Normal a, w') => k a w'
    | (Return r, w') => (Return r, w')
    end.

Notation "x <- m ;; k" := (bind m (fun x => k))
  (at level 61, m at next level, right associativity).
Notation "m ;; k" := (bind m (fun _ => k))
  (at level 61, right associativity).

(** The statement [return r]. *)
Definition return_ (r : retval) : M unit := fun w => (Return r, w).

Definition gets {A} (f : Choices -> A) : M A := fun w => (Normal (f w), w).

Definition modify (f : Choices -> Choices) : M unit := fun w => (Normal tt, f w).

Definition skip : M unit := ret tt.

(** [if (b) stmt] with no else branch. *)
Definition when (b : bool) (m : M unit) : M unit := if b then m else skip.

(** A call: the body runs to its [return], or to its end, where it
    evaluates to undefined. *)
Definition call (body : M unit) : M retval :=
  fun w =>
    match body w with
    | (Normal _, w') => (Normal undefined, w')
    | (Return r, w') => (Normal r, w')
    end.

(** [xs.forEach(f)]: [f] is a function of its own, so a return inside it
    ends one iteration only. *)
Fixpoint forEach {A} (xs : list A) (f : A -> M retval) : M unit :=
  match xs with
  | [] => skip
  | x :: xs' => f x ;; forEach xs' f
  end.

(** The instance after a call, and what the call evaluated to. *)
Definition exec {A} (m : M A) (w : Choices) : Choices := snd (m w).

Definition result (m : M retval) (w : Choices) : option retval :=
  match fst (m w) with Normal r => Some r | Return _ => None end.

Definition console_error_ (msg : string) : M unit := modify (log_console_error msg).

(** ** Rendering *)

Definition isSelectableEl (e : element) : bool :=
  match e with OptionEl c _ => negb (Choice.disabled c) | _ => false end.

Definition isHighlightedEl (e : element) : bool :=
  match e with OptionEl _ h => h | _ => false end.

Definition removeHighlight (e : element) : element :=
  match e with OptionEl c _ => OptionEl c false | _ => e end.

(** Adds the highlighted class to the [k]-th selectable option. *)
Fixpoint addHighlight (k : nat) (els : list element) : list element :=
  match els with
  | [] => []
  | e :: els' =>
      match e with
      | OptionEl c _ =>
          if negb (Choice.disabled c)
          then match k with
               | O => OptionEl c true :: els'
               | S k' => e :: addHighlight k' els'
               end
          else e :: addHighlight k els'
      | _ => e :: addHighlight k els'
      end
  end.

(** What [this.dropdown] holds: the choice list, or the notice written over
    it. *)
Definition dropdownEls (w : Choices) : list element :=
  match dropdown_notice w with
  | Some label => [NoticeEl label]
  | None => choiceList w
  end.

(** [this.dropdown.querySelectorAll('[data-option-selectable]')]. *)
Definition selectableEls (w : Choices) : list element :=
  filter isSelectableEl (dropdownEls w).

(** The position, among the selectable options, of the first element found
    by [this.dropdown.querySelector('.is-highlighted')]. *)
Fixpoint highlightedIndex (els : list element) : option nat :=
  match els with
  | [] => None
  | e :: els' =>
      if isHighlightedEl e then Some O
      else option_map S (highlightedIndex els')
  end.

(** The first highlighted element of the dropdown. *)
Definition highlightedEl (w : Choices) : option element :=
  find isHighlightedEl (dropdownEls w).

(** [_highlightChoice(el)]; an element is given by its position among the
    selectable options. *)
Definition _highlightChoice (el : option nat) : M retval :=
  call (
    options_ <- gets selectableEls ;;
    when (1 <=? List.length options_)%nat (
      modify (fun w => set_choiceList (map removeHighlight (choiceList w)) w) ;;
      match el with
      | Some k =>
          modify (fun w => set_choiceList (addHighlight k (choiceList w)) w) ;;
          modify (set_highlightPosition k)
      | None =>
          pos <- gets highlightPosition ;;
          let k := if (pos <? List.length options_)%nat then pos
                   else (List.length options_ - 1)%nat in
          modify (fun w => set_choiceList (addHighlight k (choiceList w)) w)
      end)).

Definition renderOptions (t : inputType) (opts : list Choice.t) : list element :=
  flat_map (fun option_ =>
              if isSelectOne t then [OptionEl option_ false]
              else if negb (Choice.selected option_) then [OptionEl option_ false]
              else []) opts.

Definition renderGroups (t : inputType) (grps : list Group.t)
    (opts : list Choice.t) : list element :=
  flat_map (fun group =>
              let groupOptions :=
                filter (fun option_ =>
                          if isSelectOne t
                          then Choice.groupId option_ =? Group.id group
                          else (Choice.groupId option_ =? Group.id group)
                               && negb (Choice.selected option_)) opts in
              if (1 <=? List.length groupOptions)%nat
              then OptGroupEl group :: renderOptions t groupOptions
              else []) grps.

(** [renderItems]: for a text input the values of the items go, joined by
    the delimiter, into the value attribute of the passed element, which is
    what [this.passedElement.value] then reads, as nothing else writes to
    that hidden input; the fragment built holds one element per item.  (For
    a select, the option list of the passed element is rewritten, which no
    method reads back.) *)
Definition renderItems (its : list Item.t) : M (list Item.t) :=
  t <- gets passedElement_type ;;
  opts <- gets options ;;
  let itemsFiltered := itemsReducedToValues its in
  when (isText t)
    (modify (set_passedElement_value (join (delimiter opts) itemsFiltered))) ;;
  ret its.

(** [render]: the choice list of a select is rebuilt from the active groups
    and choices, and the item list from the active items.  The source skips a
    part whose slice of the state is the very object it rendered last; as
    what is built is a function of the state, rebuilding it then gives the
    same content, and the model rebuilds always. *)
Definition render : M retval :=
  call (
    t <- gets passedElement_type ;;
    when (negb (isText t)) (
      st <- gets store ;;
      searching <- gets isSearching ;;
      let activeGroups := groupsFilteredByActive (groups st) in
      let activeChoices := choicesFilteredByActive (choices st) in
      let choiceListFragment :=
        if (1 <=? List.length activeGroups)%nat && negb searching
        then renderGroups t activeGroups activeChoices
        else if (1 <=? List.length activeChoices)%nat
             then renderOptions t activeChoices
             else [] in
      if (1 <=? List.length choiceListFragment)%nat
      then modify (set_choiceList choiceListFragment) ;;
           _highlightChoice None ;; skip
      else modify (set_choiceList
                     [NoticeEl (if searching then "No results found"
                                else "No choices to choose from")])) ;;
    st <- gets store ;;
    let activeItems := filteredByActive (items st) in
    itemListFragment <- renderItems activeItems ;;
    modify (set_itemList itemListFragment)).

(** Modelled from the spec: [store.dispatch] of the missing store/index.js
    applies the reducer to produce the new state, then notifies the
    subscriber, which is [render]. *)
Definition dispatch (a : action) : M unit :=
  modify (log_dispatched a) ;;
  modify (fun w => set_store (reducer a (store w)) w) ;;
  render ;; skip.

(** ** Public methods on items *)

(** [selectItem(item)]. *)
Definition selectItem (item_ : option Item.t) : M retval :=
  call (
    match item_ with
    | None => return_ undefined
    | Some i =>
        let id := Item.id i in
        dispatch (actions.selectItem id true) ;;
        return_ this
    end).

(** [deselectItem(item)]. *)
Definition deselectItem (item_ : option Item.t) : M retval :=
  call (
    match item_ with
    | None => return_ undefined
    | Some i =>
        let id := Item.id i in
        dispatch (actions.selectItem id false) ;;
        return_ this
    end).

(** [highlightAll()]. *)
Definition highlightAll : M retval :=
  call (
    its <- gets (fun w => items (store w)) ;;
    forEach its (fun i => call (selectItem (Some i) ;; skip)) ;;
    return_ this).

(** [deselectAll()]. *)
Definition deselectAll : M retval :=
  call (
    its <- gets (fun w => items (store w)) ;;
    forEach its (fun i => call (deselectItem (Some i) ;; skip)) ;;
    return_ this).

(** [_removeItem(item, callback = this.options.callbackOnRemoveItem)]; the
    item is [None] when the caller passes nothing that is an object.  The
    [return] that follows the one-statement [if] on the callback's type is a
    statement of its own. *)
Definition _removeItem (item_ : option Item.t) (callback_ : callback) : M retval :=
  call (
    opts <- gets options ;;
    let callback_ := default_param callback_ (callbackOnRemoveItem opts) in
    match item_ with
    | None =>
        console_error_ "removeItem: No item object was passed to be removed" ;;
        return_ undefined
    | Some i =>
        let id := Item.id i in
        let value := Item.value i in
        let choiceId := Item.choiceId i in
        dispatch (actions.removeItem id choiceId) ;;
        when (callback_truthy callback_) (
          when (negb (isFunction callback_))
            (console_error_ "callbackOnRemoveItem: Callback is not a function") ;;
          return_ undefined ;;
          modify (log_callback (OnRemoveItem id value))) ;;
        return_ this
    end).

(** [item.value === value] for an argument of any type. *)
Definition strictEqualsString (s : string) (v : jsval) : bool :=
  match v with VString s' => String.eqb s s' | _ => false end.

(** [removeItemsByValue(value)]; here too the [return] after the
    one-statement [if] is a statement of its own. *)
Definition removeItemsByValue (value : jsval) : M retval :=
  call (
    when (negb (jsval_truthy value) || negb (isString value))
      (console_error_ "removeItemsByValue: No value was passed to be removed") ;;
    return_ undefined ;;
    its <- gets (fun w => filteredByActive (items (store w))) ;;
    forEach its (fun i =>
      call (when (strictEqualsString (Item.value i) value)
              (_removeItem (Some i) CbUndefined ;; skip))) ;;
    return_ this).

(** [excludedId !== item.id], where the excluded id may be left out. *)
Definition strictDiffers (excludedId : option Z) (id : Z) : bool :=
  match excludedId with Some x => negb (x =? id) | None => true end.

(** [removeActiveItems(excludedId)]. *)
Definition removeActiveItems (excludedId : option Z) : M retval :=
  call (
    its <- gets (fun w => filteredByActive (items (store w))) ;;
    forEach its (fun i =>
      call (when (Item.active i && strictDiffers excludedId (Item.id i))
              (_removeItem (Some i) CbUndefined ;; skip))) ;;
    return_ this).

(** [removeSelectedItems()]. *)
Definition removeSelectedItems : M retval :=
  call (
    its <- gets (fun w => filteredByActive (items (store w))) ;;
    forEach its (fun i =>
      call (when (Item.selected i && Item.active i)
              (_removeItem (Some i) CbUndefined ;; skip))) ;;
    return_ this).

(** [clearValue()]. *)
Definition clearValue : M retval :=
  call (dispatch actions.clearAll ;; return_ this).

(** [showDropdown()], [hideDropdown()], [toggleDropdown()]: the active state
    of the dropdown (whether it flips above the input is a matter of
    layout). *)
Definition showDropdown : M retval :=
  call (modify (set_dropdown_active true) ;; return_ this).

Definition hideDropdown : M retval :=
  call (modify (set_dropdown_active false) ;; return_ this).

Definition toggleDropdown : M retval :=
  call (
    isActive <- gets dropdown_active ;;
    (if isActive then hideDropdown else showDropdown) ;;
    return_ this).

(** [clearInput()] (the width of the input is a matter of layout). *)
Definition clearInput : M retval :=
  call (
    v <- gets input_value ;;
    when (truthy v) (modify (set_input_value "")) ;;
    return_ this).

(** [_addItem(value, label, choiceId = -1,
    callback = this.options.callbackOnAddItem)]. *)
Definition _addItem (value : string) (label : option string)
    (choiceId : option choiceRef) (callback_ : callback) : M retval :=
  call (
    opts <- gets options ;;
    let callback_ := default_param callback_ (callbackOnAddItem opts) in
    let choiceId := match choiceId with Some c => c | None => RefNumber (-1) end in
    its <- gets (fun w => items (store w)) ;;
    let passedValue := trim value in
    let passedLabel :=
      match label with
      | Some l => if truthy l then l else passedValue
      | None => passedValue
      end in
    let passedOptionId := if refTruthy choiceId then choiceId else RefNumber (-1) in
    let passedValue :=
      match prependValue opts with
      | Some p => if truthy p then String.append p passedValue else passedValue
      | None => passedValue
      end in
    let passedValue :=
      match appendValue opts with
      | Some a => if truthy a then String.append passedValue a else passedValue
      | None => passedValue
      end in
    let id := Z.of_nat (List.length its) + 1 in
    dispatch (actions.addItem passedValue passedLabel id passedOptionId) ;;
    t <- gets passedElement_type ;;
    when (isSelectOne t) (removeActiveItems (Some id) ;; skip) ;;
    when (callback_truthy callback_) (
      if isFunction callback_
      then modify (log_callback (OnAddItem id passedValue))
      else console_error_ "callbackOnAddItem: Callback is not a function") ;;
    return_ this).

(** [_regexFilter(value)]: with no filter set, [new RegExp(null, 'i')] looks
    for the letters of null. *)
Definition RegExp_of (o : option RegExp) : RegExp :=
  match o with
  | Some re => re
  | None =>
      {| anchoredStart := false;
         body := RSeq (RChar "n") (RSeq (RChar "u") (RSeq (RChar "l") (RChar "l")));
         anchoredEnd := false |}
  end.

Definition _regexFilter (value : string) : M retval :=
  call (
    when (negb (truthy value)) (return_ undefined) ;;
    opts <- gets options ;;
    let expression := RegExp_of (regexFilter opts) in
    return_ (boolean (RegExp_test expression value))).

(** ** Keyboard handling *)

(** [_handleEnter(activeItems, value)]. *)
Definition _handleEnter (activeItems : list Item.t) (value : string) : M retval :=
  call (
    opts <- gets options ;;
    shown <- gets (fun w => Z.of_nat (List.length (itemList w))) ;;
    passedValue <- gets passedElement_value ;;
    let canUpdate :=
      if addItems opts
      then if negb (maxItemCount opts =? 0) && (0 <? maxItemCount opts)
              && (maxItemCount opts <=? shown)
           then false
           else if negb (duplicateItems opts) && truthy passedValue
                then negb (existsb (fun i => String.eqb (Item.value i) value)
                             activeItems)
                else true
      else false in
    when canUpdate (
      canAddItem <-
        match regexFilter opts with
        | Some _ => r <- _regexFilter value ;; ret (retval_truthy r)
        | None => ret true
        end ;;
      when canAddItem (
        toggleDropdown ;;
        _addItem value None None CbUndefined ;;
        clearInput ;; skip))).

(** [activeItems[activeItems.length - 1]]. *)
Definition lastOf (xs : list Item.t) : option Item.t :=
  nth_error xs (List.length xs - 1).

(** [_handleBackspace(activeItems)]. *)
Definition _handleBackspace (activeItems : list Item.t) : M retval :=
  call (
    opts <- gets options ;;
    when (removeItems opts) (
      let lastItem := lastOf activeItems in
      let hasSelectedItems := existsb Item.selected activeItems in
      match lastItem with
      | Some i =>
          if editItems opts && negb hasSelectedItems
          then modify (set_input_value (Item.value i)) ;;
               _removeItem lastItem CbUndefined ;; skip
          else when (negb hasSelectedItems) (selectItem lastItem ;; skip) ;;
               removeSelectedItems ;; skip
      | None =>
          when (negb hasSelectedItems) (selectItem lastItem ;; skip) ;;
          removeSelectedItems ;; skip
      end)).

(** A key event: its key code and modifiers, whether its target is the
    input of the widget, and whether that input is the active element of the
    document when the event fires. *)
Record KeyboardEvent := {
  keyCode : Z;
  ctrlKey : bool;
  metaKey : bool;
  targetIsInput : bool;
  inputIsActiveElement : bool
}.

(** [/[a-zA-Z0-9-_ ]/.test(String.fromCharCode(keyCode))]: the test is on the
    character that has the key code for character code, which is the
    character of the key for the letter keys (65 to 90), the digit keys (48
    to 57) and the space bar (32), and for no other key. *)
Definition isSearchKey (code : Z) : bool :=
  ((97 <=? code) && (code <=? 122)) || ((65 <=? code) && (code <=? 90))
  || ((48 <=? code) && (code <=? 57))
  || (code =? 45) || (code =? 95) || (code =? 32).

Definition aKey : Z := 65.
Definition enterKey : Z := 13.
Definition escapeKey : Z := 27.
Definition upKey : Z := 38.
Definition downKey : Z := 40.
Definition backKey : Z := 46.
Definition deleteKey : Z := 8.

(** Modelled from the spec: [getAdjacentEl] of the missing lib/utils.js: the
    selectable choice adjacent to the one at [startPos] in the given
    direction; there is no wrap-around, it stops at the ends. *)
Definition getAdjacentEl (count startPos : nat) (direction : Z) : option nat :=
  if 0 <? direction
  then if (S startPos <? count)%nat then Some (S startPos) else None
  else match startPos with O => None | S p => Some p end.

(** What Enter reads back from the highlighted option, an element that the
    option template (lines 1153-1158) builds from a choice: the data-value
    and data-id attributes, which hold the value of the choice and the
    numeral of its id, and the inner HTML, which is the label of the choice
    between the white space of the template: a line break and 24 spaces
    before it, a line break and 20 spaces after it.  (A value or a label
    with quotes, markup or character references in it comes back as the HTML
    parser of the browser reads it; these definitions are for the others.) *)
Definition spaces (n : nat) : string :=
  string_of_list_ascii (repeat " "%char n).

Definition lineBreak : string := String "010"%char EmptyString.

Definition option_dataValue (c : Choice.t) : string := Choice.value c.

Definition option_innerHTML (c : Choice.t) : string :=
  String.append lineBreak
    (String.append (spaces 24)
       (String.append (Choice.label c) (String.append lineBreak (spaces 20)))).

Definition option_dataId (c : Choice.t) : string := numeral (Choice.id c).

(** [_onKeyDown(e)].  The key string is taken from the event handled (the
    source reads it from the global [event]).  [hasItems], the collection of
    the children of the item list, is an object and so always truthy.  The
    id that Enter reads back from the data-id attribute of the highlighted
    option is a string, and is passed on as one.  Scrolling the
    choice list to the option reached by an arrow key changes the scroll
    position only, which is not part of the instance; its animation is
    modelled on its own below. *)
Definition _onKeyDown (e : KeyboardEvent) : M retval :=
  call (
    when (negb (targetIsInput e)) (return_ undefined) ;;
    let ctrlDownKey := ctrlKey e || metaKey e in
    opts <- gets options ;;
    t <- gets passedElement_type ;;
    activeItems <- gets (fun w => filteredByActive (items (store w))) ;;
    let hasFocusedInput := inputIsActiveElement e in
    hasActiveDropdown <- gets dropdown_active ;;
    when (negb (isText t) && isSearchKey (keyCode e) && negb hasActiveDropdown)
      (showDropdown ;; skip) ;;
    modify (set_canSearch (searchOptions opts)) ;;
    if keyCode e =? aKey then
      when ctrlDownKey (
        modify (set_canSearch false) ;;
        v <- gets input_value ;;
        when (removeItems opts && negb (truthy v) && hasFocusedInput)
          (highlightAll ;; skip))
    else if keyCode e =? enterKey then
      v <- gets input_value ;;
      when (truthy v && isText t) (_handleEnter activeItems v ;; skip) ;;
      when hasActiveDropdown (
        highlighted <- gets highlightedEl ;;
        match highlighted with
        | Some (OptionEl c _) =>
            let value := option_dataValue c in
            let label := option_innerHTML c in
            let id := option_dataId c in
            _addItem value (Some label) (Some (RefString id)) CbUndefined ;;
            clearInput ;;
            when (isSelectOne t) (
              modify (set_isSearching false) ;;
              dispatch (actions.activateChoices false) ;;
              toggleDropdown ;; skip)
        | _ => skip
        end)
    else if keyCode e =? escapeKey then
      when hasActiveDropdown (toggleDropdown ;; skip)
    else if (keyCode e =? downKey) || (keyCode e =? upKey) then
      when hasActiveDropdown (
        currentEl <- gets highlightedEl ;;
        selectable <- gets selectableEls ;;
        let directionInt := if keyCode e =? downKey then 1 else -1 in
        modify (set_canSearch false) ;;
        let nextEl :=
          match currentEl with
          | Some _ =>
              match highlightedIndex selectable with
              | Some pos => getAdjacentEl (List.length selectable) pos directionInt
              | None => None
              end
          | None => if (1 <=? List.length selectable)%nat then Some O else None
          end in
        match nextEl with
        | Some k => _highlightChoice (Some k) ;; skip
        | None => skip
        end)
    else if (keyCode e =? backKey) || (keyCode e =? deleteKey) then
      v <- gets input_value ;;
      when (hasFocusedInput && negb (truthy v) && negb (isSelectOne t))
        (_handleBackspace activeItems ;; skip)
    else skip).

Definition quote : string := String "034"%char EmptyString.

(** The notices a text input shows while the user types. *)
Definition limitNotice (n : Z) : string :=
  String.append "Only "
    (String.append (NilZero.string_of_int (Z.to_int n)) " options can be added.").

Definition uniqueNotice : string := "Only unique values can be added.".

Definition addNotice (v : string) : string :=
  String.append "Add " (String.append quote (String.append v quote)).

(** [_onKeyUp(e)]; here too the key string is taken from the event
    handled. *)
Definition _onKeyUp (e : KeyboardEvent) : M retval :=
  call (
    when (negb (targetIsInput e)) (return_ undefined) ;;
    opts <- gets options ;;
    t <- gets passedElement_type ;;
    when (isText t) (
      hasActiveDropdown <- gets dropdown_active ;;
      v <- gets input_value ;;
      if truthy v then
        activeItems <- gets (fun w => filteredByActive (items (store w))) ;;
        shown <- gets (fun w => Z.of_nat (List.length (itemList w))) ;;
        let isUnique :=
          negb (existsb (fun i => String.eqb (Item.value i) v) activeItems) in
        let dropdownItem :=
          if negb (maxItemCount opts =? 0) && (0 <? maxItemCount opts)
             && (maxItemCount opts <=? shown)
          then limitNotice (maxItemCount opts)
          else if negb (duplicateItems opts) && negb isUnique
               then uniqueNotice
               else addNotice v in
        passes <-
          match regexFilter opts with
          | Some _ => r <- _regexFilter v ;; ret (retval_truthy r)
          | None => ret true
          end ;;
        when passes (
          modify (set_dropdown_notice (Some dropdownItem)) ;;
          active_ <- gets dropdown_active ;;
          when (negb active_) (showDropdown ;; skip))
      else when hasActiveDropdown (hideDropdown ;; skip)) ;;
    cs <- gets canSearch ;;
    when cs (
      when (inputIsActiveElement e) (
        options_ <- gets (fun w => choices (store w)) ;;
        let hasUnactiveChoices :=
          existsb (fun option_ => negb (Choice.active option_)) options_ in
        v <- gets input_value ;;
        if truthy v && (1 <=? List.length options_)%nat && isSearchKey (keyCode e)
        then
          cur <- gets currentValue ;;
          let newValue := trim v in
          let currentValue_ := trim cur in
          when ((1 <=? String.length newValue)%nat
                && negb (String.eqb newValue (String.append currentValue_ " "))) (
            haystack <- gets (fun w => choicesFilteredBySelectable (choices (store w))) ;;
            let needle := newValue in
            search <- gets Fuse_search ;;
            let results := search haystack needle in
            modify (set_currentValue newValue) ;;
            modify (set_highlightPosition O) ;;
            modify (set_isSearching true) ;;
            dispatch (actions.filterChoices results))
        else
          when hasUnactiveChoices (
            modify (set_isSearching false) ;;
            dispatch (actions.activateChoices false))))).

(** [_addChoice(isSelected, isDisabled, value, label, groupId = -1)]. *)
Definition _addChoice (isSelected isDisabled : bool) (value : string)
    (label : option string) (groupId : option Z) : M retval :=
  call (
    when (negb (truthy value)) (return_ undefined) ;;
    let groupId := match groupId with Some g => g | None => -1 end in
    let label :=
      match label with
      | Some l => if truthy l then l else value
      | None => value
      end in
    chs <- gets (fun w => choices (store w)) ;;
    let id := Z.of_nat (List.length chs) + 1 in
    dispatch (actions.addChoice value label id groupId isDisabled) ;;
    when (isSelected && negb isDisabled)
      (_addItem value (Some label) (Some id) CbUndefined ;; skip)).


(** ** Setting values *)

(** An entry of the array passed to [setValue]: an object, with its [value],
    [label] and [id] properties where it has them, a string, or anything
    else.  Values and labels are strings. *)
Inductive valueArg :=
  | ArgObject (value label : option string) (id : option choiceRef)
  | ArgString (s : string)
  | ArgOther.

(** [!item.value]. *)
Definition noValue (value : option string) : bool :=
  match value with Some v => negb (truthy v) | None => true end.

Definition valueOr (value : option string) : string :=
  match value with Some v => v | None => "" end.

(** The function that [setValue] applies to each entry. *)
Definition setValueEntry (item : valueArg) : M retval :=
  call (
    match item with
    | ArgObject value label id =>
        when (noValue value) (return_ undefined) ;;
        t <- gets passedElement_type ;;
        if negb (isText t)
        then _addChoice true false (valueOr value) label (Some (-1)) ;; skip
        else _addItem (valueOr value) label id CbUndefined ;; skip
    | ArgString s =>
        t <- gets passedElement_type ;;
        if negb (isText t)
        then _addChoice true false s (Some s) (Some (-1)) ;; skip
        else _addItem s None None CbUndefined ;; skip
    | ArgOther => skip
    end).

(** [setValue(args)]. *)
Definition setValue (args : list valueArg) : M retval :=
  call (forEach args setValueEntry ;; return_ this).

(** ** Runs of the widget *)

(** The instance a constructor leaves when the passed element has no preset
    value and no option: empty logs, rendered once. *)
Definition blank (opts : Options) (t : inputType)
    (fuse : list Choice.t -> string -> list FuseResult) : Choices :=
  {| options := opts;
     passedElement_type := t;
     Fuse_search := fuse;
     store := {| items := []; choices := []; groups := [] |};
     passedElement_value := "";
     input_value := "";
     itemList := [];
     choiceList := [];
     dropdown_notice := None;
     dropdown_active := false;
     canSearch := searchOptions opts;
     isSearching := false;
     currentValue := "";
     highlightPosition := O;
     console_error := [];
     callbacks := [];
     dispatched := [] |}.

Definition new_Choices (opts : Options) (t : inputType)
    (fuse : list Choice.t -> string -> list FuseResult) : Choices :=
  exec render (blank opts t fuse).

(** What may happen to an instance: a call of one of its methods on items
    (preset values, [setValue] and clicks come down to these), the user
    editing the text of the input, or a key event. *)
Inductive op :=
  | AddItem (value : string) (label : option string) (choiceId : option choiceRef)
  | AddChoice (isSelected isDisabled : bool) (value : string)
      (label : option string) (groupId : option Z)
  | RemoveItem (item_ : option Item.t)
  | RemoveItemsByValue (value : jsval)
  | RemoveActiveItems (excludedId : option Z)
  | RemoveSelectedItems
  | SelectItem (item_ : option Item.t)
  | DeselectItem (item_ : option Item.t)
  | HighlightAll
  | DeselectAll
  | ClearValue
  | Input (value : string)
  | KeyDown (e : KeyboardEvent)
  | KeyUp (e : KeyboardEvent).

Definition step (o : op) (w : Choices) : Choices :=
  match o with
  | AddItem value label choiceId => exec (_addItem value label choiceId CbUndefined) w
  | AddChoice s d value label groupId => exec (_addChoice s d value label groupId) w
  | RemoveItem i => exec (_removeItem i CbUndefined) w
  | RemoveItemsByValue v => exec (removeItemsByValue v) w
  | RemoveActiveItems x => exec (removeActiveItems x) w
  | RemoveSelectedItems => exec removeSelectedItems w
  | SelectItem i => exec (selectItem i) w
  | DeselectItem i => exec (deselectItem i) w
  | HighlightAll => exec highlightAll w
  | DeselectAll => exec deselectAll w
  | ClearValue => exec clearValue w
  | Input v => set_input_value v w
  | KeyDown e => exec (_onKeyDown e) w
  | KeyUp e => exec (_onKeyUp e) w
  end.

Definition run (ops : list op) (w : Choices) : Choices :=
  fold_left (fun w o => step o w) ops w.

(** The key events and edits of the input among the operations. *)
Definition isKeyboardOp (o : op) : bool :=
  match o with Input _ | KeyDown _ | KeyUp _ => true | _ => false end.

(** ** The scroll animation of [_scrollToChoice]

    The scroll position is taken as an unclamped rational number. *)

Module Scroll.
Local Open Scope Q_scope.

Definition strength : Q := 4.

(** [a > b] on numbers. *)
Definition gt (a b : Q) : bool := if Qlt_le_dec b a then true else false.

(** One frame of [animateScroll(time, endPoint, direction)]: the new scroll
    position of the choice list, and whether another frame is requested. *)
Definition frame (endPoint : Q) (direction : Z) (scrollTop : Q) : Q * bool :=
  if (0 <? direction)%Z then
    let easing := (endPoint - scrollTop) / strength in
    let distance := if gt easing 1 then easing else 1 in
    let scrollTop' := scrollTop + distance in
    (scrollTop', gt endPoint scrollTop')
  else
    let easing := (scrollTop - endPoint) / strength in
    let distance := if gt easing 1 then easing else 1 in
    let scrollTop' := scrollTop - distance in
    (scrollTop', gt scrollTop' endPoint).

(** [animateScroll] run for at most [frames] frames: the final scroll
    position and the number of frames drawn, or [None] when a further frame
    is still requested after the last of them. *)
Fixpoint animateScroll (frames : nat) (endPoint : Q) (direction : Z)
    (scrollTop : Q) : option (Q * nat) :=
  match frames with
  | O => None
  | S n =>
      let (scrollTop', continueAnimation) := frame endPoint direction scrollTop in
      if continueAnimation
      then match animateScroll n endPoint direction scrollTop' with
           | Some (final, k) => Some (final, S k)
           | None => None
           end
      else Some (scrollTop', 1%nat)
  end.




End Scroll.

(** ** The end point of [_scrollToChoice] *)

Module ScrollTo.
Local Open Scope Q_scope.

(** What [_scrollToChoice] reads of the layout: the height of the choice
    list, and the height of the option and its offset from the top of the
    list. *)
Record Layout := {
  dropdownHeight : Q;
  optionHeight : Q;
  offsetTop : Q
}.

(** [endPoint] in [_scrollToChoice(option, direction)]. *)
Definition endPoint (l : Layout) (direction : Z) (scrollTop : Q) : Q :=
  let choicePos := offsetTop l + optionHeight l in
  let containerScrollPos := scrollTop + dropdownHeight l in
  if (0 <? direction)%Z
  then (scrollTop + choicePos) - containerScrollPos
  else offsetTop l.


End ScrollTo.

(** * What is stated: invariants, predicates, configurations *)

(** ** Invariants of an instance *)

(** The ids of the item log count up from 1. *)
Definition idsFrom1 (s : list Item.t) : Prop :=
  map Item.id s = map (fun k => Z.of_nat k + 1) (seq 0 (List.length s)).

(** The DOM agrees with the store, as [render] leaves it: the item list
    shows the active items; a text input carries their values, and its
    choice list is empty. *)
Record Inv (w : Choices) : Prop := {
  inv_ids : idsFrom1 (items (store w));
  inv_itemList : itemList w = filteredByActive (items (store w));
  inv_value :
    passedElement_type w = text ->
    passedElement_value w =
      join (delimiter (options w))
        (itemsReducedToValues (filteredByActive (items (store w))));
  inv_choiceList : passedElement_type w = text -> choiceList w = []
}.

(** The parts of an instance that no method changes. *)
Definition sameEnv (w0 w : Choices) : Prop :=
  options w = options w0 /\ passedElement_type w = passedElement_type w0
  /\ Fuse_search w = Fuse_search w0.

(** The actions that neither add to the item log nor empty it. *)
Definition keepsLog (a : action) : Prop :=
  match a with
  | actions.addItem _ _ _ _ | actions.clearAll => False
  | _ => True
  end.

(** A computation keeps a property of the instance. *)
Definition preserves {A} (P : Choices -> Prop) (m : M A) : Prop :=
  forall w, P w -> P (snd (m w)).

(** A computation that ends normally whatever the instance: a call. *)
Definition returns {A} (m : M A) : Prop :=
  forall w, exists a, fst (m w) = Normal a.

(** What a call evaluated to. *)
Definition valueOf (m : M retval) (w : Choices) : retval :=
  match fst (m w) with Normal r => r | Return r => r end.

(** ** Vocabulary of the statements

    The predicates and functions that the statements below use, and the
    instances and configurations of their examples. *)

(** A property that the methods keep as long as no item is added and the
    logs are not emptied: it survives the writes to the fields of the view,
    the record of a call of the add callback, highlighting, and any dispatch
    other than [addItem] and [clearAll]. *)
Record stable (P : Choices -> Prop) : Prop := {
  st_input_value : forall v w, P w -> P (set_input_value v w);
  st_dropdown_active : forall b w, P w -> P (set_dropdown_active b w);
  st_dropdown_notice : forall n w, P w -> P (set_dropdown_notice n w);
  st_canSearch : forall b w, P w -> P (set_canSearch b w);
  st_isSearching : forall b w, P w -> P (set_isSearching b w);
  st_currentValue : forall v w, P w -> P (set_currentValue v w);
  st_highlightPosition : forall n w, P w -> P (set_highlightPosition n w);
  st_console_error : forall m w, P w -> P (log_console_error m w);
  st_callback : forall id v w, P w -> P (log_callback (OnAddItem id v) w);
  st_choiceList :
    forall f w, (forall els, els = [] -> f els = []) ->
                P w -> P (set_choiceList (f (choiceList w)) w);
  st_dispatch : forall a, keepsLog a -> preserves P (dispatch a)
}.

Unset Implicit Arguments.

(** A key event on the input of the widget, which has the focus. *)
Definition keyOnInput (code : Z) (ctrl meta : bool) : KeyboardEvent :=
  {| keyCode := code; ctrlKey := ctrl; metaKey := meta;
     targetIsInput := true; inputIsActiveElement := true |}.

Definition activeItems (w : Choices) : list Item.t :=
  filteredByActive (items (store w)).

Definition activeCount (w : Choices) : Z :=
  Z.of_nat (List.length (activeItems w)).

(** The guard on the item count in [_handleEnter] and [_onKeyUp]. *)
Definition limitReached (w : Choices) : bool :=
  negb (maxItemCount (options w) =? 0) && (0 <? maxItemCount (options w))
  && (maxItemCount (options w) <=? Z.of_nat (List.length (itemList w))).

Definition hasValue (v : string) (its : list Item.t) : bool :=
  existsb (fun i => String.eqb (Item.value i) v) its.

(** The value of [canUpdate] in [_handleEnter]. *)
Definition canUpdate (w : Choices) (its : list Item.t) (v : string) : bool :=
  if addItems (options w)
  then if limitReached w then false
       else if negb (duplicateItems (options w)) && truthy (passedElement_value w)
            then negb (hasValue v its)
            else true
  else false.

(** The value of [canAddItem] in [_handleEnter]: the filter, when there is
    one, accepts the value. *)
Definition passesFilter (opts : Options) (v : string) : bool :=
  match regexFilter opts with
  | Some re => truthy v && RegExp_test re v
  | None => true
  end.

(** The invariants together with the type of the passed element. *)
Definition InvOf (t : inputType) (w : Choices) : Prop :=
  Inv w /\ passedElement_type w = t.

(** What [_addItem] makes of its arguments. *)
Definition passedValue (opts : Options) (value : string) : string :=
  let v := trim value in
  let v := match prependValue opts with
           | Some p => if truthy p then String.append p v else v
           | None => v
           end in
  match appendValue opts with
  | Some a => if truthy a then String.append v a else v
  | None => v
  end.

Definition passedLabel (value : string) (label : option string) : string :=
  match label with
  | Some l => if truthy l then l else trim value
  | None => trim value
  end.

Definition passedOptionId (choiceId : option choiceRef) : choiceRef :=
  let c := match choiceId with Some c => c | None => RefNumber (-1) end in
  if refTruthy c then c else RefNumber (-1).

Definition nextId (w : Choices) : Z :=
  Z.of_nat (List.length (items (store w))) + 1.

(** The item that [_addItem] appends to the log. *)
Definition newItem (w : Choices) (value : string) (label : option string)
    (choiceId : option choiceRef) : Item.t :=
  Item.mk (nextId w) (passedValue (options w) value) (passedLabel value label)
    true false (passedOptionId choiceId).

(** The end of [_addItem]: the callback is run, or found not to be one. *)
Definition runAddCallback (cb : callback) (id : Z) (value : string)
    (w : Choices) : Choices :=
  if callback_truthy cb
  then if isFunction cb
       then log_callback (OnAddItem id value) w
       else log_console_error "callbackOnAddItem: Callback is not a function" w
  else w.

(** A text input whose active items are within the limit [m]. *)
Definition WithinLimit (m : Z) (w : Choices) : Prop :=
  InvOf text w /\ maxItemCount (options w) = m /\ activeCount w <= m.

(** A text input limited to two items, as in the scenario of the
    specification; no matcher is needed for a text input. *)
Definition noFuse : list Choice.t -> string -> list FuseResult := fun _ _ => [].

Definition limitedTo (m : Z) (filter : option RegExp) : Options :=
  {| maxItemCount := m;
     addItems := true;
     removeItems := true;
     removeItemButton := false;
     editItems := false;
     duplicateItems := true;
     delimiter := ",";
     paste := true;
     searchOptions := true;
     regexFilter := filter;
     prependValue := None;
     appendValue := None;
     callbackOnAddItem := CbFunction;
     callbackOnRemoveItem := CbFunction |}.

Definition pressEnter : KeyboardEvent := keyOnInput enterKey false false.

(** The user types [v] and presses Enter. *)
Definition typeAndEnter (v : string) : list op :=
  [Input v; KeyDown pressEnter; KeyUp pressEnter].

(** A text input that takes no duplicates, with one active item of value a. *)
Definition noDuplicates : Options :=
  {| maxItemCount := -1;
     addItems := true;
     removeItems := true;
     removeItemButton := false;
     editItems := false;
     duplicateItems := false;
     delimiter := ",";
     paste := true;
     searchOptions := true;
     regexFilter := None;
     prependValue := None;
     appendValue := None;
     callbackOnAddItem := CbFunction;
     callbackOnRemoveItem := CbFunction |}.

(** The end of [_removeItem]: its callback is never run; a callback that is
    not a function is reported. *)
Definition afterRemoveCallback (cb : callback) (w : Choices) : Choices :=
  if callback_truthy cb && negb (isFunction cb)
  then log_console_error "callbackOnRemoveItem: Callback is not a function" w
  else w.

(** Soft deletion of the items whose id is in [ids]. *)
Definition deactivate (ids : list Z) (s : list Item.t) : list Item.t :=
  map (fun i => if existsb (Z.eqb (Item.id i)) ids
                then Item.set_active false i else i) s.

(** The options a user gets who passes a [regexFilter] and nothing else. *)
Definition withRegexFilter (re : RegExp) (o : Options) : Options :=
  {| maxItemCount := maxItemCount o;
     addItems := addItems o;
     removeItems := removeItems o;
     removeItemButton := removeItemButton o;
     editItems := editItems o;
     duplicateItems := duplicateItems o;
     delimiter := delimiter o;
     paste := paste o;
     searchOptions := searchOptions o;
     regexFilter := Some re;
     prependValue := prependValue o;
     appendValue := appendValue o;
     callbackOnAddItem := callbackOnAddItem o;
     callbackOnRemoveItem := callbackOnRemoveItem o |}.

Definition selectById (id : Z) (i : Item.t) : Item.t :=
  if (Item.id i =? id) && Item.active i then Item.set_selected true i else i.

(** A text input on which items can be edited but not removed, holding the
    item foo. *)
Definition editOnly : Options :=
  {| maxItemCount := -1;
     addItems := true;
     removeItems := false;
     removeItemButton := false;
     editItems := true;
     duplicateItems := true;
     delimiter := ",";
     paste := true;
     searchOptions := true;
     regexFilter := None;
     prependValue := None;
     appendValue := None;
     callbackOnAddItem := CbFunction;
     callbackOnRemoveItem := CbFunction |}.

Definition pressBackspace : KeyboardEvent := keyOnInput deleteKey false false.

(** The scenario of the specification: editItems enabled, the rest by
    default. *)
Definition editable : Options :=
  {| maxItemCount := -1;
     addItems := true;
     removeItems := true;
     removeItemButton := false;
     editItems := true;
     duplicateItems := true;
     delimiter := ",";
     paste := true;
     searchOptions := true;
     regexFilter := None;
     prependValue := None;
     appendValue := None;
     callbackOnAddItem := CbFunction;
     callbackOnRemoveItem := CbFunction |}.

(** The test that leads a key-up to the search: the input holds text, there
    are choices, and the key code of the event is the character code of a
    letter, a digit, a hyphen, an underscore or a space. *)
Definition searchGuard (e : KeyboardEvent) (w : Choices) : bool :=
  truthy (input_value w) && (1 <=? List.length (choices (store w)))%nat
  && isSearchKey (keyCode e).

(** The test of [handleFilter]: the trimmed text is not empty and differs
    from the trimmed text of the last search followed by a space. *)
Definition searchable (w : Choices) : bool :=
  (1 <=? String.length (trim (input_value w)))%nat
  && negb (String.eqb (trim (input_value w))
             (String.append (trim (currentValue w)) " ")).

Definition hasUnactiveChoices (w : Choices) : bool :=
  existsb (fun option_ => negb (Choice.active option_)) (choices (store w)).

(** The actions that a key-up dispatches. *)
Definition keyUpActions (e : KeyboardEvent) (w : Choices) : list action :=
  if targetIsInput e && canSearch w && inputIsActiveElement e
  then if searchGuard e w
       then if searchable w
            then [actions.filterChoices
                    (Fuse_search w
                       (choicesFilteredBySelectable (choices (store w)))
                       (trim (input_value w)))]
            else []
       else if hasUnactiveChoices w then [actions.activateChoices false] else []
  else [].

(** What the first part of a key-up, on the dropdown of a text input, leaves
    untouched. *)
Definition sameCore (w w' : Choices) : Prop :=
  store w' = store w /\ input_value w' = input_value w
  /\ canSearch w' = canSearch w /\ currentValue w' = currentValue w
  /\ dispatched w' = dispatched w /\ Fuse_search w' = Fuse_search w.

(** A computation that ends normally, with no return, and keeps [P]. *)
Definition proceeds {A} (P : Choices -> Prop) (m : M A) : Prop :=
  forall w, P w -> exists a w', m w = (Normal a, w') /\ P w'.

(** The second part of a key-up, run on the instance [w3] that the first
    part made of [w]. *)
Definition searchPart (e : KeyboardEvent) (w w3 : Choices) : Choices :=
  if canSearch w && inputIsActiveElement e
  then if searchGuard e w
       then if searchable w
            then exec (dispatch
                         (actions.filterChoices
                            (Fuse_search w
                               (choicesFilteredBySelectable (choices (store w)))
                               (trim (input_value w)))))
                   (set_isSearching true
                      (set_highlightPosition O
                         (set_currentValue (trim (input_value w)) w3)))
            else w3
       else if hasUnactiveChoices w
            then exec (dispatch (actions.activateChoices false))
                   (set_isSearching false w3)
            else w3
  else w3.

(** A matcher for the examples: the choices whose value is the needle. *)
Definition exactFuse (haystack : list Choice.t) (needle : string) : list FuseResult :=
  map (fun c => {| item := c; result_score := 0%Q |})
    (filter (fun c => String.eqb (Choice.value c) needle) haystack).

Definition pressKey (code : Z) : list op :=
  [KeyDown (keyOnInput code false false); KeyUp (keyOnInput code false false)].

(** A select-multiple with the choices x and y, in which the user has
    searched for x, so that y is filtered out, and has then replaced the text
    of the input by a space: the key-down of the space is done, its key-up is
    to come. *)
Definition afterSearchAndSpace : Choices :=
  run ([AddChoice false false "x" None None; AddChoice false false "y" None None;
        Input "x"] ++ pressKey 88 ++
       [Input " "; KeyDown (keyOnInput 32 false false)])
    (new_Choices defaultOptions select_multiple exactFuse).

(** No call of the remove callback is ever recorded. *)
Definition neverRemoved (w : Choices) : Prop :=
  forall id v, ~ In (OnRemoveItem id v) (callbacks w).

(** ** Vocabulary of the further properties *)

(** The actions that leave the three logs as long as they are. *)
Definition plainAction (a : action) : Prop :=
  match a with
  | actions.removeItem _ _ | actions.selectItem _ _
  | actions.filterChoices _ | actions.activateChoices _ => True
  | _ => False
  end.

(** A property that the methods keep as long as nothing is added to a log
    and the logs are not emptied: it survives the writes to the fields of the
    view, highlighting, and the dispatch of the actions that add nothing. *)
Record steady (P : Choices -> Prop) : Prop := {
  sd_input_value : forall v w, P w -> P (set_input_value v w);
  sd_dropdown_active : forall b w, P w -> P (set_dropdown_active b w);
  sd_dropdown_notice : forall n w, P w -> P (set_dropdown_notice n w);
  sd_canSearch : forall b w, P w -> P (set_canSearch b w);
  sd_isSearching : forall b w, P w -> P (set_isSearching b w);
  sd_currentValue : forall v w, P w -> P (set_currentValue v w);
  sd_highlightPosition : forall n w, P w -> P (set_highlightPosition n w);
  sd_console_error : forall m w, P w -> P (log_console_error m w);
  sd_highlight : forall el, preserves P (_highlightChoice el);
  sd_dispatch : forall a, plainAction a -> preserves P (dispatch a)
}.

(** The id that [_addChoice] gives to a new choice. *)
Definition nextChoiceId (w : Choices) : Z :=
  Z.of_nat (List.length (choices (store w))) + 1.

(** The label that [_addChoice] gives to a new choice. *)
Definition choiceLabel (value : string) (label : option string) : string :=
  match label with
  | Some l => if truthy l then l else value
  | None => value
  end.

Definition choiceGroupId (groupId : option Z) : Z :=
  match groupId with Some g => g | None => -1 end.

(** The choice that [_addChoice] appends to the log. *)
Definition newChoice (w : Choices) (isDisabled : bool) (value : string)
    (label : option string) (groupId : option Z) : Choice.t :=
  Choice.mk (nextChoiceId w) value (choiceLabel value label)
    (choiceGroupId groupId) false isDisabled true None.

(** The ids of the choice log are the numbers from 1 to its length, in some
    order. *)
Definition choiceIdsUpTo (s : list Choice.t) : Prop :=
  Permutation (map Choice.id s)
    (map (fun k => Z.of_nat k + 1) (seq 0 (List.length s))).

(** The data of an instance, as opposed to its view: the store, the options,
    the type of the passed element and the record of the callbacks run. *)
Definition sameData (w w' : Choices) : Prop :=
  store w' = store w /\ options w' = options w
  /\ passedElement_type w' = passedElement_type w
  /\ callbacks w' = callbacks w.

(** The operation is a call of [clearValue]. *)
Definition isClearValue (o : op) : bool :=
  match o with ClearValue => true | _ => false end.

(** The call of the add callback that announces an item. *)
Definition announce (i : Item.t) : callbackCall :=
  OnAddItem (Item.id i) (Item.value i).

(** The calls of the add callback end with the announcements of the items
    of the log, after those in [pre]. *)
Definition announced (pre : list callbackCall) (w : Choices) : Prop :=
  callbackOnAddItem (options w) = CbFunction
  /\ callbacks w = pre ++ map announce (items (store w)).

(** The number of highlighted options among the elements. *)
Definition countHighlighted (els : list element) : nat :=
  List.length (filter isHighlightedEl els).

(** The position, among the selectable options, that [_highlightChoice]
    highlights: the one given or, with none given, the highlight position
    brought back to the last option when it lies beyond. *)
Definition highlightTarget (w : Choices) (el : option nat) : nat :=
  match el with
  | Some k => k
  | None =>
      if (highlightPosition w <? List.length (selectableEls w))%nat
      then highlightPosition w
      else (List.length (selectableEls w) - 1)%nat
  end.

(** The fragment that [render] builds for the choice list of a select. *)
Definition choiceListFragment (t : inputType) (st : State) (searching : bool)
    : list element :=
  let activeGroups := groupsFilteredByActive (groups st) in
  let activeChoices := choicesFilteredByActive (choices st) in
  if (1 <=? List.length activeGroups)%nat && negb searching
  then renderGroups t activeGroups activeChoices
  else if (1 <=? List.length activeChoices)%nat
       then renderOptions t activeChoices
       else [].

Definition emptyNotice (searching : bool) : string :=
  if searching then "No results found" else "No choices to choose from".

(** What [_highlightChoice], called with no element, makes of the elements
    of the choice list, given the notice over the dropdown and the highlight
    position. *)
Definition highlightedAt (notice : option string) (pos : nat)
    (els : list element) : list element :=
  let n := List.length
             (filter isSelectableEl
                (match notice with
                 | Some label => [NoticeEl label]
                 | None => els
                 end)) in
  if (1 <=? n)%nat
  then addHighlight (if (pos <? n)%nat then pos else (n - 1)%nat)
         (map removeHighlight els)
  else els.

(** The choice list that [render] leaves in a select. *)
Definition renderedChoiceList (w : Choices) : list element :=
  let frag := choiceListFragment (passedElement_type w) (store w)
                (isSearching w) in
  if (1 <=? List.length frag)%nat
  then highlightedAt (dropdown_notice w) (highlightPosition w) frag
  else [NoticeEl (emptyNotice (isSearching w))].

(** The choices that the options among the elements stand for. *)
Definition choicesOf (els : list element) : list Choice.t :=
  flat_map (fun e => match e with OptionEl c _ => [c] | _ => [] end) els.

(** The choices offered in the choice list. *)
Definition offered (w : Choices) : list Choice.t := choicesOf (choiceList w).

(** A choice that [renderOptions] shows: any in a select-one, one that is
    not selected otherwise. *)
Definition offerable (t : inputType) (c : Choice.t) : bool :=
  isSelectOne t || negb (Choice.selected c).

(** The selected flag set to [b] on the active items whose id is in [ids]. *)
Definition selectAll (b : bool) (ids : list Z) (s : list Item.t) : list Item.t :=
  map (fun i => if existsb (Z.eqb (Item.id i)) ids && Item.active i
                then Item.set_selected b i else i) s.

(** The text of the input and the state of the dropdown and of the search:
    what the user's typing and key strokes act on. *)
Definition viewOf (w : Choices)
    : string * option string * bool * bool * bool * string * nat :=
  (input_value w, dropdown_notice w, dropdown_active w, canSearch w,
   isSearching w, currentValue w, highlightPosition w).

(** A property that survives the dispatch of the additions and removals of
    items and the records of console messages and of callbacks. *)
Record itemWise (P : Choices -> Prop) : Prop := {
  iw_addItem : forall v l i c, preserves P (dispatch (actions.addItem v l i c));
  iw_removeItem : forall i c, preserves P (dispatch (actions.removeItem i c));
  iw_console_error : forall m w, P w -> P (log_console_error m w);
  iw_callback : forall c w, P w -> P (log_callback c w)
}.

(** A property that survives every dispatch and the records of console
    messages and of callbacks. *)
Record quiet (P : Choices -> Prop) : Prop := {
  q_dispatch : forall a, preserves P (dispatch a);
  q_console_error : forall m w, P w -> P (log_console_error m w);
  q_callback : forall c w, P w -> P (log_callback c w)
}.

(** What [setValue] passes to [_addItem] on a text input: the value, label
    and id of the objects that have a non-empty value, and the strings. *)
Definition textEntries (args : list valueArg)
    : list (string * option string * option choiceRef) :=
  flat_map (fun item =>
              match item with
              | ArgObject value label id =>
                  if noValue value then [] else [(valueOr value, label, id)]
              | ArgString s => [(s, None, None)]
              | ArgOther => []
              end) args.

(** The items that [_addItem] makes of such entries, from the id after [n]
    on. *)
Fixpoint itemsOf (opts : Options) (n : nat)
    (entries : list (string * option string * option choiceRef)) : list Item.t :=
  match entries with
  | [] => []
  | (v, l, c) :: rest =>
      Item.mk (Z.of_nat n + 1) (passedValue opts v) (passedLabel v l) true false
        (passedOptionId c)
      :: itemsOf opts (S n) rest
  end.

(** The notice that a key-up writes over the dropdown of a text input. *)
Definition noticeFor (w : Choices) : string :=
  if limitReached w then limitNotice (maxItemCount (options w))
  else if negb (duplicateItems (options w))
          && hasValue (input_value w) (activeItems w)
       then uniqueNotice
       else addNotice (input_value w).

Set Implicit Arguments.

(** * Proofs *)

Lemma call_run (body : M unit) (w : Choices) :
  call body w = (Normal (valueOf (call body) w), exec (call body) w).
Proof.
  unfold valueOf, exec, call. destruct (body w) as [[a|r] w']; reflexivity.
Qed.

Lemma bind_call {B} (body : M unit) (k : retval -> M B) (w : Choices) :
  bind (call body) k w = k (valueOf (call body) w) (exec (call body) w).
Proof. unfold bind at 1. rewrite call_run. reflexivity. Qed.

Section Preserves.
Variable P : Choices -> Prop.

Lemma pres_ret {A} (a : A) : preserves P (ret a).
Proof. intros w H; exact H. Qed.

Lemma pres_gets {A} (f : Choices -> A) : preserves P (gets f).
Proof. intros w H; exact H. Qed.

Lemma pres_return (r : retval) : preserves P (return_ r).
Proof. intros w H; exact H. Qed.

Lemma pres_modify (f : Choices -> Choices) :
  (forall w, P w -> P (f w)) -> preserves P (modify f).
Proof. intros Hf w H; apply Hf, H. Qed.

Lemma pres_bind {A B} (m : M A) (k : A -> M B) :
  preserves P m -> (forall a, preserves P (k a)) -> preserves P (bind m k).
Proof.
  intros Hm Hk w H. unfold bind. specialize (Hm w H).
  destruct (m w) as [[a|r] w']; cbn in *; [apply Hk|]; assumption.
Qed.

(** Nothing runs after a [return]. *)
Lemma pres_return_bind {B} (r : retval) (k : unit -> M B) :
  preserves P (bind (return_ r) k).
Proof. intros w H; exact H. Qed.

Lemma pres_call (body : M unit) : preserves P body -> preserves P (call body).
Proof.
  intros Hb w H. unfold call. specialize (Hb w H).
  destruct (body w) as [[a|r] w']; exact Hb.
Qed.

Lemma pres_when (b : bool) (m : M unit) :
  preserves P m -> preserves P (when b m).
Proof. intros Hm; destruct b; [exact Hm | apply pres_ret]. Qed.

Lemma pres_forEach {A} (xs : list A) (f : A -> M retval) :
  (forall x, preserves P (f x)) -> preserves P (forEach xs f).
Proof.
  intros Hf; induction xs as [|x xs IH]; cbn [forEach].
  - apply pres_ret.
  - apply pres_bind; [apply Hf | intros _; exact IH].
Qed.

End Preserves.

Ltac pres_step :=
  match goal with
  | |- preserves _ (bind (return_ _) _) => apply pres_return_bind
  | |- preserves _ (bind _ _) => apply pres_bind; [ | intro ]
  | |- preserves _ (call _) => apply pres_call
  | |- preserves _ (when _ _) => apply pres_when
  | |- preserves _ (forEach _ _) => apply pres_forEach; intro
  | |- preserves _ (ret _) => apply pres_ret
  | |- preserves _ skip => apply pres_ret
  | |- preserves _ (gets _) => apply pres_gets
  | |- preserves _ (return_ _) => apply pres_return
  | |- preserves _ (if ?b then _ else _) => destruct b
  | |- preserves _ (match ?x with _ => _ end) => destruct x
  | |- preserves _ (let _ := _ in _) => cbv zeta
  end.

(** What [render] leaves of an instance. *)
Lemma render_fields (w : Choices) :
  let w' := exec render w in
  store w' = store w /\ options w' = options w
  /\ passedElement_type w' = passedElement_type w
  /\ Fuse_search w' = Fuse_search w /\ input_value w' = input_value w
  /\ dropdown_notice w' = dropdown_notice w
  /\ dropdown_active w' = dropdown_active w /\ canSearch w' = canSearch w
  /\ isSearching w' = isSearching w /\ currentValue w' = currentValue w
  /\ highlightPosition w' = highlightPosition w
  /\ console_error w' = console_error w /\ callbacks w' = callbacks w
  /\ dispatched w' = dispatched w
  /\ itemList w' = filteredByActive (items (store w))
  /\ passedElement_value w' =
       (if isText (passedElement_type w)
        then join (delimiter (options w))
               (itemsReducedToValues (filteredByActive (items (store w))))
        else passedElement_value w)
  /\ (passedElement_type w = text -> choiceList w' = choiceList w).
Proof.
  unfold exec, render, renderItems, _highlightChoice, call, bind, gets, when,
    modify, skip, ret.
  destruct w; cbn.
  destruct passedElement_type0; cbn.
  - repeat split; reflexivity.
  - repeat match goal with
           | |- context [if ?b then _ else _] => destruct b; cbn
           end; repeat split; try reflexivity; intro; discriminate.
  - repeat match goal with
           | |- context [if ?b then _ else _] => destruct b; cbn
           end; repeat split; try reflexivity; intro; discriminate.
Qed.

Lemma render_run (w : Choices) :
  render w = (Normal (valueOf render w), exec render w).
Proof. unfold render at 1 2 3. apply call_run. Qed.

Lemma dispatch_run (a : action) (w : Choices) :
  dispatch a w = (Normal tt, exec (dispatch a) w).
Proof.
  unfold exec, dispatch, bind, modify, skip, ret.
  rewrite render_run. reflexivity.
Qed.

Lemma dispatch_exec (a : action) (w : Choices) :
  exec (dispatch a) w =
  exec render (set_store (reducer a (store w)) (log_dispatched a w)).
Proof.
  unfold exec at 1. unfold dispatch, bind, modify, skip, ret.
  rewrite render_run. reflexivity.
Qed.

(** What a dispatch leaves of an instance. *)
Lemma dispatch_fields (a : action) (w : Choices) :
  let w' := exec (dispatch a) w in
  store w' = reducer a (store w) /\ options w' = options w
  /\ passedElement_type w' = passedElement_type w
  /\ Fuse_search w' = Fuse_search w /\ input_value w' = input_value w
  /\ dropdown_notice w' = dropdown_notice w
  /\ dropdown_active w' = dropdown_active w /\ canSearch w' = canSearch w
  /\ isSearching w' = isSearching w /\ currentValue w' = currentValue w
  /\ highlightPosition w' = highlightPosition w
  /\ console_error w' = console_error w /\ callbacks w' = callbacks w
  /\ dispatched w' = dispatched w ++ [a]
  /\ itemList w' = filteredByActive (items (reducer a (store w)))
  /\ passedElement_value w' =
       (if isText (passedElement_type w)
        then join (delimiter (options w))
               (itemsReducedToValues
                  (filteredByActive (items (reducer a (store w)))))
        else passedElement_value w)
  /\ (passedElement_type w = text -> choiceList w' = choiceList w).
Proof.
  cbv zeta. rewrite dispatch_exec.
  pose proof (render_fields (set_store (reducer a (store w)) (log_dispatched a w)))
    as H.
  cbv zeta in H. cbn [store options passedElement_type Fuse_search input_value
    dropdown_notice dropdown_active canSearch isSearching currentValue
    highlightPosition console_error callbacks dispatched itemList
    passedElement_value choiceList set_store log_dispatched] in H.
  exact H.
Qed.

Create HintDb pres.

Section Stable.
Variable P : Choices -> Prop.
Hypothesis HP : stable P.

Ltac pres_auto :=
  repeat (first
    [ pres_step
    | apply pres_modify; intros;
      first [ apply (st_input_value HP) | apply (st_dropdown_active HP)
            | apply (st_dropdown_notice HP) | apply (st_canSearch HP)
            | apply (st_isSearching HP) | apply (st_currentValue HP)
            | apply (st_highlightPosition HP) | apply (st_console_error HP)
            | apply (st_callback HP) ]; assumption
    | apply (st_dispatch HP); exact I
    | assumption
    | solve [ auto 2 with pres ] ]).

Lemma _highlightChoice_pres el : preserves P (_highlightChoice el).
Proof.
  unfold _highlightChoice. pres_auto;
    apply pres_modify; intros;
    match goal with
    | |- P (set_choiceList (?f (choiceList _)) _) =>
        apply (st_choiceList HP f); [ intros; subst; reflexivity | assumption ]
    end.
Qed.
Hint Resolve _highlightChoice_pres : pres.

Lemma selectItem_pres i : preserves P (selectItem i).
Proof. unfold selectItem. pres_auto. Qed.

Lemma deselectItem_pres i : preserves P (deselectItem i).
Proof. unfold deselectItem. pres_auto. Qed.
Hint Resolve selectItem_pres deselectItem_pres : pres.

Lemma highlightAll_pres : preserves P highlightAll.
Proof. unfold highlightAll. pres_auto. Qed.

Lemma deselectAll_pres : preserves P deselectAll.
Proof. unfold deselectAll. pres_auto. Qed.

Lemma _removeItem_pres i c : preserves P (_removeItem i c).
Proof. unfold _removeItem. pres_auto. Qed.
Hint Resolve highlightAll_pres deselectAll_pres _removeItem_pres : pres.

Lemma removeItemsByValue_pres v : preserves P (removeItemsByValue v).
Proof. unfold removeItemsByValue. pres_auto. Qed.

Lemma removeActiveItems_pres x : preserves P (removeActiveItems x).
Proof. unfold removeActiveItems. pres_auto. Qed.

Lemma removeSelectedItems_pres : preserves P removeSelectedItems.
Proof. unfold removeSelectedItems. pres_auto. Qed.

Hint Resolve removeItemsByValue_pres removeActiveItems_pres
  removeSelectedItems_pres : pres.

Lemma showDropdown_pres : preserves P showDropdown.
Proof. unfold showDropdown. pres_auto. Qed.

Lemma hideDropdown_pres : preserves P hideDropdown.
Proof. unfold hideDropdown. pres_auto. Qed.
Hint Resolve showDropdown_pres hideDropdown_pres : pres.

Lemma toggleDropdown_pres : preserves P toggleDropdown.
Proof. unfold toggleDropdown. pres_auto. Qed.

Lemma clearInput_pres : preserves P clearInput.
Proof. unfold clearInput. pres_auto. Qed.

Lemma _regexFilter_pres v : preserves P (_regexFilter v).
Proof. unfold _regexFilter. pres_auto. Qed.
Hint Resolve toggleDropdown_pres clearInput_pres _regexFilter_pres : pres.

Lemma _handleBackspace_pres a : preserves P (_handleBackspace a).
Proof. unfold _handleBackspace. pres_auto. Qed.

Lemma _onKeyUp_pres e : preserves P (_onKeyUp e).
Proof. unfold _onKeyUp. pres_auto. Qed.
Hint Resolve _handleBackspace_pres _onKeyUp_pres : pres.

(** After [_addItem] the property holds as soon as it does after the
    dispatch of an [addItem] that carries the next id. *)
Lemma _addItem_post v l c cb w :
  (forall v' l' c',
      P (exec (dispatch
                 (actions.addItem v' l'
                    (Z.of_nat (List.length (items (store w))) + 1) c')) w)) ->
  P (exec (_addItem v l c cb) w).
Proof.
  intros Hd. unfold exec at 1. unfold _addItem. revert w Hd.
  match goal with
  | |- forall w, _ -> P (snd (call ?b w)) =>
      intros w Hd; enough (H : P (snd (b w)));
        [ unfold call; destruct (b w) as [[a|r] w']; exact H | ]
  end.
  unfold bind at 1 2 3. unfold gets at 1 2. cbv beta iota zeta.
  rewrite dispatch_run.
  match goal with
  | |- P (snd (?k (exec (dispatch ?a) w))) =>
      assert (Hrest : preserves P k) by pres_auto;
      apply Hrest, Hd
  end.
Qed.

Lemma _addItem_pres_from :
  (forall v l id c w,
      P w -> id = Z.of_nat (List.length (items (store w))) + 1 ->
      P (exec (dispatch (actions.addItem v l id c)) w)) ->
  forall v l c cb, preserves P (_addItem v l c cb).
Proof.
  intros Hd v l c cb w Hw. apply _addItem_post.
  intros v' l' c'. apply Hd; [exact Hw | reflexivity].
Qed.

(** A key other than Enter adds no item. *)
Lemma _onKeyDown_pres_notEnter e :
  (keyCode e =? enterKey) = false -> preserves P (_onKeyDown e).
Proof.
  intros E. unfold _onKeyDown. rewrite E. pres_auto.
Qed.

(** With [_addItem] keeping the property too, every key event keeps it. *)
Hypothesis Hadd : forall v l c cb, preserves P (_addItem v l c cb).
Hint Resolve Hadd : pres.

Lemma _addChoice_pres s d v l g : preserves P (_addChoice s d v l g).
Proof. unfold _addChoice. pres_auto. Qed.

Lemma _handleEnter_pres a v : preserves P (_handleEnter a v).
Proof. unfold _handleEnter. pres_auto. Qed.
Hint Resolve _addChoice_pres _handleEnter_pres : pres.

Lemma _onKeyDown_pres e : preserves P (_onKeyDown e).
Proof. unfold _onKeyDown. pres_auto. Qed.

(** With [clearAll] keeping it as well, every operation does. *)
Hypothesis Hclear : preserves P (dispatch actions.clearAll).

Lemma clearValue_pres : preserves P clearValue.
Proof. unfold clearValue. pres_auto. Qed.
Hint Resolve clearValue_pres : pres.

Lemma step_pres o w : P w -> P (step o w).
Proof.
  intros H. destruct o; cbn [step]; unfold exec;
    try (apply (st_input_value HP); assumption);
    match goal with |- P (snd (?m w)) => revert w H; change (preserves P m) end;
    auto using _onKeyDown_pres with pres.
Qed.

Lemma run_pres ops w : P w -> P (run ops w).
Proof.
  revert w; induction ops as [|o ops IH]; intros w H; cbn; [exact H|].
  apply IH, step_pres, H.
Qed.

End Stable.

(** ** The invariants hold in every run *)

Unset Implicit Arguments.

Lemma idsFrom1_nil : idsFrom1 [].
Proof. reflexivity. Qed.

Lemma idsFrom1_map (f : Item.t -> Item.t) (s : list Item.t) :
  (forall i, Item.id (f i) = Item.id i) -> idsFrom1 s -> idsFrom1 (map f s).
Proof.
  unfold idsFrom1. intros Hf H. rewrite map_map, length_map.
  rewrite <- H. apply map_ext. exact Hf.
Qed.

Lemma idsFrom1_app (s : list Item.t) (i : Item.t) :
  idsFrom1 s -> Item.id i = Z.of_nat (List.length s) + 1 -> idsFrom1 (s ++ [i]).
Proof.
  unfold idsFrom1. intros H Hi.
  rewrite map_app, length_app, seq_app, map_app, <- H. cbn.
  rewrite Hi. reflexivity.
Qed.

Lemma idsFrom1_reduce (a : action) (s : list Item.t) :
  keepsLog a -> idsFrom1 s -> idsFrom1 (reduce_items a s).
Proof.
  intros Ha H. destruct a; cbn in *; try assumption; try contradiction.
  - apply idsFrom1_map; [|exact H]. intros i; destruct (Item.id i =? id); reflexivity.
  - apply idsFrom1_map; [|exact H].
    intros i; destruct ((Item.id i =? id) && Item.active i); reflexivity.
Qed.

Lemma isText_true (t : inputType) : t = text -> isText t = true.
Proof. intros ->; reflexivity. Qed.

(** A dispatch re-establishes the agreement of the DOM with the store. *)
Lemma Inv_dispatch (a : action) (w : Choices) :
  Inv w -> idsFrom1 (reduce_items a (items (store w))) ->
  Inv (exec (dispatch a) w).
Proof.
  intros [Hi Hl Hv Hc] Hids.
  destruct (dispatch_fields a w)
    as (Hs & Ho & Ht & _ & _ & _ & _ & _ & _ & _ & _ & _ & _ & _ & Hil & Hpv & Hcl).
  constructor.
  - rewrite Hs. exact Hids.
  - rewrite Hil, Hs. reflexivity.
  - rewrite Ht. intros Ht'. rewrite Hpv, Ho, Hs, (isText_true _ Ht'). reflexivity.
  - rewrite Ht. intros Ht'. rewrite (Hcl Ht'). exact (Hc Ht').
Qed.

Lemma Inv_stable : stable Inv.
Proof.
  constructor;
    try (intros; match goal with H : Inv _ |- _ => destruct H end;
         constructor; cbn; assumption).
  - intros f w Hf [Hi Hl Hv Hc]; constructor; cbn; try assumption.
    intros Ht. apply Hf, Hc, Ht.
  - intros a Ha w H. apply Inv_dispatch; [exact H|].
    apply idsFrom1_reduce; [exact Ha | apply (inv_ids H)].
Qed.

Lemma Inv_addItem v l c cb : preserves Inv (_addItem v l c cb).
Proof.
  apply (_addItem_pres_from Inv_stable).
  intros v' l' id c' w H Hid. apply Inv_dispatch; [exact H|].
  cbn. apply idsFrom1_app; [apply (inv_ids H) | exact Hid].
Qed.

Lemma Inv_clearAll : preserves Inv (dispatch actions.clearAll).
Proof. intros w H. apply Inv_dispatch; [exact H | apply idsFrom1_nil]. Qed.

Lemma Inv_new opts t fuse : Inv (new_Choices opts t fuse).
Proof.
  unfold new_Choices.
  destruct (render_fields (blank opts t fuse))
    as (Hs & Ho & Ht & _ & _ & _ & _ & _ & _ & _ & _ & _ & _ & _ & Hil & Hpv & Hcl).
  constructor.
  - rewrite Hs. reflexivity.
  - rewrite Hil, Hs. reflexivity.
  - rewrite Ht. intros Ht'. rewrite Hpv, Ho, Hs, (isText_true _ Ht'). reflexivity.
  - rewrite Ht. intros Ht'. rewrite (Hcl Ht'). reflexivity.
Qed.

(** Every run of a new instance keeps the invariants. *)
Lemma Inv_run opts t fuse ops : Inv (run ops (new_Choices opts t fuse)).
Proof. apply (run_pres Inv_stable Inv_addItem Inv_clearAll), Inv_new. Qed.

Lemma sameEnv_stable w0 : stable (sameEnv w0).
Proof.
  constructor; try (intros; assumption).
  - intros a _ w (Ho & Ht & Hf).
    destruct (dispatch_fields a w) as (_ & Ho' & Ht' & Hf' & _).
    unfold sameEnv, exec in *. rewrite Ho', Ht', Hf'. auto.
Qed.

Lemma sameEnv_addItem w0 v l c cb : preserves (sameEnv w0) (_addItem v l c cb).
Proof.
  apply (_addItem_pres_from (sameEnv_stable w0)).
  intros v' l' id c' w (Ho & Ht & Hf) _.
  destruct (dispatch_fields (actions.addItem v' l' id c') w) as (_ & Ho' & Ht' & Hf' & _).
  unfold sameEnv. rewrite Ho', Ht', Hf'. auto.
Qed.

Lemma sameEnv_clearAll w0 : preserves (sameEnv w0) (dispatch actions.clearAll).
Proof.
  intros w (Ho & Ht & Hf).
  destruct (dispatch_fields actions.clearAll w) as (_ & Ho' & Ht' & Hf' & _).
  unfold sameEnv, exec in *. rewrite Ho', Ht', Hf'. auto.
Qed.

Lemma sameEnv_refl w : sameEnv w w.
Proof. repeat split. Qed.

Lemma sameEnv_run ops w : sameEnv w (run ops w).
Proof.
  apply (run_pres (sameEnv_stable w) (sameEnv_addItem w) (sameEnv_clearAll w)),
    sameEnv_refl.
Qed.

Lemma sameEnv_new opts t fuse :
  options (new_Choices opts t fuse) = opts
  /\ passedElement_type (new_Choices opts t fuse) = t.
Proof.
  unfold new_Choices.
  destruct (render_fields (blank opts t fuse)) as (_ & Ho & Ht & _).
  split; assumption.
Qed.

(** ** The ids of the item log *)

Lemma reduce_items_ids (a : action) (s : list Item.t) :
  keepsLog a -> map Item.id (reduce_items a s) = map Item.id s.
Proof.
  intros Ha. destruct a; cbn in *; try reflexivity; try contradiction;
    rewrite map_map; apply map_ext; intros i.
  - destruct (Item.id i =? id); reflexivity.
  - destruct ((Item.id i =? id) && Item.active i); reflexivity.
Qed.

Lemma idsLog_stable (L : list Z) :
  stable (fun w => map Item.id (items (store w)) = L).
Proof.
  constructor; try (intros; assumption).
  intros a Ha w H.
  destruct (dispatch_fields a w) as (Hs & _). unfold exec in Hs.
  rewrite Hs. cbn. rewrite reduce_items_ids; assumption.
Qed.

(** An addition puts the next id at the end of the log. *)
Lemma _addItem_ids v l c cb w :
  map Item.id (items (store (exec (_addItem v l c cb) w))) =
  map Item.id (items (store w)) ++ [Z.of_nat (List.length (items (store w))) + 1].
Proof.
  apply (_addItem_post (idsLog_stable _)).
  intros v' l' c'.
  destruct (dispatch_fields
              (actions.addItem v' l'
                 (Z.of_nat (List.length (items (store w))) + 1) c') w) as (Hs & _).
  rewrite Hs. cbn. rewrite map_app. reflexivity.
Qed.

Lemma countUp_sorted (n a : nat) :
  StronglySorted Z.lt (map (fun k => Z.of_nat k + 1) (seq a n)).
Proof.
  revert a; induction n as [|n IH]; intros a; cbn; constructor.
  - apply IH.
  - apply Forall_forall. intros x Hx.
    apply in_map_iff in Hx. destruct Hx as (k & <- & Hk).
    apply in_seq in Hk. lia.
Qed.

Lemma sorted_NoDup (l : list Z) : StronglySorted Z.lt l -> NoDup l.
Proof.
  induction 1 as [|x l Hs IH Hx]; constructor; [|exact IH].
  intros Hin. rewrite Forall_forall in Hx. specialize (Hx x Hin). lia.
Qed.

Lemma idsFrom1_sorted (s : list Item.t) :
  idsFrom1 s -> StronglySorted Z.lt (map Item.id s).
Proof. unfold idsFrom1. intros ->. apply countUp_sorted. Qed.

(** C1. Whatever the sequence of operations on a new instance (additions,
    removals of every kind, selections, key events), the ids of the full item
    log, active or not, are pairwise distinct and strictly increasing in the
    order of the log; and the log is in order of addition: a further addition
    leaves the ids in place and puts the next id, larger than all of them, at
    the end. *)
Theorem C1_item_ids_unique_and_increasing :
  forall opts t fuse ops,
    let w := run ops (new_Choices opts t fuse) in
    let ids := map Item.id (items (store w)) in
    NoDup ids /\ StronglySorted Z.lt ids
    /\ forall v l c,
         map Item.id (items (store (step (AddItem v l c) w))) =
         ids ++ [Z.of_nat (List.length ids) + 1].
Proof.
  intros opts t fuse ops w ids.
  assert (Hs : StronglySorted Z.lt ids)
    by (apply idsFrom1_sorted, (inv_ids (Inv_run opts t fuse ops))).
  split; [apply sorted_NoDup, Hs | split; [exact Hs |]].
  intros v l c. cbn [step]. subst ids. rewrite _addItem_ids, length_map.
  reflexivity.
Qed.

(** ** Running a method body step by step *)

Lemma returns_call (body : M unit) : returns (call body).
Proof.
  intros w. unfold call. destruct (body w) as [[a|r] w']; eexists; reflexivity.
Qed.

Lemma run_eta (m : M retval) (w : Choices) :
  returns m -> m w = (Normal (valueOf m w), exec m w).
Proof.
  intros H. destruct (H w) as [a Ha]. unfold valueOf, exec.
  destruct (m w) as [c w']; cbn in *; subst; reflexivity.
Qed.

Create HintDb returns.

Lemma dispatch_returns a : returns (dispatch a).
Proof. intros w. rewrite dispatch_run. eexists; reflexivity. Qed.

Lemma _addItem_returns v l c cb : returns (_addItem v l c cb).
Proof. apply returns_call. Qed.

Lemma _removeItem_returns i cb : returns (_removeItem i cb).
Proof. apply returns_call. Qed.

Lemma removeSelectedItems_returns : returns removeSelectedItems.
Proof. apply returns_call. Qed.

Lemma removeActiveItems_returns x : returns (removeActiveItems x).
Proof. apply returns_call. Qed.

Lemma selectItem_returns i : returns (selectItem i).
Proof. apply returns_call. Qed.

Lemma _handleEnter_returns a v : returns (_handleEnter a v).
Proof. apply returns_call. Qed.

Lemma _handleBackspace_returns a : returns (_handleBackspace a).
Proof. apply returns_call. Qed.

Lemma highlightAll_returns : returns highlightAll.
Proof. apply returns_call. Qed.

Lemma _highlightChoice_returns el : returns (_highlightChoice el).
Proof. apply returns_call. Qed.

#[global] Hint Resolve _addItem_returns _removeItem_returns
  removeSelectedItems_returns removeActiveItems_returns selectItem_returns
  _handleEnter_returns _handleBackspace_returns highlightAll_returns
  _highlightChoice_returns : returns.

Arguments dispatch : simpl never.
Arguments render : simpl never.
Arguments _addItem : simpl never.
Arguments _removeItem : simpl never.
Arguments removeSelectedItems : simpl never.
Arguments removeActiveItems : simpl never.
Arguments selectItem : simpl never.
Arguments _handleEnter : simpl never.
Arguments _handleBackspace : simpl never.
Arguments highlightAll : simpl never.
Arguments _highlightChoice : simpl never.

(** Equations of the monad, for running a body one statement at a time. *)
Lemma bind_bind {A B C} (m : M A) (k1 : A -> M B) (k2 : B -> M C) w :
  bind (bind m k1) k2 w = bind m (fun a => bind (k1 a) k2) w.
Proof. unfold bind. destruct (m w) as [[a|r] w']; reflexivity. Qed.

Lemma bind_gets {A B} (f : Choices -> A) (k : A -> M B) w :
  bind (gets f) k w = k (f w) w.
Proof. reflexivity. Qed.

Lemma bind_modify {B} (f : Choices -> Choices) (k : unit -> M B) w :
  bind (modify f) k w = k tt (f w).
Proof. reflexivity. Qed.

Lemma bind_ret {A B} (a : A) (k : A -> M B) w : bind (ret a) k w = k a w.
Proof. reflexivity. Qed.

Lemma bind_skip {B} (k : unit -> M B) w : bind skip k w = k tt w.
Proof. reflexivity. Qed.

Lemma bind_return {B} (r : retval) (k : unit -> M B) w :
  bind (return_ r) k w = (Return r, w).
Proof. reflexivity. Qed.

Lemma bind_normal {A B} (m : M A) (k : A -> M B) w a w' :
  m w = (Normal a, w') -> bind m k w = k a w'.
Proof. unfold bind. intros ->. reflexivity. Qed.

Lemma bind_method {B} (m : M retval) (k : retval -> M B) w :
  returns m -> bind m k w = k (valueOf m w) (exec m w).
Proof. intros H. apply bind_normal, run_eta, H. Qed.

Lemma bind_dispatch {B} (a : action) (k : unit -> M B) w :
  bind (dispatch a) k w = k tt (exec (dispatch a) w).
Proof. apply bind_normal, dispatch_run. Qed.

Lemma exec_call (body : M unit) w : exec (call body) w = exec body w.
Proof. unfold exec, call. destruct (body w) as [[a|r] w']; reflexivity. Qed.

Lemma toggleDropdown_run w :
  toggleDropdown w =
  (Normal this, set_dropdown_active (negb (dropdown_active w)) w).
Proof. unfold toggleDropdown, call. cbn. destruct (dropdown_active w); reflexivity. Qed.

Lemma showDropdown_run w : showDropdown w = (Normal this, set_dropdown_active true w).
Proof. reflexivity. Qed.

Lemma hideDropdown_run w : hideDropdown w = (Normal this, set_dropdown_active false w).
Proof. reflexivity. Qed.

Lemma clearInput_run w :
  clearInput w =
  (Normal this, if truthy (input_value w) then set_input_value "" w else w).
Proof. unfold clearInput, call. cbn. destruct (truthy (input_value w)); reflexivity. Qed.

Lemma _regexFilter_run v w :
  _regexFilter v w =
  (Normal (if truthy v
           then boolean (RegExp_test (RegExp_of (regexFilter (options w))) v)
           else undefined), w).
Proof. unfold _regexFilter, call. cbn. destruct (truthy v); reflexivity. Qed.

(** One statement of a body applied to an instance. *)
Ltac sym_step :=
  first
    [ rewrite bind_bind
    | rewrite bind_gets
    | rewrite bind_modify
    | rewrite bind_ret
    | rewrite bind_skip
    | rewrite bind_return
    | rewrite bind_dispatch
    | erewrite bind_normal by
        (first [ apply toggleDropdown_run | apply clearInput_run
               | apply showDropdown_run | apply hideDropdown_run
               | apply _regexFilter_run ])
    | rewrite bind_method by auto with returns ];
  cbv beta zeta; cbn [when].

Ltac sym := repeat sym_step.

(** ** Pressing Enter on a text input *)

Lemma stable_and (P Q : Choices -> Prop) :
  stable P -> stable Q -> stable (fun w => P w /\ Q w).
Proof.
  intros HP HQ.
  constructor; try (intros; match goal with H : _ /\ _ |- _ => destruct H end;
                    split; [ apply HP | apply HQ ]; assumption).
  intros a Ha w [H1 H2]. split; [apply (st_dispatch HP a Ha) | apply (st_dispatch HQ a Ha)]; assumption.
Qed.

Lemma pres_and {A} (P Q : Choices -> Prop) (m : M A) :
  preserves P m -> preserves Q m -> preserves (fun w => P w /\ Q w) m.
Proof. intros HP HQ w [H1 H2]. split; [apply HP | apply HQ]; assumption. Qed.

Lemma type_stable (t : inputType) : stable (fun w => passedElement_type w = t).
Proof.
  constructor; try (intros; assumption).
  intros a _ w H. destruct (dispatch_fields a w) as (_ & _ & Ht & _).
  unfold exec in Ht. rewrite Ht. exact H.
Qed.

Lemma type_addItem t v l c cb :
  preserves (fun w => passedElement_type w = t) (_addItem v l c cb).
Proof.
  apply (_addItem_pres_from (type_stable t)).
  intros v' l' id c' w H _.
  destruct (dispatch_fields (actions.addItem v' l' id c') w) as (_ & _ & Ht & _).
  rewrite Ht. exact H.
Qed.

Lemma InvOf_stable t : stable (InvOf t).
Proof. apply stable_and; [apply Inv_stable | apply type_stable]. Qed.

Lemma InvOf_addItem t v l c cb : preserves (InvOf t) (_addItem v l c cb).
Proof. apply pres_and; [apply Inv_addItem | apply type_addItem]. Qed.

Lemma _handleEnter_exec its v w :
  exec (_handleEnter its v) w =
  if canUpdate w its v && passesFilter (options w) v
  then exec clearInput
         (exec (_addItem v None None CbUndefined) (exec toggleDropdown w))
  else w.
Proof.
  unfold _handleEnter at 1. rewrite exec_call. unfold exec at 1.
  unfold canUpdate, limitReached, passesFilter, hasValue.
  sym.
  destruct (addItems (options w)); cbn [when]; [|reflexivity].
  match goal with |- context [if ?b then false else _] => destruct b end;
    cbn [andb when]; [reflexivity|].
  match goal with |- context [when ?b _] => destruct b end;
    cbn [andb when]; [|reflexivity].
  destruct (regexFilter (options w)) as [re|] eqn:Hre; sym.
  - rewrite Hre. cbn [RegExp_of].
    destruct (truthy v); cbn [andb when retval_truthy]; [|reflexivity].
    destruct (RegExp_test re v); cbn [andb when retval_truthy]; [|reflexivity].
    sym. unfold exec. rewrite clearInput_run, toggleDropdown_run. reflexivity.
  - cbn [andb when]. sym.
    unfold exec. rewrite clearInput_run, toggleDropdown_run. reflexivity.
Qed.

(** No option is highlighted in the dropdown of a text input. *)
Lemma highlightedEl_text w :
  Inv w -> passedElement_type w = text -> highlightedEl w = None.
Proof.
  intros H Ht. unfold highlightedEl, dropdownEls.
  destruct (dropdown_notice w); [reflexivity|].
  rewrite (inv_choiceList H Ht). reflexivity.
Qed.

(** Enter on a text input comes down to [_handleEnter] on the value typed. *)
Lemma _onKeyDown_enter_text w e :
  keyCode e = enterKey -> targetIsInput e = true ->
  Inv w -> passedElement_type w = text ->
  exec (_onKeyDown e) w =
  let w1 := set_canSearch (searchOptions (options w)) w in
  if truthy (input_value w)
  then exec (_handleEnter (activeItems w) (input_value w)) w1
  else w1.
Proof.
  intros Hk He H Ht. unfold _onKeyDown at 1. rewrite exec_call. unfold exec at 1.
  rewrite Hk, He. cbn [negb when].
  sym. rewrite Ht. cbn [isText negb andb when]. sym.
  change (enterKey =? aKey) with false. change (enterKey =? enterKey) with true.
  cbv iota. sym. cbn [set_canSearch input_value dropdown_active].
  assert (Hnone : forall w', InvOf text w' ->
            snd (when (dropdown_active w)
              (highlighted <- gets highlightedEl;;
               match highlighted with
               | Some (OptionEl c _) =>
                   _addItem (option_dataValue c) (Some (option_innerHTML c))
                     (Some (RefString (option_dataId c))) CbUndefined;;
                   clearInput;;
                   when (isSelectOne text)
                     (modify (set_isSearching false);;
                      dispatch (actions.activateChoices false);;
                      toggleDropdown;; skip)
               | _ => skip
               end) w') = w').
  { intros w' [H' Ht']. destruct (dropdown_active w); cbn [when]; [|reflexivity].
    sym. rewrite (highlightedEl_text w' H' Ht'). reflexivity. }
  assert (H1 : InvOf text (set_canSearch (searchOptions (options w)) w))
    by (apply (st_canSearch (InvOf_stable text)); split; assumption).
  destruct (truthy (input_value w)); cbn [andb when]; sym.
  - apply Hnone.
    apply (_handleEnter_pres (InvOf_stable text) (InvOf_addItem text)), H1.
  - apply Hnone, H1.
Qed.

(** A key event elsewhere than on the input is ignored. *)
Lemma _onKeyDown_elsewhere w e :
  targetIsInput e = false -> exec (_onKeyDown e) w = w.
Proof.
  intros He. unfold _onKeyDown. rewrite exec_call. unfold exec.
  rewrite He. cbn [negb when]. sym. reflexivity.
Qed.

Lemma _addItem_exec v l c cb w :
  exec (_addItem v l c cb) w =
  let a := actions.addItem (passedValue (options w) v) (passedLabel v l)
             (nextId w) (passedOptionId c) in
  let w1 := exec (dispatch a) w in
  let w2 := if isSelectOne (passedElement_type w)
            then exec (removeActiveItems (Some (nextId w))) w1 else w1 in
  runAddCallback (default_param cb (callbackOnAddItem (options w)))
    (nextId w) (passedValue (options w) v) w2.
Proof.
  unfold _addItem at 1. rewrite exec_call. unfold exec at 1. sym.
  destruct (dispatch_fields
    (actions.addItem (passedValue (options w) v) (passedLabel v l)
             (nextId w) (passedOptionId c)) w) as (_ & _ & Ht & _).
  unfold passedValue, passedLabel, passedOptionId, nextId in *.
  rewrite Ht. unfold runAddCallback.
  unfold console_error_.
  destruct (isSelectOne (passedElement_type w)); cbn [when]; sym;
    destruct (default_param cb (callbackOnAddItem (options w)));
    cbn [callback_truthy isFunction when]; sym; reflexivity.
Qed.

Lemma filter_active_app (s : list Item.t) (i : Item.t) :
  Item.active i = true ->
  filteredByActive (s ++ [i]) = filteredByActive s ++ [i].
Proof.
  intros Hi. unfold filteredByActive. rewrite filter_app. cbn. rewrite Hi. reflexivity.
Qed.

Lemma runAddCallback_store cb id v w : store (runAddCallback cb id v w) = store w.
Proof. unfold runAddCallback. destruct (callback_truthy cb), (isFunction cb); reflexivity. Qed.

Lemma isSelectOne_text t : t = text -> isSelectOne t = false.
Proof. intros ->; reflexivity. Qed.

(** On an input that is not a select-one, [_addItem] appends the new item
    and leaves the rest of the log as it is. *)
Lemma _addItem_items v l c cb w :
  isSelectOne (passedElement_type w) = false ->
  items (store (exec (_addItem v l c cb) w)) = items (store w) ++ [newItem w v l c].
Proof.
  intros Ht. rewrite _addItem_exec. cbv zeta. rewrite Ht, runAddCallback_store.
  destruct (dispatch_fields
    (actions.addItem (passedValue (options w) v) (passedLabel v l)
             (nextId w) (passedOptionId c)) w) as (Hs & _).
  rewrite Hs. reflexivity.
Qed.

(** ** The limit on the number of items *)

Lemma options_stable (o : Options) : stable (fun w => options w = o).
Proof.
  constructor; try (intros; assumption).
  intros a _ w H. destruct (dispatch_fields a w) as (_ & Ho & _).
  unfold exec in Ho. rewrite Ho. exact H.
Qed.

Lemma options_addItem o v l c cb :
  preserves (fun w => options w = o) (_addItem v l c cb).
Proof.
  apply (_addItem_pres_from (options_stable o)).
  intros v' l' id c' w H _.
  destruct (dispatch_fields (actions.addItem v' l' id c') w) as (_ & Ho & _).
  rewrite Ho. exact H.
Qed.

Lemma filter_map_le (f : Item.t -> Item.t) (s : list Item.t) :
  (forall i, Item.active (f i) = true -> Item.active i = true) ->
  (List.length (filteredByActive (map f s)) <= List.length (filteredByActive s))%nat.
Proof.
  intros Hf. unfold filteredByActive. induction s as [|i s IH]; cbn; [lia|].
  destruct (Item.active (f i)) eqn:E.
  - rewrite (Hf i E). cbn. lia.
  - destruct (Item.active i); cbn; lia.
Qed.

Lemma reduce_items_count (a : action) (s : list Item.t) :
  keepsLog a ->
  (List.length (filteredByActive (reduce_items a s))
   <= List.length (filteredByActive s))%nat.
Proof.
  intros Ha. destruct a; cbn [reduce_items keepsLog] in *;
    try contradiction; try lia; apply filter_map_le; intros i.
  - destruct (Item.id i =? id); cbn; [discriminate | tauto].
  - destruct ((Item.id i =? id) && Item.active i); cbn; tauto.
Qed.

Lemma count_stable (m : Z) : stable (fun w => activeCount w <= m).
Proof.
  constructor; try (intros; assumption).
  intros a Ha w H. unfold activeCount, activeItems in *.
  destruct (dispatch_fields a w) as (Hs & _). unfold exec in Hs. rewrite Hs.
  cbn [items reducer].
  pose proof (reduce_items_count a (items (store w)) Ha). lia.
Qed.

Lemma WithinLimit_stable m : stable (WithinLimit m).
Proof.
  unfold WithinLimit. apply stable_and; [apply InvOf_stable|].
  apply stable_and; [|apply count_stable].
  constructor; try (intros; assumption).
  intros a _ w H. destruct (dispatch_fields a w) as (_ & Ho & _).
  unfold exec in Ho. rewrite Ho. exact H.
Qed.

Lemma limitReached_false w :
  Inv w -> 0 < maxItemCount (options w) -> limitReached w = false ->
  activeCount w < maxItemCount (options w).
Proof.
  intros H Hm. unfold limitReached, activeCount, activeItems.
  rewrite (inv_itemList H).
  destruct (maxItemCount (options w) =? 0) eqn:E0; [lia|].
  destruct (0 <? maxItemCount (options w)) eqn:E1; [|lia].
  cbn. intros E. apply Z.leb_gt in E. exact E.
Qed.

Lemma limitReached_true w :
  0 < maxItemCount (options w) ->
  maxItemCount (options w) <= Z.of_nat (List.length (itemList w)) ->
  limitReached w = true.
Proof.
  intros Hm Hs. unfold limitReached.
  replace (maxItemCount (options w) =? 0) with false by (symmetry; apply Z.eqb_neq; lia).
  replace (0 <? maxItemCount (options w)) with true by (symmetry; apply Z.ltb_lt; lia).
  cbn. apply Z.leb_le, Hs.
Qed.

Lemma canUpdate_limit w its v :
  canUpdate w its v = true -> limitReached w = false.
Proof.
  unfold canUpdate. destruct (addItems (options w)); [|discriminate].
  destruct (limitReached w); [discriminate | reflexivity].
Qed.

Lemma _addItem_count v l c cb w :
  isSelectOne (passedElement_type w) = false ->
  activeCount (exec (_addItem v l c cb) w) = activeCount w + 1.
Proof.
  intros Ht. unfold activeCount, activeItems.
  rewrite (_addItem_items v l c cb w Ht), filter_active_app by reflexivity.
  rewrite length_app. cbn [List.length]. lia.
Qed.

(** Enter keeps a text input within its limit. *)
Lemma WithinLimit_handleEnter m its v w :
  0 < m -> WithinLimit m w -> WithinLimit m (exec (_handleEnter its v) w).
Proof.
  intros Hm (HI & Ho & Hc). rewrite _handleEnter_exec.
  destruct (canUpdate w its v && passesFilter (options w) v) eqn:E;
    [|exact (conj HI (conj Ho Hc))].
  apply andb_prop in E. destruct E as [Eu _].
  apply canUpdate_limit in Eu.
  pose proof (limitReached_false w (proj1 HI) ltac:(lia) Eu) as Hlt.
  pose proof (toggleDropdown_pres (WithinLimit_stable m) w
                (conj HI (conj Ho Hc))) as H1.
  change (snd (toggleDropdown w)) with (exec toggleDropdown w) in H1.
  assert (Hcnt : activeCount (exec toggleDropdown w) = activeCount w)
    by (unfold exec; rewrite toggleDropdown_run; reflexivity).
  set (w1 := exec toggleDropdown w) in *.
  destruct H1 as (HI1 & Ho1 & Hc1).
  apply (clearInput_pres (WithinLimit_stable m)).
  change (WithinLimit m (exec (_addItem v None None CbUndefined) w1)).
  split; [|split].
  - apply (InvOf_addItem text), HI1.
  - pose proof (options_addItem (options w1) v None None CbUndefined w1 eq_refl) as Ho2.
    unfold exec. rewrite Ho2. exact Ho1.
  - rewrite _addItem_count by (apply isSelectOne_text, (proj2 HI1)). lia.
Qed.

Lemma WithinLimit_step m o w :
  0 < m -> isKeyboardOp o = true -> WithinLimit m w -> WithinLimit m (step o w).
Proof.
  intros Hm Ho H. destruct o; try discriminate Ho; cbn [step].
  - apply (st_input_value (WithinLimit_stable m)), H.
  - destruct (keyCode e =? enterKey) eqn:E.
    + destruct (targetIsInput e) eqn:Et.
      * apply Z.eqb_eq in E. destruct H as (HI & Hrest).
        rewrite (_onKeyDown_enter_text w e E Et (proj1 HI) (proj2 HI)). cbv zeta.
        pose proof (st_canSearch (WithinLimit_stable m)
                      (searchOptions (options w)) w (conj HI Hrest)) as H1.
        destruct (truthy (input_value w)); [|exact H1].
        apply WithinLimit_handleEnter; assumption.
      * rewrite _onKeyDown_elsewhere by exact Et. exact H.
    + apply (_onKeyDown_pres_notEnter (WithinLimit_stable m) e E), H.
  - apply (_onKeyUp_pres (WithinLimit_stable m)), H.
Qed.

Lemma WithinLimit_run m kops w :
  0 < m -> forallb isKeyboardOp kops = true ->
  WithinLimit m w -> WithinLimit m (run kops w).
Proof.
  intros Hm. revert w. induction kops as [|o kops IH]; intros w Hk H; [exact H|].
  cbn in Hk. apply andb_prop in Hk. destruct Hk as [Ho Hk].
  cbn [run fold_left]. apply IH; [exact Hk|].
  apply WithinLimit_step; assumption.
Qed.

Lemma dispatch_dropdown a w :
  dropdown_notice (exec (dispatch a) w) = dropdown_notice w
  /\ dropdown_active (exec (dispatch a) w) = dropdown_active w.
Proof.
  destruct (dispatch_fields a w) as (_ & _ & _ & _ & _ & Hn & Ha & _).
  split; assumption.
Qed.

(** The search part of a key-up on Enter leaves the dropdown as it is. *)
Ltac enter_search_part :=
  change (isSearchKey enterKey) with false;
  repeat first
    [ rewrite andb_false_r; cbv iota
    | match goal with
      | |- context [when ?b _] => destruct b; cbn [when]
      end
    | sym_step ];
  change (snd (dispatch ?a ?w)) with (exec (dispatch a) w);
  rewrite ?(proj1 (dispatch_dropdown _ _)), ?(proj2 (dispatch_dropdown _ _));
  cbn [snd skip ret dropdown_notice dropdown_active set_dropdown_notice
       set_dropdown_active set_isSearching];
  auto.

(** The key-up that follows: a text input at its limit shows the notice of
    the limit, provided the filter lets the typed value through. *)
Lemma _onKeyUp_limitNotice w ctrl meta :
  passedElement_type w = text -> truthy (input_value w) = true ->
  limitReached w = true -> passesFilter (options w) (input_value w) = true ->
  let w' := exec (_onKeyUp (keyOnInput enterKey ctrl meta)) w in
  dropdown_notice w' = Some (limitNotice (maxItemCount (options w)))
  /\ dropdown_active w' = true.
Proof.
  intros Ht Hv Hl Hp. cbv zeta.
  unfold _onKeyUp. rewrite exec_call. unfold exec.
  cbn [keyCode ctrlKey metaKey targetIsInput inputIsActiveElement keyOnInput negb when].
  sym. rewrite Ht. cbn [isText when]. sym. rewrite Hv. sym.
  unfold limitReached in Hl. rewrite Hl.
  unfold passesFilter in Hp.
  destruct (regexFilter (options w)) as [re|] eqn:Hre; sym.
  - rewrite Hre, Hv in *. cbn [RegExp_of andb] in *. rewrite Hp.
    cbn [retval_truthy when]. sym.
    cbn [dropdown_active set_dropdown_notice].
    destruct (dropdown_active w) eqn:Ea; cbn [negb when]; sym; rewrite ?Hv.
    + enter_search_part.
    + enter_search_part.
  - cbn [dropdown_active set_dropdown_notice].
    destruct (dropdown_active w) eqn:Ea; cbn [negb when]; sym; rewrite ?Hv.
    + enter_search_part.
    + enter_search_part.
Qed.

Lemma run_new_facts opts t fuse ops :
  let w := run ops (new_Choices opts t fuse) in
  Inv w /\ options w = opts /\ passedElement_type w = t.
Proof.
  cbv zeta. split; [apply Inv_run|].
  destruct (sameEnv_run ops (new_Choices opts t fuse)) as (Ho & Ht & _).
  destruct (sameEnv_new opts t fuse) as (Ho' & Ht').
  rewrite Ho, Ht. split; assumption.
Qed.

Lemma truthy_nonempty v : v <> "" -> truthy v = true.
Proof. destruct v; [congruence | reflexivity]. Qed.

(** Enter on a text input at its limit changes nothing but [canSearch]. *)
Lemma enter_at_limit w e v :
  keyCode e = enterKey -> targetIsInput e = true ->
  Inv w -> passedElement_type w = text ->
  0 < maxItemCount (options w) ->
  maxItemCount (options w) <= Z.of_nat (List.length (itemList w)) ->
  step (KeyDown e) (step (Input v) w) =
  set_canSearch (searchOptions (options w)) (set_input_value v w).
Proof.
  intros Hk He H Ht Hm Hs. cbn [step].
  assert (H0 : InvOf text (set_input_value v w))
    by (apply (st_input_value (InvOf_stable text)); split; assumption).
  rewrite (_onKeyDown_enter_text _ e Hk He (proj1 H0) (proj2 H0)). cbv zeta.
  destruct (truthy (input_value (set_input_value v w))); [|reflexivity].
  rewrite _handleEnter_exec.
  replace (canUpdate _ _ _) with false; [reflexivity|].
  unfold canUpdate. rewrite limitReached_true by (cbn; assumption).
  destruct (addItems _); reflexivity.
Qed.

(** C2 (as stated, refuted). With a limit of one item and the filter
    [^[0-9]+$], one item shown, the user types abc and presses Enter: no item
    is added, but no notice is surfaced either, the dropdown stays closed and
    empty, because the key-up writes the notice only for a value the filter
    accepts. *)
Lemma C2_no_notice_for_filtered_value :
  let opts := limitedTo 1 (Some digitsOnly) in
  let w := run (typeAndEnter "1") (new_Choices opts text noFuse) in
  let w1 := step (KeyDown pressEnter) (step (Input "abc") w) in
  let w2 := step (KeyUp pressEnter) w1 in
  0 < maxItemCount opts
  /\ maxItemCount opts <= Z.of_nat (List.length (itemList w))
  /\ items (store w1) = items (store w)
  /\ dropdown_notice w2 <> Some (limitNotice (maxItemCount opts))
  /\ dropdown_active w2 = false.
Proof.
  cbv zeta. split; [reflexivity|]. split; [vm_compute; discriminate|].
  split; [vm_compute; reflexivity|].
  split; [vm_compute; discriminate | vm_compute; reflexivity].
Qed.

(** C2 (amended). On a text input whose limit is positive, Enter pressed
    while the items shown have reached the limit adds no item; key events and
    edits of the input never take the number of active items over the limit;
    and the key-up that follows the Enter shows the notice of the limit in
    the open dropdown, provided the input is not empty and no filter is set
    or the filter accepts the typed value. *)
Theorem C2_limit_blocks_enter :
  forall opts fuse ops v ctrl meta,
    0 < maxItemCount opts ->
    let w := run ops (new_Choices opts text fuse) in
    maxItemCount opts <= Z.of_nat (List.length (itemList w)) ->
    let e := keyOnInput enterKey ctrl meta in
    let w1 := step (KeyDown e) (step (Input v) w) in
    let w2 := step (KeyUp e) w1 in
    items (store w1) = items (store w)
    /\ (forall ops' kops,
          let w' := run ops' (new_Choices opts text fuse) in
          activeCount w' <= maxItemCount opts ->
          forallb isKeyboardOp kops = true ->
          activeCount (run kops w') <= maxItemCount opts)
    /\ (v <> "" -> passesFilter opts v = true ->
        dropdown_notice w2 = Some (limitNotice (maxItemCount opts))
        /\ dropdown_active w2 = true).
Proof.
  intros opts fuse ops v ctrl meta Hm w Hs e w1 w2.
  destruct (run_new_facts opts text fuse ops) as (HI & Ho & Ht). fold w in HI, Ho, Ht.
  assert (E1 : w1 = set_canSearch (searchOptions opts) (set_input_value v w)).
  { subst w1. rewrite <- Ho.
    apply enter_at_limit; try reflexivity; try assumption; rewrite Ho; assumption. }
  split; [rewrite E1; reflexivity|]. split.
  - intros ops' kops w' Hc Hk.
    destruct (run_new_facts opts text fuse ops') as (HI' & Ho' & Ht').
    fold w' in HI', Ho', Ht'.
    apply (WithinLimit_run (maxItemCount opts) kops w' Hm Hk).
    exact (conj (conj HI' Ht') (conj (f_equal maxItemCount Ho') Hc)).
  - intros Hv Hp. subst w2. cbn [step]. rewrite E1.
    assert (HN := _onKeyUp_limitNotice
             (set_canSearch (searchOptions opts) (set_input_value v w)) ctrl meta).
    cbn [options passedElement_type input_value set_canSearch set_input_value] in HN.
    rewrite Ho in HN. apply HN.
    + exact Ht.
    + apply truthy_nonempty, Hv.
    + apply limitReached_true; cbn; rewrite Ho; assumption.
    + exact Hp.
Qed.

Lemma C2_limit_blocks_enter_witness :
  let opts := limitedTo 2 None in
  let w := run (typeAndEnter "a" ++ typeAndEnter "b") (new_Choices opts text noFuse) in
  let w1 := step (KeyDown pressEnter) (step (Input "c") w) in
  let w2 := step (KeyUp pressEnter) w1 in
  0 < maxItemCount opts
  /\ maxItemCount opts <= Z.of_nat (List.length (itemList w))
  /\ items (store w1) = items (store w)
  /\ dropdown_notice w2 = Some (limitNotice 2).
Proof.
  cbv zeta.
  assert (Hm : 0 < maxItemCount (limitedTo 2 None)) by reflexivity.
  assert (Hs : maxItemCount (limitedTo 2 None) <=
               Z.of_nat (List.length (itemList
                 (run (typeAndEnter "a" ++ typeAndEnter "b")
                    (new_Choices (limitedTo 2 None) text noFuse)))))
    by (vm_compute; discriminate).
  destruct (C2_limit_blocks_enter (limitedTo 2 None) noFuse
              (typeAndEnter "a" ++ typeAndEnter "b") "c" false false Hm Hs)
    as (H1 & _ & H3).
  split; [exact Hm|]. split; [exact Hs|]. split; [exact H1|].
  apply H3; [discriminate | reflexivity].
Defined.

(** ** Duplicate values *)

Lemma truthy_append a b : truthy (String.append a b) = truthy a || truthy b.
Proof. destruct a; [reflexivity | reflexivity]. Qed.

Lemma join_truthy sep xs v :
  In v xs -> truthy v = true -> truthy (join sep xs) = true.
Proof.
  intros Hin Hv. induction xs as [|x xs IH]; [contradiction|].
  cbn [join]. destruct xs as [|y ys].
  - destruct Hin as [->|[]]. exact Hv.
  - rewrite truthy_append, truthy_append. destruct Hin as [->|Hin].
    + rewrite Hv. reflexivity.
    + rewrite (IH Hin). rewrite !orb_true_r. reflexivity.
Qed.

Lemma hasValue_true v its :
  (exists i, In i its /\ Item.value i = v) -> hasValue v its = true.
Proof.
  intros (i & Hin & Hv). unfold hasValue. apply existsb_exists.
  exists i. split; [exact Hin|]. apply String.eqb_eq, Hv.
Qed.

(** The passed element of a text input holds a value as soon as an active
    item has a non-empty one. *)
Lemma passedElement_value_truthy w v :
  Inv w -> passedElement_type w = text ->
  (exists i, In i (activeItems w) /\ Item.value i = v) -> truthy v = true ->
  truthy (passedElement_value w) = true.
Proof.
  intros H Ht (i & Hin & Hv) Hne. rewrite (inv_value H Ht).
  apply (join_truthy _ _ v); [|exact Hne].
  unfold itemsReducedToValues. apply in_map_iff. exists i. split; assumption.
Qed.

(** C3. On a free-text input with duplicateItems set to false, in any state
    a run can reach, Enter pressed on a typed value that equals the value of
    some active item leaves the item log as it is. *)
Theorem C3_duplicate_value_not_added :
  forall opts fuse ops v ctrl meta,
    duplicateItems opts = false ->
    let w := run ops (new_Choices opts text fuse) in
    (exists i, In i (activeItems w) /\ Item.value i = v) ->
    let w1 := step (KeyDown (keyOnInput enterKey ctrl meta)) (step (Input v) w) in
    items (store w1) = items (store w).
Proof.
  intros opts fuse ops v ctrl meta Hd w Hex w1.
  destruct (run_new_facts opts text fuse ops) as (HI & Ho & Ht). fold w in HI, Ho, Ht.
  assert (H0 : InvOf text (set_input_value v w))
    by (apply (st_input_value (InvOf_stable text)); split; assumption).
  subst w1. cbn [step].
  rewrite (_onKeyDown_enter_text _ (keyOnInput enterKey ctrl meta)
             eq_refl eq_refl (proj1 H0) (proj2 H0)).
  cbv zeta. cbn [input_value set_input_value].
  destruct (truthy v) eqn:Hv; [|reflexivity].
  rewrite _handleEnter_exec.
  replace (canUpdate _ _ _) with false; [reflexivity|].
  unfold canUpdate. cbn [options passedElement_value set_canSearch set_input_value].
  rewrite Ho, Hd.
  destruct (addItems opts); [|reflexivity].
  destruct (limitReached _); [reflexivity|].
  rewrite (passedElement_value_truthy w v HI Ht Hex Hv). cbn [negb andb].
  rewrite hasValue_true; [reflexivity | exact Hex].
Qed.

Lemma C3_duplicate_value_not_added_witness :
  let w := run (typeAndEnter "a") (new_Choices noDuplicates text noFuse) in
  let w1 := step (KeyDown pressEnter) (step (Input "a") w) in
  duplicateItems noDuplicates = false
  /\ (exists i, In i (activeItems w) /\ Item.value i = "a")
  /\ items (store w1) = items (store w).
Proof.
  cbv zeta.
  assert (Hex : exists i,
             In i (activeItems (run (typeAndEnter "a")
                                  (new_Choices noDuplicates text noFuse)))
             /\ Item.value i = "a")
    by (exists (Item.mk 1 "a" "a" true false (-1)); split;
        [left; reflexivity | reflexivity]).
  split; [reflexivity|]. split; [exact Hex|].
  exact (C3_duplicate_value_not_added noDuplicates noFuse (typeAndEnter "a")
           "a" false false eq_refl Hex).
Defined.

(** ** Removal, and the single active item of a select-one *)

Lemma _removeItem_run i cb w :
  _removeItem (Some i) cb w =
  (Normal (if callback_truthy (default_param cb (callbackOnRemoveItem (options w)))
           then undefined else this),
   afterRemoveCallback (default_param cb (callbackOnRemoveItem (options w)))
     (exec (dispatch (actions.removeItem (Item.id i) (Item.choiceId i))) w)).
Proof.
  unfold _removeItem, call, afterRemoveCallback, console_error_. sym.
  destruct (default_param cb (callbackOnRemoveItem (options w)));
    cbn [callback_truthy isFunction negb andb when]; sym; reflexivity.
Qed.

Lemma afterRemoveCallback_store cb w : store (afterRemoveCallback cb w) = store w.
Proof.
  unfold afterRemoveCallback.
  destruct (callback_truthy cb && negb (isFunction cb)); reflexivity.
Qed.

Lemma _removeItem_items i cb w :
  items (store (exec (_removeItem (Some i) cb) w)) =
  reduce_items (actions.removeItem (Item.id i) (Item.choiceId i)) (items (store w)).
Proof.
  unfold exec. rewrite _removeItem_run. cbn [snd].
  rewrite afterRemoveCallback_store.
  destruct (dispatch_fields (actions.removeItem (Item.id i) (Item.choiceId i)) w)
    as (Hs & _).
  rewrite Hs. reflexivity.
Qed.

Lemma deactivate_nil s : deactivate [] s = s.
Proof. unfold deactivate. cbn. apply map_id. Qed.

Lemma deactivate_cons a ids s :
  deactivate (a :: ids) s =
  deactivate ids (reduce_items (actions.removeItem a 0) s).
Proof.
  unfold deactivate. cbn [reduce_items]. rewrite map_map. apply map_ext.
  intros i. cbn [existsb].
  destruct (Item.id i =? a); cbn [orb Item.id Item.set_active].
  - destruct (existsb (Z.eqb (Item.id i)) ids); reflexivity.
  - reflexivity.
Qed.

Lemma remove_if_exec (b : bool) i w :
  exec (call (when b (_removeItem (Some i) CbUndefined ;; skip))) w =
  if b then exec (_removeItem (Some i) CbUndefined) w else w.
Proof.
  rewrite exec_call. destruct b; cbn [when]; [|reflexivity].
  unfold exec. rewrite bind_method by auto with returns. reflexivity.
Qed.

(** A loop that removes the items of a snapshot that pass a test. *)
Lemma forEach_remove_items (p : Item.t -> bool) (its : list Item.t) w :
  items (store (exec (forEach its (fun i =>
            call (when (p i) (_removeItem (Some i) CbUndefined ;; skip)))) w)) =
  deactivate (map Item.id (filter p its)) (items (store w)).
Proof.
  revert w. induction its as [|i its IH]; intros w.
  - cbn. rewrite deactivate_nil. reflexivity.
  - cbn [forEach filter]. unfold exec in *. rewrite bind_call.
    rewrite IH. rewrite remove_if_exec.
    destruct (p i); cbn [map].
    + rewrite deactivate_cons, _removeItem_items. reflexivity.
    + reflexivity.
Qed.

Lemma removeActiveItems_items x w :
  items (store (exec (removeActiveItems x) w)) =
  deactivate
    (map Item.id
       (filter (fun i => Item.active i && strictDiffers x (Item.id i))
          (activeItems w)))
    (items (store w)).
Proof.
  unfold removeActiveItems. rewrite exec_call. unfold exec. sym.
  match goal with
  | |- context [bind (forEach ?its ?f) ?k ?w] =>
      change (bind (forEach its f) k w)
        with (match forEach its f w with
              | (Normal a, w') => k a w'
              | (Return r, w') => (Return r, w')
              end)
  end.
  pose proof (forEach_remove_items
                (fun i => Item.active i && strictDiffers x (Item.id i))
                (activeItems w) w) as H.
  unfold exec, activeItems in *.
  destruct (forEach _ _ w) as [[a|r] w']; cbn [snd] in *; exact H.
Qed.

Lemma set_active_false_id j :
  Item.active j = false -> Item.set_active false j = j.
Proof. destruct j; cbn; intros ->; reflexivity. Qed.

Lemma idsFrom1_bound s j :
  idsFrom1 s -> In j s -> 1 <= Item.id j <= Z.of_nat (List.length s).
Proof.
  unfold idsFrom1. intros H Hin.
  assert (Hj : In (Item.id j) (map Item.id s)) by (apply in_map, Hin).
  rewrite H in Hj. apply in_map_iff in Hj. destruct Hj as (k & <- & Hk).
  apply in_seq in Hk. lia.
Qed.

Lemma existsb_eqb_in (x : Z) (l : list Z) :
  existsb (Z.eqb x) l = true <-> In x l.
Proof.
  rewrite existsb_exists. split.
  - intros (y & Hy & E). apply Z.eqb_eq in E. subst; exact Hy.
  - intros H. exists x. split; [exact H | apply Z.eqb_refl].
Qed.

(** Removing the active items other than the one just added, whose id is
    past all the others, deactivates the whole of the old log. *)
Lemma deactivate_all_but_new old new :
  idsFrom1 old -> Item.id new = Z.of_nat (List.length old) + 1 ->
  Item.active new = true ->
  deactivate
    (map Item.id
       (filter (fun i => Item.active i && strictDiffers (Some (Item.id new)) (Item.id i))
          (filteredByActive (old ++ [new]))))
    (old ++ [new]) =
  map (Item.set_active false) old ++ [new].
Proof.
  intros Hids Hid Hact.
  set (R := map Item.id _).
  assert (HR : forall x, In x R <->
                 exists j, In j old /\ Item.active j = true /\ Item.id j = x).
  { intros x. subst R. rewrite in_map_iff. split.
    - intros (j & <- & Hj). apply filter_In in Hj. destruct Hj as (Hj & Hp).
      apply andb_prop in Hp. destruct Hp as (Ha & Hd). cbn in Hd.
      apply negb_true_iff, Z.eqb_neq in Hd.
      unfold filteredByActive in Hj. apply filter_In in Hj. destruct Hj as (Hj & _).
      apply in_app_iff in Hj. destruct Hj as [Hj|[->|[]]]; [|congruence].
      exists j. auto.
    - intros (j & Hj & Ha & <-). exists j. split; [reflexivity|].
      apply filter_In. split.
      + unfold filteredByActive. apply filter_In. split; [|exact Ha].
        apply in_app_iff. left; exact Hj.
      + rewrite Ha. cbn. apply negb_true_iff, Z.eqb_neq.
        pose proof (idsFrom1_bound old j Hids Hj). lia. }
  unfold deactivate. rewrite map_app. f_equal.
  - apply map_ext_in. intros j Hj.
    destruct (existsb (Z.eqb (Item.id j)) R) eqn:E; [reflexivity|].
    symmetry. apply set_active_false_id.
    destruct (Item.active j) eqn:Ha; [|reflexivity].
    assert (Hin : In (Item.id j) R) by (apply HR; exists j; auto).
    apply existsb_eqb_in in Hin. congruence.
  - cbn [map]. destruct (existsb (Z.eqb (Item.id new)) R) eqn:E; [|reflexivity].
    apply existsb_eqb_in, HR in E. destruct E as (j & Hj & _ & Hjid).
    pose proof (idsFrom1_bound old j Hids Hj). lia.
Qed.

Lemma filter_deactivated (s : list Item.t) :
  filteredByActive (map (Item.set_active false) s) = [].
Proof. unfold filteredByActive. induction s as [|i s IH]; cbn; [reflexivity | exact IH]. Qed.

(** C4. On a select-one, in any state a run can reach, adding an item (what
    committing a choice with Enter or a click comes down to) leaves the old
    log with every item deactivated, followed by the new item, which is then
    the one active item of the log. *)
Theorem C4_select_one_single_active :
  forall opts fuse ops v l c,
    let w := run ops (new_Choices opts select_one fuse) in
    let w' := step (AddItem v l c) w in
    items (store w') =
      map (Item.set_active false) (items (store w)) ++ [newItem w v l c]
    /\ activeItems w' = [newItem w v l c]
    /\ List.length (activeItems w') = 1%nat.
Proof.
  intros opts fuse ops v l c w w'.
  destruct (run_new_facts opts select_one fuse ops) as (HI & Ho & Ht).
  fold w in HI, Ho, Ht.
  assert (E : items (store w') =
              map (Item.set_active false) (items (store w)) ++ [newItem w v l c]).
  { subst w'. cbn [step]. rewrite _addItem_exec. cbv zeta.
    rewrite Ht. cbn [isSelectOne]. rewrite runAddCallback_store.
    rewrite removeActiveItems_items. unfold activeItems.
    destruct (dispatch_fields
      (actions.addItem (passedValue (options w) v) (passedLabel v l)
         (nextId w) (passedOptionId c)) w) as (Hs & _).
    rewrite Hs. cbn [items reducer reduce_items].
    apply (deactivate_all_but_new (items (store w)) (newItem w v l c));
      [apply (inv_ids HI) | reflexivity | reflexivity]. }
  assert (Ea : activeItems w' = [newItem w v l c]).
  { unfold activeItems. rewrite E. unfold filteredByActive at 1.
    rewrite filter_app. fold (filteredByActive (map (Item.set_active false) (items (store w)))).
    rewrite filter_deactivated. reflexivity. }
  split; [exact E|]. split; [exact Ea|]. rewrite Ea. reflexivity.
Qed.

(** ** The regular expression filter *)

Lemma clearInput_store w : store (exec clearInput w) = store w.
Proof.
  unfold exec. rewrite clearInput_run. cbn [snd].
  destruct (truthy (input_value w)); reflexivity.
Qed.

(** Enter on a text input whose filter rejects the typed value changes
    nothing but [canSearch]. *)
Lemma enter_rejected w e v re :
  keyCode e = enterKey -> targetIsInput e = true ->
  Inv w -> passedElement_type w = text ->
  regexFilter (options w) = Some re -> RegExp_test re v = false ->
  step (KeyDown e) (step (Input v) w) =
  set_canSearch (searchOptions (options w)) (set_input_value v w).
Proof.
  intros Hk He H Ht Hre Hno. cbn [step].
  assert (H0 : InvOf text (set_input_value v w))
    by (apply (st_input_value (InvOf_stable text)); split; assumption).
  rewrite (_onKeyDown_enter_text _ e Hk He (proj1 H0) (proj2 H0)). cbv zeta.
  cbn [input_value set_input_value].
  destruct (truthy v); [|reflexivity].
  rewrite _handleEnter_exec.
  replace (passesFilter _ _) with false;
    [rewrite andb_false_r; reflexivity|].
  unfold passesFilter. cbn [options set_canSearch set_input_value].
  rewrite Hre, Hno, andb_false_r. reflexivity.
Qed.

(** Enter on a text input that accepts the typed value appends one item. *)
Lemma enter_accepted w e v :
  keyCode e = enterKey -> targetIsInput e = true ->
  Inv w -> passedElement_type w = text ->
  truthy v = true ->
  canUpdate (set_input_value v w) (activeItems w) v = true ->
  passesFilter (options w) v = true ->
  items (store (step (KeyDown e) (step (Input v) w))) =
  items (store w) ++ [newItem w v None None].
Proof.
  intros Hk He H Ht Hv Hu Hp. cbn [step].
  assert (H0 : InvOf text (set_input_value v w))
    by (apply (st_input_value (InvOf_stable text)); split; assumption).
  rewrite (_onKeyDown_enter_text _ e Hk He (proj1 H0) (proj2 H0)). cbv zeta.
  cbn [input_value set_input_value]. rewrite Hv.
  rewrite _handleEnter_exec.
  replace (canUpdate _ _ _) with true by (symmetry; exact Hu).
  cbn [options set_canSearch set_input_value]. rewrite Hp. cbn [andb].
  rewrite clearInput_store, _addItem_items.
  - unfold exec. rewrite toggleDropdown_run. reflexivity.
  - unfold exec. rewrite toggleDropdown_run. cbn. rewrite Ht. reflexivity.
Qed.

(** The key-up that follows leaves the dropdown as it was: no notice is
    written for a value that the filter rejects. *)
Lemma _onKeyUp_rejected w ctrl meta re :
  passedElement_type w = text -> truthy (input_value w) = true ->
  regexFilter (options w) = Some re ->
  RegExp_test re (input_value w) = false ->
  let w' := exec (_onKeyUp (keyOnInput enterKey ctrl meta)) w in
  dropdown_notice w' = dropdown_notice w
  /\ dropdown_active w' = dropdown_active w.
Proof.
  intros Ht Hv Hre Hno. cbv zeta.
  unfold _onKeyUp. rewrite exec_call. unfold exec.
  cbn [keyCode ctrlKey metaKey targetIsInput inputIsActiveElement keyOnInput negb when].
  sym. rewrite Ht. cbn [isText when]. sym. rewrite Hv. sym.
  rewrite Hre. sym. rewrite Hre, Hv. cbn [RegExp_of]. rewrite Hno.
  cbn [retval_truthy when]. sym. rewrite ?Hv.
  enter_search_part.
Qed.

(** Enter on a text input, whatever the value typed: one item is appended
    when the text is not empty, the instance can update and the filter
    accepts the value, and the item log is left as it is otherwise. *)
Lemma enter_text_items w e v :
  keyCode e = enterKey -> targetIsInput e = true ->
  Inv w -> passedElement_type w = text ->
  items (store (step (KeyDown e) (step (Input v) w))) =
  if truthy v && canUpdate w (activeItems w) v && passesFilter (options w) v
  then items (store w) ++ [newItem w v None None]
  else items (store w).
Proof.
  intros Hk He H Ht.
  destruct (truthy v) eqn:Hv; cbn [andb].
  - destruct (canUpdate w (activeItems w) v) eqn:Hu; cbn [andb].
    + destruct (passesFilter (options w) v) eqn:Hp.
      * apply enter_accepted; assumption.
      * cbn [step].
        assert (H0 : InvOf text (set_input_value v w))
          by (apply (st_input_value (InvOf_stable text)); split; assumption).
        rewrite (_onKeyDown_enter_text _ e Hk He (proj1 H0) (proj2 H0)). cbv zeta.
        cbn [input_value set_input_value]. rewrite Hv.
        rewrite _handleEnter_exec.
        cbn [options set_canSearch set_input_value]. rewrite Hp, andb_false_r.
        reflexivity.
    + cbn [step].
      assert (H0 : InvOf text (set_input_value v w))
        by (apply (st_input_value (InvOf_stable text)); split; assumption).
      rewrite (_onKeyDown_enter_text _ e Hk He (proj1 H0) (proj2 H0)). cbv zeta.
      cbn [input_value set_input_value]. rewrite Hv.
      rewrite _handleEnter_exec.
      replace (canUpdate _ _ _) with false by (symmetry; exact Hu).
      reflexivity.
  - cbn [step].
    assert (H0 : InvOf text (set_input_value v w))
      by (apply (st_input_value (InvOf_stable text)); split; assumption).
    rewrite (_onKeyDown_enter_text _ e Hk He (proj1 H0) (proj2 H0)). cbv zeta.
    cbn [input_value set_input_value]. rewrite Hv. reflexivity.
Qed.

(** C5 (as stated, refuted). A free-text input configured with the filter
    [^[0-9]+$] and a limit of one item, which holds the item 1: the filter
    accepts 123, and yet Enter on 123 adds no item. *)
Lemma C5_limit_blocks_matching_value :
  let opts := limitedTo 1 (Some digitsOnly) in
  let w := run (typeAndEnter "1") (new_Choices opts text noFuse) in
  let w' := step (KeyDown pressEnter) (step (Input "123") w) in
  regexFilter opts = Some digitsOnly
  /\ RegExp_test digitsOnly "123" = true
  /\ map Item.value (items (store w)) = ["1"]
  /\ items (store w') = items (store w).
Proof.
  cbv zeta. split; [reflexivity|]. split; [vm_compute; reflexivity|].
  split; vm_compute; reflexivity.
Qed.

(** C5 (amended). On a free-text input configured with the filter
    [^[0-9]+$], whatever its other options, in any state a run can reach:
    Enter on abc leaves the item log as it is; Enter on 123 appends exactly
    one item when the instance can update (items may be added, the limit on
    the item count is not reached, and 123 is not a duplicate that the
    options bar), and leaves the item log as it is otherwise.  The value of
    that item is 123 between the prepended and the appended value of the
    options, so it is 123 when there is neither.  The instance can update
    whenever items may be added, there is no limit and duplicates are
    allowed, as in the default options.  In general, whatever the options,
    Enter on a value that the configured filter rejects blocks the add
    silently: the instance changes in nothing but the typed text and the
    search flag, and the key-up that follows writes no notice and leaves the
    dropdown as it was. *)
Theorem C5_regex_filter_blocks_mismatch :
  forall opts fuse ops ctrl meta,
    regexFilter opts = Some digitsOnly ->
    let w := run ops (new_Choices opts text fuse) in
    let e := keyOnInput enterKey ctrl meta in
    let new := Item.mk (nextId w) (passedValue opts "123") "123" true false (-1) in
    items (store (step (KeyDown e) (step (Input "abc") w))) = items (store w)
    /\ items (store (step (KeyDown e) (step (Input "123") w))) =
         (if canUpdate w (activeItems w) "123"
          then items (store w) ++ [new]
          else items (store w))
    /\ (prependValue opts = None -> appendValue opts = None ->
        Item.value new = "123")
    /\ (addItems opts = true -> maxItemCount opts <= 0 ->
        duplicateItems opts = true ->
        canUpdate w (activeItems w) "123" = true)
    /\ forall opts' fuse' ops' re v,
         regexFilter opts' = Some re -> RegExp_test re v = false ->
         let w' := run ops' (new_Choices opts' text fuse') in
         let w1 := step (KeyDown e) (step (Input v) w') in
         let w2 := step (KeyUp e) w1 in
         w1 = set_canSearch (searchOptions opts') (set_input_value v w')
         /\ items (store w1) = items (store w')
         /\ (v <> "" ->
             dropdown_notice w2 = dropdown_notice w'
             /\ dropdown_active w2 = dropdown_active w').
Proof.
  intros opts fuse ops ctrl meta Hf w e new.
  destruct (run_new_facts opts text fuse ops) as (HI & Ho & Ht). fold w in HI, Ho, Ht.
  split; [|split; [|split; [|split]]].
  - rewrite (enter_rejected w e "abc" digitsOnly); try reflexivity; try assumption.
    rewrite Ho. exact Hf.
  - rewrite (enter_text_items w e "123"); try reflexivity; try assumption.
    replace (passesFilter (options w) "123") with true
      by (unfold passesFilter; rewrite Ho, Hf; reflexivity).
    rewrite andb_true_r. cbn [truthy andb].
    unfold newItem. rewrite Ho. reflexivity.
  - intros Hp Ha. subst new. cbn [Item.value]. unfold passedValue.
    rewrite Hp, Ha. reflexivity.
  - intros Ha Hm Hd. unfold canUpdate, limitReached. rewrite Ho, Ha, Hd.
    cbn [negb andb].
    replace (0 <? maxItemCount opts) with false by (symmetry; apply Z.ltb_ge; lia).
    rewrite andb_false_r. reflexivity.
  - intros opts' fuse' ops' re v Hre Hno w' w1 w2.
    destruct (run_new_facts opts' text fuse' ops') as (HI' & Ho' & Ht').
    fold w' in HI', Ho', Ht'.
    assert (E1 : w1 = set_canSearch (searchOptions opts') (set_input_value v w')).
    { subst w1. rewrite <- Ho'.
      apply (enter_rejected w' e v re); try reflexivity; try assumption.
      rewrite Ho'. exact Hre. }
    split; [exact E1|]. split; [rewrite E1; reflexivity|].
    intros Hv. subst w2. cbn [step]. rewrite E1.
    assert (HN := _onKeyUp_rejected
             (set_canSearch (searchOptions opts') (set_input_value v w'))
             ctrl meta re).
    cbn [options passedElement_type input_value dropdown_notice dropdown_active
         set_canSearch set_input_value] in HN.
    apply HN; try assumption.
    + apply truthy_nonempty, Hv.
    + rewrite Ho'. exact Hre.
Qed.

Lemma C5_regex_filter_blocks_mismatch_witness :
  let opts := withRegexFilter digitsOnly defaultOptions in
  let w := run (typeAndEnter "7") (new_Choices opts text noFuse) in
  regexFilter opts = Some digitsOnly
  /\ map Item.value (items (store (step (KeyDown pressEnter) (step (Input "abc") w)))) = ["7"]
  /\ map Item.value (items (store (step (KeyDown pressEnter) (step (Input "123") w)))) = ["7"; "123"].
Proof.
  intros opts w.
  destruct (C5_regex_filter_blocks_mismatch opts noFuse (typeAndEnter "7")
              false false eq_refl) as (Ha & Hb & _).
  split; [reflexivity|]. split.
  - unfold pressEnter, w. rewrite Ha. vm_compute. reflexivity.
  - unfold pressEnter, w. rewrite Hb. vm_compute. reflexivity.
Defined.

(** ** Backspace and Delete *)

Lemma selectItem_run i w :
  selectItem (Some i) w =
  (Normal this, exec (dispatch (actions.selectItem (Item.id i) true)) w).
Proof. unfold selectItem, call. sym. reflexivity. Qed.

Lemma selectItem_none w : selectItem None w = (Normal undefined, w).
Proof. reflexivity. Qed.

Lemma removeSelectedItems_items w :
  items (store (exec removeSelectedItems w)) =
  deactivate
    (map Item.id
       (filter (fun i => Item.selected i && Item.active i) (activeItems w)))
    (items (store w)).
Proof.
  unfold removeSelectedItems. rewrite exec_call. unfold exec. sym.
  match goal with
  | |- context [bind (forEach ?its ?f) ?k ?w] =>
      change (bind (forEach its f) k w)
        with (match forEach its f w with
              | (Normal a, w') => k a w'
              | (Return r, w') => (Return r, w')
              end)
  end.
  pose proof (forEach_remove_items
                (fun i => Item.selected i && Item.active i)
                (activeItems w) w) as H.
  unfold exec, activeItems in *.
  destruct (forEach _ _ w) as [[a|r] w']; cbn [snd] in *; exact H.
Qed.

(** What [_handleBackspace] comes down to. *)
Lemma _handleBackspace_exec its w :
  exec (_handleBackspace its) w =
  if removeItems (options w)
  then match lastOf its with
       | Some i =>
           if editItems (options w) && negb (existsb Item.selected its)
           then exec (_removeItem (Some i) CbUndefined)
                  (set_input_value (Item.value i) w)
           else exec removeSelectedItems
                  (if negb (existsb Item.selected its)
                   then exec (selectItem (Some i)) w else w)
       | None => exec removeSelectedItems w
       end
  else w.
Proof.
  unfold _handleBackspace. rewrite exec_call. unfold exec. sym.
  destruct (removeItems (options w)); cbn [when]; [|reflexivity].
  destruct (lastOf its) as [i|].
  - destruct (editItems (options w) && negb (existsb Item.selected its)).
    + sym. reflexivity.
    + destruct (negb (existsb Item.selected its)); cbn [when]; sym; reflexivity.
  - destruct (negb (existsb Item.selected its)); cbn [when]; sym;
      rewrite ?selectItem_none; reflexivity.
Qed.

(** Backspace or Delete on the focused input comes down to
    [_handleBackspace] when the input is empty and the element is not a
    select-one. *)
Lemma _onKeyDown_backspace w code ctrl meta :
  code = backKey \/ code = deleteKey ->
  exec (_onKeyDown (keyOnInput code ctrl meta)) w =
  let w1 := set_canSearch (searchOptions (options w)) w in
  if negb (truthy (input_value w)) && negb (isSelectOne (passedElement_type w))
  then exec (_handleBackspace (activeItems w)) w1
  else w1.
Proof.
  intros Hc. unfold _onKeyDown at 1. rewrite exec_call. unfold exec at 1.
  cbn [keyCode ctrlKey metaKey targetIsInput inputIsActiveElement keyOnInput negb when].
  sym.
  assert (Hs : isSearchKey code = false) by (destruct Hc; subst; reflexivity).
  rewrite Hs, andb_false_r. cbn [andb when]. sym.
  assert (E1 : (code =? aKey) = false) by (destruct Hc; subst; reflexivity).
  assert (E2 : (code =? enterKey) = false) by (destruct Hc; subst; reflexivity).
  assert (E3 : (code =? escapeKey) = false) by (destruct Hc; subst; reflexivity).
  assert (E4 : (code =? downKey) || (code =? upKey) = false)
    by (destruct Hc; subst; reflexivity).
  assert (E5 : (code =? backKey) || (code =? deleteKey) = true)
    by (destruct Hc; subst; reflexivity).
  rewrite E1, E2, E3, E4, E5. sym.
  cbn [input_value set_canSearch andb].
  destruct (negb (truthy (input_value w)) && negb (isSelectOne (passedElement_type w)));
    cbn [when]; sym; reflexivity.
Qed.

(** Lists of items with distinct ids. *)
Lemma NoDup_ids_filter (p : Item.t -> bool) (s : list Item.t) :
  NoDup (map Item.id s) -> NoDup (map Item.id (filter p s)).
Proof.
  induction s as [|i s IH]; cbn; intros H; [constructor|].
  inversion H as [|x l Hn Hd]; subst.
  destruct (p i); cbn; [constructor|]; auto.
  intros Hin. apply Hn. apply in_map_iff in Hin. destruct Hin as (j & Hj & Hin).
  apply filter_In in Hin. apply in_map_iff. exists j. tauto.
Qed.

Lemma lastOf_app (its : list Item.t) (i : Item.t) :
  lastOf its = Some i -> exists A, its = A ++ [i].
Proof.
  unfold lastOf. intros H.
  induction its as [|x A _] using rev_ind; [discriminate|].
  exists A. rewrite length_app in H. cbn in H.
  replace (List.length A + 1 - 1)%nat with (List.length A) in H by lia.
  rewrite nth_error_app2 in H by lia. rewrite Nat.sub_diag in H. cbn in H.
  congruence.
Qed.

Lemma lastOf_none (its : list Item.t) : lastOf its = None -> its = [].
Proof.
  unfold lastOf. induction its as [|x A _] using rev_ind; [reflexivity|].
  rewrite length_app. cbn.
  replace (List.length A + 1 - 1)%nat with (List.length A) by lia.
  rewrite nth_error_app2 by lia. rewrite Nat.sub_diag. discriminate.
Qed.

(** Deactivating by id, seen from the active items. *)
Lemma active_deactivate (R : list Z) (s : list Item.t) :
  filteredByActive (deactivate R s) =
  filter (fun i => negb (existsb (Z.eqb (Item.id i)) R)) (filteredByActive s).
Proof.
  unfold filteredByActive, deactivate. induction s as [|i s IH]; cbn; [reflexivity|].
  destruct (existsb (Z.eqb (Item.id i)) R) eqn:E; cbn.
  - destruct (Item.active i); cbn; rewrite ?E; cbn; exact IH.
  - destruct (Item.active i); cbn; rewrite ?E; cbn; rewrite IH; reflexivity.
Qed.

Lemma filter_all (p : Item.t -> bool) (s : list Item.t) :
  (forall i, In i s -> p i = true) -> filter p s = s.
Proof.
  induction s as [|i s IH]; cbn; intros H; [reflexivity|].
  rewrite (H i (or_introl eq_refl)). f_equal. apply IH. auto.
Qed.

(** Among items with distinct ids, deactivating the id of the last active
    one removes it from the active items and keeps the others. *)
Lemma active_without_last (s A : list Item.t) (i : Item.t) :
  NoDup (map Item.id s) -> filteredByActive s = A ++ [i] ->
  filteredByActive (deactivate [Item.id i] s) = A.
Proof.
  intros Hnd HA. rewrite active_deactivate, HA, filter_app.
  assert (Hnd' : NoDup (map Item.id (A ++ [i])))
    by (rewrite <- HA; apply NoDup_ids_filter, Hnd).
  rewrite map_app in Hnd'. cbn in Hnd'.
  apply NoDup_remove_2 in Hnd'. rewrite app_nil_r in Hnd'.
  cbn. rewrite Z.eqb_refl. cbn. rewrite app_nil_r.
  apply filter_all. intros j Hj. cbn. rewrite orb_false_r.
  apply negb_true_iff, Z.eqb_neq. intros E. apply Hnd'. rewrite <- E.
  apply in_map, Hj.
Qed.

Lemma NoDup_ids_inj (s : list Item.t) (a b : Item.t) :
  NoDup (map Item.id s) -> In a s -> In b s -> Item.id a = Item.id b -> a = b.
Proof.
  induction s as [|x s IH]; cbn; intros Hnd Ha Hb E; [contradiction|].
  inversion Hnd as [|y l Hn Hd]; subst.
  destruct Ha as [->|Ha], Hb as [->|Hb]; auto.
  - exfalso. apply Hn. rewrite E. apply in_map, Hb.
  - exfalso. apply Hn. rewrite <- E. apply in_map, Ha.
Qed.

(** Among items with distinct ids, removing the selected active items
    leaves the active items that were not selected. *)
Lemma active_without_selected (s : list Item.t) :
  NoDup (map Item.id s) ->
  filteredByActive
    (deactivate
       (map Item.id
          (filter (fun i => Item.selected i && Item.active i) (filteredByActive s)))
       s) =
  filter (fun i => negb (Item.selected i)) (filteredByActive s).
Proof.
  intros Hnd. rewrite active_deactivate. apply filter_ext_in. intros i Hi.
  f_equal. destruct (Item.selected i) eqn:Es.
  - apply existsb_eqb_in, in_map, filter_In. split; [exact Hi|].
    rewrite Es. unfold filteredByActive in Hi. apply filter_In in Hi.
    destruct Hi as [_ ->]. reflexivity.
  - destruct (existsb (Z.eqb (Item.id i)) _) eqn:E; [|reflexivity].
    apply existsb_eqb_in, in_map_iff in E. destruct E as (j & Ej & Hj).
    apply filter_In in Hj. destruct Hj as (Hj & Hp).
    apply andb_prop in Hp. destruct Hp as (Hsel & _).
    assert (j = i).
    { apply (NoDup_ids_inj (filteredByActive s));
        [apply NoDup_ids_filter, Hnd | exact Hj | exact Hi | exact Ej]. }
    subst. congruence.
Qed.

Lemma selectById_id id i : Item.id (selectById id i) = Item.id i.
Proof. unfold selectById. destruct ((Item.id i =? id) && Item.active i); reflexivity. Qed.

Lemma selectById_active id i : Item.active (selectById id i) = Item.active i.
Proof. unfold selectById. destruct ((Item.id i =? id) && Item.active i); reflexivity. Qed.

Lemma filter_active_map (f : Item.t -> Item.t) (s : list Item.t) :
  (forall i, Item.active (f i) = Item.active i) ->
  filteredByActive (map f s) = map f (filteredByActive s).
Proof.
  intros Hf. unfold filteredByActive. induction s as [|i s IH]; cbn; [reflexivity|].
  rewrite Hf. destruct (Item.active i); cbn; rewrite IH; reflexivity.
Qed.

(** With no item selected, selecting the last active item and then removing
    the selected ones removes that item alone. *)
Lemma active_select_last_then_remove (s A : list Item.t) (last : Item.t) :
  NoDup (map Item.id s) -> filteredByActive s = A ++ [last] ->
  existsb Item.selected (A ++ [last]) = false ->
  let s1 := reduce_items (actions.selectItem (Item.id last) true) s in
  filteredByActive
    (deactivate
       (map Item.id
          (filter (fun i => Item.selected i && Item.active i) (filteredByActive s1)))
       s1) = A.
Proof.
  intros Hnd HA Hsel. cbv zeta. cbn [reduce_items].
  change (fun i => if (Item.id i =? Item.id last) && Item.active i
                   then Item.set_selected true i else i)
    with (selectById (Item.id last)).
  assert (Hact : forall i, In i (A ++ [last]) -> Item.active i = true).
  { intros i Hi. rewrite <- HA in Hi. unfold filteredByActive in Hi.
    apply filter_In in Hi. tauto. }
  assert (HndA : NoDup (map Item.id (A ++ [last])))
    by (rewrite <- HA; apply NoDup_ids_filter, Hnd).
  assert (HA1 : filteredByActive (map (selectById (Item.id last)) s) =
                A ++ [Item.set_selected true last]).
  { rewrite filter_active_map by apply selectById_active.
    rewrite HA, map_app. cbn [map]. f_equal.
    - rewrite <- (map_id A) at 2. apply map_ext_in. intros j Hj.
      unfold selectById.
      replace (Item.id j =? Item.id last) with false; [reflexivity|].
      symmetry. apply Z.eqb_neq. intros E.
      rewrite map_app in HndA. cbn in HndA. apply NoDup_remove_2 in HndA.
      apply HndA. rewrite app_nil_r, <- E. apply in_map, Hj.
    - unfold selectById. rewrite Z.eqb_refl.
      rewrite (Hact last) by (apply in_app_iff; right; left; reflexivity).
      reflexivity. }
  rewrite HA1.
  assert (HR : filter (fun i => Item.selected i && Item.active i)
                 (A ++ [Item.set_selected true last]) = [Item.set_selected true last]).
  { rewrite filter_app. cbn [filter Item.selected Item.active Item.set_selected].
    rewrite (Hact last) by (apply in_app_iff; right; left; reflexivity).
    cbn [andb]. rewrite existsb_app in Hsel. apply orb_false_elim in Hsel.
    destruct Hsel as [HselA _].
    replace (filter _ A) with (@nil Item.t); [reflexivity|].
    symmetry. clear -HselA. induction A as [|a A IH]; [reflexivity|].
    cbn in *. apply orb_false_elim in HselA. destruct HselA as [-> HA'].
    cbn. apply IH, HA'. }
  rewrite HR. cbn [map].
  apply (active_without_last _ A (Item.set_selected true last)).
  - rewrite map_map. erewrite map_ext; [exact Hnd|]. apply selectById_id.
  - exact HA1.
Qed.

Lemma dispatch_input a w : input_value (exec (dispatch a) w) = input_value w.
Proof. destruct (dispatch_fields a w) as (_ & _ & _ & _ & H & _). exact H. Qed.

Lemma afterRemoveCallback_input cb w :
  input_value (afterRemoveCallback cb w) = input_value w.
Proof.
  unfold afterRemoveCallback.
  destruct (callback_truthy cb && negb (isFunction cb)); reflexivity.
Qed.

Lemma input_removeItem x i cb :
  preserves (fun w => input_value w = x) (_removeItem (Some i) cb).
Proof.
  intros w H. rewrite _removeItem_run. cbn [snd].
  rewrite afterRemoveCallback_input, dispatch_input. exact H.
Qed.

Lemma input_removeSelectedItems x :
  preserves (fun w => input_value w = x) removeSelectedItems.
Proof.
  unfold removeSelectedItems. repeat pres_step; apply input_removeItem.
Qed.

Lemma input_selectItem x i :
  preserves (fun w => input_value w = x) (selectItem (Some i)).
Proof. intros w H. rewrite selectItem_run. cbn [snd]. rewrite dispatch_input. exact H. Qed.

Lemma selectItem_items i w :
  items (store (exec (selectItem (Some i)) w)) =
  reduce_items (actions.selectItem (Item.id i) true) (items (store w)).
Proof.
  unfold exec. rewrite selectItem_run. cbn [snd].
  destruct (dispatch_fields (actions.selectItem (Item.id i) true) w) as (Hs & _).
  rewrite Hs. reflexivity.
Qed.

(** C6 (as stated, refuted). With editItems enabled but removeItems
    disabled, a text input holds the one active, unselected item foo and its
    input is empty; Backspace neither puts foo back into the input nor
    removes the item. *)
Lemma C6_backspace_needs_removeItems :
  let w := run (typeAndEnter "foo") (new_Choices editOnly text noFuse) in
  let w' := step (KeyDown pressBackspace) w in
  editItems editOnly = true
  /\ passedElement_type w <> select_one
  /\ input_value w = ""
  /\ lastOf (activeItems w) = Some (Item.mk 1 "foo" "foo" true false (-1))
  /\ existsb Item.selected (activeItems w) = false
  /\ input_value w' <> "foo"
  /\ activeItems w' = activeItems w.
Proof.
  cbv zeta. split; [reflexivity|].
  split; [vm_compute; discriminate|].
  split; [vm_compute; reflexivity|].
  split; [vm_compute; reflexivity|].
  split; [vm_compute; reflexivity|].
  split; [vm_compute; discriminate | vm_compute; reflexivity].
Qed.

Lemma removeItem_deactivate a c s :
  reduce_items (actions.removeItem a c) s = deactivate [a] s.
Proof. rewrite deactivate_cons, deactivate_nil. reflexivity. Qed.

Lemma Inv_NoDup w : Inv w -> NoDup (map Item.id (items (store w))).
Proof. intros H. apply sorted_NoDup, idsFrom1_sorted, (inv_ids H). Qed.

(** C6 (amended). On a widget that is not a select-one and has removeItems
    enabled, in any state a run can reach with an empty input, Backspace or
    Delete on the focused input does this. With editItems enabled, one or
    more active items and none of them selected, the value of the last
    active item is put into the input and that item leaves the active items.
    Otherwise (editItems off, or some item selected) the input stays empty
    and the selected items leave the active items; when none was selected,
    the last active item is selected first, and so is the one to leave. *)
Theorem C6_backspace_edits_or_removes :
  forall opts t fuse ops code ctrl meta,
    t <> select_one -> removeItems opts = true ->
    code = backKey \/ code = deleteKey ->
    let w := run ops (new_Choices opts t fuse) in
    input_value w = "" ->
    let w' := step (KeyDown (keyOnInput code ctrl meta)) w in
    let hasSelectedItems := existsb Item.selected (activeItems w) in
    (editItems opts = true -> hasSelectedItems = false ->
     forall lastItem, lastOf (activeItems w) = Some lastItem ->
       input_value w' = Item.value lastItem
       /\ activeItems w' = removelast (activeItems w))
    /\ (editItems opts = false \/ hasSelectedItems = true ->
        input_value w' = ""
        /\ activeItems w' =
             if hasSelectedItems
             then filter (fun i => negb (Item.selected i)) (activeItems w)
             else removelast (activeItems w)).
Proof.
  intros opts t fuse ops code ctrl meta Hne Hrm Hc w Hin w' hasSel.
  destruct (run_new_facts opts t fuse ops) as (HI & Ho & Ht). fold w in HI, Ho, Ht.
  pose proof (Inv_NoDup w HI) as Hnd.
  assert (Hs1 : isSelectOne (passedElement_type w) = false)
    by (rewrite Ht; destruct t; [reflexivity | contradiction | reflexivity]).
  assert (E : w' = exec (_handleBackspace (activeItems w))
                     (set_canSearch (searchOptions opts) w)).
  { subst w'. cbn [step]. rewrite (_onKeyDown_backspace w code ctrl meta Hc).
    cbv zeta. rewrite Hin, Hs1, Ho. reflexivity. }
  rewrite _handleBackspace_exec in E.
  cbn [options set_canSearch] in E. rewrite Ho, Hrm in E.
  fold hasSel in E. split.
  - intros He Hsel lastItem Hlast. rewrite Hlast, He, Hsel in E. cbn [negb andb] in E.
    destruct (lastOf_app _ _ Hlast) as (A & HA).
    rewrite E. split.
    + apply (input_removeItem (Item.value lastItem) lastItem CbUndefined).
      reflexivity.
    + unfold activeItems at 1. rewrite _removeItem_items, removeItem_deactivate.
      cbn [store set_input_value set_canSearch].
      rewrite (active_without_last _ A lastItem Hnd HA).
      rewrite HA, removelast_last. reflexivity.
  - intros Hcase. destruct hasSel eqn:Hsel.
    + assert (E' : w' = exec removeSelectedItems
                          (set_canSearch (searchOptions opts) w)).
      { rewrite E. destruct (lastOf (activeItems w)); [|reflexivity].
        rewrite andb_false_r. reflexivity. }
      rewrite E'. split.
      * apply (input_removeSelectedItems ""). exact Hin.
      * unfold activeItems at 1. rewrite removeSelectedItems_items.
        apply (active_without_selected _ Hnd).
    + destruct Hcase as [He|]; [|discriminate]. rewrite He in E. cbn [negb andb] in E.
      destruct (lastOf (activeItems w)) as [lastItem|] eqn:Hlast.
      * destruct (lastOf_app _ _ Hlast) as (A & HA). rewrite E. split.
        -- apply (input_removeSelectedItems ""), (input_selectItem "" lastItem).
           exact Hin.
        -- unfold activeItems at 1. rewrite removeSelectedItems_items.
           unfold activeItems at 1. rewrite selectItem_items.
           cbn [store set_canSearch].
           rewrite (active_select_last_then_remove _ A lastItem Hnd HA)
             by (rewrite <- HA; exact Hsel).
           rewrite HA, removelast_last. reflexivity.
      * apply lastOf_none in Hlast. rewrite E. split.
        -- apply (input_removeSelectedItems ""). exact Hin.
        -- unfold activeItems in *. rewrite removeSelectedItems_items.
           unfold activeItems. cbn [store set_canSearch].
           rewrite (active_without_selected _ Hnd).
           rewrite Hlast. reflexivity.
Qed.

Lemma C6_backspace_edits_or_removes_witness :
  let w := run (typeAndEnter "foo") (new_Choices editable text noFuse) in
  let w' := step (KeyDown pressBackspace) w in
  input_value w = ""
  /\ lastOf (activeItems w) = Some (Item.mk 1 "foo" "foo" true false (-1))
  /\ input_value w' = "foo"
  /\ activeItems w' = removelast (activeItems w).
Proof.
  cbv zeta.
  assert (Hin : input_value (run (typeAndEnter "foo")
                               (new_Choices editable text noFuse)) = "")
    by (vm_compute; reflexivity).
  assert (Hlast : lastOf (activeItems (run (typeAndEnter "foo")
                                         (new_Choices editable text noFuse))) =
                  Some (Item.mk 1 "foo" "foo" true false (-1)))
    by (vm_compute; reflexivity).
  assert (Hsel : existsb Item.selected
                   (activeItems (run (typeAndEnter "foo")
                                   (new_Choices editable text noFuse))) = false)
    by (vm_compute; reflexivity).
  assert (Ht : text <> select_one) by discriminate.
  destruct (C6_backspace_edits_or_removes editable text noFuse
              (typeAndEnter "foo") deleteKey false false
              Ht eq_refl (or_intror eq_refl) Hin) as (HA & _).
  split; [exact Hin|]. split; [exact Hlast|].
  exact (HA eq_refl Hsel _ Hlast).
Defined.

(** ** Searching on key-up *)

Lemma proceeds_ret {A} P (a : A) : proceeds P (ret a).
Proof. intros w H. exists a, w. split; [reflexivity | exact H]. Qed.

Lemma proceeds_gets {A} P (f : Choices -> A) : proceeds P (gets f).
Proof. intros w H. exists (f w), w. split; [reflexivity | exact H]. Qed.

Lemma proceeds_modify P (f : Choices -> Choices) :
  (forall w, P w -> P (f w)) -> proceeds P (modify f).
Proof. intros Hf w H. exists tt, (f w). split; [reflexivity | apply Hf, H]. Qed.

Lemma proceeds_bind {A B} P (m : M A) (k : A -> M B) :
  proceeds P m -> (forall a, proceeds P (k a)) -> proceeds P (bind m k).
Proof.
  intros Hm Hk w H. destruct (Hm w H) as (a & w1 & E & H1).
  destruct (Hk a w1 H1) as (b & w2 & E2 & H2).
  exists b, w2. split; [|exact H2]. unfold bind. rewrite E. exact E2.
Qed.

Lemma proceeds_call P (body : M unit) :
  preserves P body -> proceeds P (call body).
Proof.
  intros Hb w H. exists (valueOf (call body) w), (exec (call body) w).
  split; [apply call_run|]. rewrite exec_call. apply Hb, H.
Qed.

Lemma proceeds_when P (b : bool) (m : M unit) :
  proceeds P m -> proceeds P (when b m).
Proof. intros Hm. destruct b; [exact Hm | apply proceeds_ret]. Qed.

Ltac proceeds_step :=
  match goal with
  | |- proceeds _ (bind _ _) => apply proceeds_bind; [ | intro ]
  | |- proceeds _ (when _ _) => apply proceeds_when
  | |- proceeds _ (ret _) => apply proceeds_ret
  | |- proceeds _ skip => apply proceeds_ret
  | |- proceeds _ (gets _) => apply proceeds_gets
  | |- proceeds _ (modify _) => apply proceeds_modify; intros ? HH; exact HH
  | |- proceeds _ (if ?b then _ else _) => destruct b
  | |- proceeds _ (match ?x with _ => _ end) => destruct x
  | |- proceeds _ (let _ := _ in _) => cbv zeta
  | |- proceeds _ (call _) =>
      apply proceeds_call;
      repeat first [ pres_step | apply pres_modify; intros ? HH; exact HH ]
  end.

Lemma sameCore_refl w : sameCore w w.
Proof. repeat split. Qed.

Lemma _onKeyUp_exec e w :
  targetIsInput e = true ->
  exists w3, sameCore w w3 /\ exec (_onKeyUp e) w = searchPart e w w3.
Proof.
  intros He.
  unfold _onKeyUp. rewrite exec_call. unfold exec at 1.
  rewrite He. cbn [negb when andb]. sym.
  match goal with
  | |- context [bind (when ?b ?m) ?k w] =>
      assert (H1 : proceeds (sameCore w) (when b m))
        by (unfold showDropdown, hideDropdown, _regexFilter;
            repeat proceeds_step);
      destruct (H1 w (sameCore_refl w)) as (a & w3 & E3 & Hs & Hv & Hc & Hcur & Hd & Hf);
      rewrite (bind_normal _ k w _ _ E3); clear E3 H1
  end.
  exists w3. split; [repeat split; assumption|].
  unfold searchPart, searchGuard, searchable, hasUnactiveChoices.
  sym. rewrite Hc.
  destruct (canSearch w); cbn [andb when]; [|reflexivity].
  destruct (inputIsActiveElement e); cbn [when]; [|reflexivity].
  sym. rewrite Hs, Hv.
  destruct (truthy (input_value w) && (1 <=? List.length (choices (store w)))%nat
            && isSearchKey (keyCode e)).
  - sym. rewrite Hcur.
    match goal with |- context [when ?b _] => destruct b end; cbn [when];
      [|reflexivity].
    sym. rewrite Hs, Hf. reflexivity.
  - match goal with |- context [when ?b _] => destruct b end; cbn [when];
      [|reflexivity].
    sym. reflexivity.
Qed.

Lemma dispatch_dispatched a w :
  dispatched (exec (dispatch a) w) = dispatched w ++ [a].
Proof.
  destruct (dispatch_fields a w)
    as (_ & _ & _ & _ & _ & _ & _ & _ & _ & _ & _ & _ & _ & H & _).
  exact H.
Qed.

Lemma _onKeyUp_dispatched e w :
  dispatched (exec (_onKeyUp e) w) = dispatched w ++ keyUpActions e w.
Proof.
  unfold keyUpActions. destruct (targetIsInput e) eqn:He.
  - destruct (_onKeyUp_exec e w He) as (w3 & (_ & _ & _ & _ & Hd & _) & E).
    rewrite E. unfold searchPart. cbn [andb].
    destruct (canSearch w && inputIsActiveElement e);
      [|rewrite app_nil_r; exact Hd].
    destruct (searchGuard e w).
    + destruct (searchable w); [|rewrite app_nil_r; exact Hd].
      rewrite dispatch_dispatched. cbn. rewrite Hd. reflexivity.
    + destruct (hasUnactiveChoices w); [|rewrite app_nil_r; exact Hd].
      rewrite dispatch_dispatched. cbn. rewrite Hd. reflexivity.
  - unfold _onKeyUp. rewrite exec_call. unfold exec. rewrite He.
    cbn [negb when andb]. sym. cbn. rewrite app_nil_r. reflexivity.
Qed.

Lemma activateChoices_all_active r s :
  forallb Choice.active (reduce_choices (actions.activateChoices r) s) = true.
Proof.
  cbn [reduce_choices]. induction s as [|c s IH]; [reflexivity|].
  cbn [map forallb]. rewrite IH. destruct r; reflexivity.
Qed.

(** The key codes and the test of the search: the key codes of F5 and of
    the insert key pass it, as the codes of t and of the hyphen; the key
    codes of the hyphen and underscore key, 189 and 173, fail it, as do the
    arrows and Enter. *)
Lemma isSearchKey_on_key_codes :
  isSearchKey 116 = true /\ isSearchKey 45 = true
  /\ isSearchKey 189 = false /\ isSearchKey 173 = false
  /\ isSearchKey upKey = false /\ isSearchKey downKey = false
  /\ isSearchKey enterKey = false.
Proof. repeat split. Qed.

(** C7 (as stated, refuted). In that state search is enabled and the choice
    y is inactive; the key-up of the space triggers no search, as the text
    is empty once trimmed, and yet dispatches no activateChoices either: y
    stays filtered out. *)
Lemma C7_blank_input_keeps_filtering :
  let w := afterSearchAndSpace in
  let e := keyOnInput 32 false false in
  let w' := step (KeyUp e) w in
  canSearch w = true
  /\ hasUnactiveChoices w = true
  /\ (forall results, ~ In (actions.filterChoices results) (keyUpActions e w))
  /\ dispatched w' = dispatched w
  /\ hasUnactiveChoices w' = true.
Proof.
  cbv zeta. split; [vm_compute; reflexivity|].
  split; [vm_compute; reflexivity|].
  split; [intros results; vm_compute; tauto|].
  split; vm_compute; reflexivity.
Qed.

(** C7 (amended). On a key-up on the focused input with search enabled, in
    any state of the instance: the actions dispatched are those of
    [keyUpActions]; a filterChoices action is among them only when the
    trimmed text of the input has length at least 1 and differs from the
    trimmed text of the last search followed by a space; and when the input
    is empty, or there is no choice, or the character with the key code of
    the event as its code is not a letter, a digit, a hyphen, an underscore
    or a space, while some choices are inactive, one activateChoices action
    is dispatched, after which every choice is active and the instance is no
    longer searching; an activateChoices action is dispatched in no other
    case.  The test is on the key code, not on the character typed: the key
    codes 112 to 122 of the function keys F1 to F11 are the codes of the
    letters p to z and pass it, and the key codes 189 and 173 of the hyphen
    and underscore key are the code of no such character and fail it. *)
Theorem C7_search_on_key_up :
  forall w e,
    targetIsInput e = true -> inputIsActiveElement e = true ->
    canSearch w = true ->
    let w' := step (KeyUp e) w in
    dispatched w' = dispatched w ++ keyUpActions e w
    /\ (forall results,
          In (actions.filterChoices results) (keyUpActions e w) ->
          (1 <= String.length (trim (input_value w)))%nat
          /\ trim (input_value w) <> String.append (trim (currentValue w)) " ")
    /\ (searchGuard e w = false -> hasUnactiveChoices w = true ->
        dispatched w' = dispatched w ++ [actions.activateChoices false]
        /\ forallb Choice.active (choices (store w')) = true
        /\ isSearching w' = false)
    /\ (forall r,
          In (actions.activateChoices r) (keyUpActions e w) ->
          searchGuard e w = false /\ hasUnactiveChoices w = true).
Proof.
  intros w e He Hf Hc w'. subst w'. cbn [step].
  split; [apply _onKeyUp_dispatched|].
  split; [|split;
    [|intros r Hin; unfold keyUpActions in Hin;
      rewrite He, Hf, Hc in Hin; cbn [andb] in Hin;
      destruct (searchGuard e w);
      [destruct (searchable w); [destruct Hin as [Hin|[]]; discriminate Hin
                                | contradiction]
      |destruct (hasUnactiveChoices w); [split; reflexivity | contradiction]]]].
  - intros results Hin. unfold keyUpActions in Hin.
    rewrite He, Hf, Hc in Hin. cbn [andb] in Hin.
    destruct (searchGuard e w).
    + destruct (searchable w) eqn:Es; [|contradiction].
      unfold searchable in Es. apply andb_prop in Es. destruct Es as (E1 & E2).
      split.
      * apply Nat.leb_le, E1.
      * apply negb_true_iff in E2. apply String.eqb_neq, E2.
    + destruct (hasUnactiveChoices w); [|contradiction].
      destruct Hin as [Hin|[]]. discriminate Hin.
  - intros Hg Hu.
    destruct (_onKeyUp_exec e w He) as (w3 & (Hs & _) & E).
    split; [|split].
    + rewrite _onKeyUp_dispatched. unfold keyUpActions.
      rewrite He, Hc, Hf, Hg, Hu. reflexivity.
    + rewrite E. unfold searchPart. rewrite Hc, Hf, Hg, Hu. cbn [andb].
      destruct (dispatch_fields (actions.activateChoices false)
                  (set_isSearching false w3)) as (Hst & _).
      rewrite Hst. cbn [choices reducer]. apply activateChoices_all_active.
    + rewrite E. unfold searchPart. rewrite Hc, Hf, Hg, Hu. cbn [andb].
      destruct (dispatch_fields (actions.activateChoices false)
                  (set_isSearching false w3))
        as (_ & _ & _ & _ & _ & _ & _ & _ & Hi & _).
      rewrite Hi. reflexivity.
Qed.

Lemma C7_search_on_key_up_witness :
  let w := run [AddChoice false false "x" None None;
                AddChoice false false "y" None None; Input "x";
                KeyDown (keyOnInput 88 false false)]
             (new_Choices defaultOptions select_multiple exactFuse) in
  let e := keyOnInput 88 false false in
  canSearch w = true
  /\ dispatched (step (KeyUp e) w) = dispatched w ++ keyUpActions e w.
Proof.
  cbv zeta.
  assert (Hc : canSearch
                 (run [AddChoice false false "x" None None;
                       AddChoice false false "y" None None; Input "x";
                       KeyDown (keyOnInput 88 false false)]
                    (new_Choices defaultOptions select_multiple exactFuse)) = true)
    by (vm_compute; reflexivity).
  split; [exact Hc|].
  exact (proj1 (C7_search_on_key_up _ (keyOnInput 88 false false)
                  eq_refl eq_refl Hc)).
Defined.

(** ** The unconditional returns of [removeItemsByValue] and [_removeItem] *)

(** What [removeItemsByValue] does: it reports an argument that is not a
    non-empty string, and returns. *)
Lemma removeItemsByValue_run value w :
  removeItemsByValue value w =
  (Normal undefined,
   if negb (jsval_truthy value) || negb (isString value)
   then log_console_error
          "removeItemsByValue: No value was passed to be removed" w
   else w).
Proof.
  unfold removeItemsByValue, call, console_error_.
  destruct (negb (jsval_truthy value) || negb (isString value));
    cbn [when]; sym; reflexivity.
Qed.

(** C9. Whatever the argument, a valid non-empty string included,
    [removeItemsByValue] returns undefined and not the instance, and it
    returns before the store is looked at: nothing is dispatched, the store
    and what is shown of it are as before, no callback runs; only the
    console gets a message, when the argument is not a non-empty string. *)
Theorem C9_removeItemsByValue_returns_early :
  forall value w,
    result (removeItemsByValue value) w = Some undefined
    /\ result (removeItemsByValue value) w <> Some this
    /\ store (exec (removeItemsByValue value) w) = store w
    /\ dispatched (exec (removeItemsByValue value) w) = dispatched w
    /\ itemList (exec (removeItemsByValue value) w) = itemList w
    /\ callbacks (exec (removeItemsByValue value) w) = callbacks w
    /\ (forall s, s <> "" ->
          exec (removeItemsByValue (VString s)) w = w).
Proof.
  intros value w. unfold result, exec. rewrite removeItemsByValue_run. cbn [fst snd].
  split; [reflexivity|]. split; [discriminate|].
  destruct (negb (jsval_truthy value) || negb (isString value));
    (split; [reflexivity|]); (split; [reflexivity|]);
    (split; [reflexivity|]); (split; [reflexivity|]);
    intros s Hs; rewrite removeItemsByValue_run; cbn;
    destruct s; try congruence; reflexivity.
Qed.

Lemma afterRemoveCallback_fields cb w :
  callbacks (afterRemoveCallback cb w) = callbacks w
  /\ dispatched (afterRemoveCallback cb w) = dispatched w.
Proof.
  unfold afterRemoveCallback.
  destruct (callback_truthy cb && negb (isFunction cb)); split; reflexivity.
Qed.

Lemma neverRemoved_dispatch a : preserves neverRemoved (dispatch a).
Proof.
  intros w H id v.
  destruct (dispatch_fields a w)
    as (_ & _ & _ & _ & _ & _ & _ & _ & _ & _ & _ & _ & Hc & _).
  unfold exec in Hc. rewrite Hc. apply H.
Qed.

Lemma neverRemoved_stable : stable neverRemoved.
Proof.
  constructor; try (intros; assumption).
  - intros id v w H id' v' Hin. cbn in Hin. apply in_app_iff in Hin.
    destruct Hin as [Hin|[Hin|[]]]; [exact (H id' v' Hin) | discriminate Hin].
  - intros a _. apply neverRemoved_dispatch.
Qed.

Lemma neverRemoved_addItem v l c cb : preserves neverRemoved (_addItem v l c cb).
Proof.
  apply (_addItem_pres_from neverRemoved_stable).
  intros v' l' id c' w H _. apply neverRemoved_dispatch, H.
Qed.

Lemma neverRemoved_new opts t fuse : neverRemoved (new_Choices opts t fuse).
Proof.
  intros id v. unfold new_Choices.
  destruct (render_fields (blank opts t fuse))
    as (_ & _ & _ & _ & _ & _ & _ & _ & _ & _ & _ & _ & Hc & _).
  rewrite Hc. intros [].
Qed.

(** C10. For every item object passed to [_removeItem], with a callback
    configured (the option, or the argument that overrides it, is truthy):
    the removeItem action is dispatched first, so that the state changes and
    every item of that id is inactive afterwards; the callback is not
    invoked, and no run of any instance ever invokes it, whichever way the
    items are removed; what is left of the method is the report of a
    callback that is not a function; and the call evaluates to undefined. *)
Theorem C10_removeItem_callback_never_runs :
  forall i cb w,
    callback_truthy (default_param cb (callbackOnRemoveItem (options w))) = true ->
    let a := actions.removeItem (Item.id i) (Item.choiceId i) in
    let w' := exec (_removeItem (Some i) cb) w in
    w' = afterRemoveCallback (default_param cb (callbackOnRemoveItem (options w)))
           (exec (dispatch a) w)
    /\ dispatched w' = dispatched w ++ [a]
    /\ store w' = reducer a (store w)
    /\ (forall j, In j (items (store w')) ->
                  Item.id j = Item.id i -> Item.active j = false)
    /\ callbacks w' = callbacks w
    /\ result (_removeItem (Some i) cb) w = Some undefined
    /\ (forall opts t fuse ops,
          neverRemoved (run ops (new_Choices opts t fuse))).
Proof.
  intros i cb w Hcb a w'.
  assert (E : w' = afterRemoveCallback
                     (default_param cb (callbackOnRemoveItem (options w)))
                     (exec (dispatch a) w))
    by (subst w'; unfold exec at 1; rewrite _removeItem_run; reflexivity).
  destruct (dispatch_fields a w)
    as (Hs & _ & _ & _ & _ & _ & _ & _ & _ & _ & _ & _ & Hc & Hd & _).
  destruct (afterRemoveCallback_fields
              (default_param cb (callbackOnRemoveItem (options w)))
              (exec (dispatch a) w)) as (Hc' & Hd').
  assert (Est : store w' = reducer a (store w))
    by (rewrite E, afterRemoveCallback_store; exact Hs).
  split; [exact E|]. split; [rewrite E, Hd'; exact Hd|].
  split; [exact Est|]. split.
  - intros j Hj Hid. rewrite Est in Hj. cbn [items reducer reduce_items a] in Hj.
    apply in_map_iff in Hj. destruct Hj as (k & Hk & _).
    destruct (Item.id k =? Item.id i) eqn:Ek.
    + subst j. reflexivity.
    + subst j. apply Z.eqb_neq in Ek. contradiction.
  - split; [rewrite E, Hc'; exact Hc|]. split.
    + unfold result. rewrite _removeItem_run. cbn [fst]. rewrite Hcb. reflexivity.
    + intros opts t fuse ops.
      apply (run_pres neverRemoved_stable neverRemoved_addItem
               (neverRemoved_dispatch actions.clearAll)),
        neverRemoved_new.
Qed.

Lemma C10_removeItem_callback_never_runs_witness :
  let w := run (typeAndEnter "foo") (new_Choices defaultOptions text noFuse) in
  let foo := Item.mk 1 "foo" "foo" true false (-1) in
  callback_truthy (default_param CbUndefined (callbackOnRemoveItem (options w))) = true
  /\ result (_removeItem (Some foo) CbUndefined) w = Some undefined
  /\ callbacks (exec (_removeItem (Some foo) CbUndefined) w) = callbacks w.
Proof.
  cbv zeta.
  assert (Hcb : callback_truthy
                  (default_param CbUndefined
                     (callbackOnRemoveItem
                        (options (run (typeAndEnter "foo")
                                    (new_Choices defaultOptions text noFuse))))) = true)
    by (vm_compute; reflexivity).
  destruct (C10_removeItem_callback_never_runs
              (Item.mk 1 "foo" "foo" true false (-1)) CbUndefined _ Hcb)
    as (_ & _ & _ & _ & Hc & Hr & _).
  split; [exact Hcb|]. split; [exact Hr | exact Hc].
Defined.

(** ** Termination of the scroll animation *)

Module ScrollProofs.
Import Scroll.
Local Open Scope Q_scope.











End ScrollProofs.


(** * Further properties of the code *)

(** ** Properties kept by every operation *)

Create HintDb steady.

Lemma _addChoice_exec s d v l g w :
  exec (_addChoice s d v l g) w =
  if truthy v
  then let w1 := exec (dispatch (actions.addChoice v (choiceLabel v l)
                                   (nextChoiceId w) (choiceGroupId g) d)) w in
       if s && negb d
       then exec (_addItem v (Some (choiceLabel v l)) (Some (nextChoiceId w))
                    CbUndefined) w1
       else w1
  else w.
Proof.
  unfold _addChoice. rewrite exec_call. unfold exec.
  destruct (truthy v); cbn [negb when].
  - sym. fold (choiceLabel v l). fold (choiceGroupId g). fold (nextChoiceId w).
    destruct (s && negb d); cbn [when]; sym; reflexivity.
  - sym. reflexivity.
Qed.

Section Steady.
Variable P : Choices -> Prop.
Hypothesis HP : steady P.

Ltac steady_auto :=
  repeat (first
    [ pres_step
    | apply pres_modify; intros;
      first [ apply (sd_input_value P HP) | apply (sd_dropdown_active P HP)
            | apply (sd_dropdown_notice P HP) | apply (sd_canSearch P HP)
            | apply (sd_isSearching P HP) | apply (sd_currentValue P HP)
            | apply (sd_highlightPosition P HP) | apply (sd_console_error P HP) ];
      assumption
    | apply (sd_dispatch P HP); exact I
    | apply (sd_highlight P HP)
    | assumption
    | solve [ auto 2 with steady ] ]).

Lemma selectItem_steady i : preserves P (selectItem i).
Proof. unfold selectItem. steady_auto. Qed.

Lemma deselectItem_steady i : preserves P (deselectItem i).
Proof. unfold deselectItem. steady_auto. Qed.
Hint Resolve selectItem_steady deselectItem_steady : steady.

Lemma highlightAll_steady : preserves P highlightAll.
Proof. unfold highlightAll. steady_auto. Qed.

Lemma deselectAll_steady : preserves P deselectAll.
Proof. unfold deselectAll. steady_auto. Qed.

Lemma _removeItem_steady i c : preserves P (_removeItem i c).
Proof. unfold _removeItem. steady_auto. Qed.
Hint Resolve highlightAll_steady deselectAll_steady _removeItem_steady : steady.

Lemma removeItemsByValue_steady v : preserves P (removeItemsByValue v).
Proof. unfold removeItemsByValue. steady_auto. Qed.

Lemma removeActiveItems_steady x : preserves P (removeActiveItems x).
Proof. unfold removeActiveItems. steady_auto. Qed.

Lemma removeSelectedItems_steady : preserves P removeSelectedItems.
Proof. unfold removeSelectedItems. steady_auto. Qed.

Hint Resolve removeItemsByValue_steady removeActiveItems_steady
  removeSelectedItems_steady : steady.

Lemma showDropdown_steady : preserves P showDropdown.
Proof. unfold showDropdown. steady_auto. Qed.

Lemma hideDropdown_steady : preserves P hideDropdown.
Proof. unfold hideDropdown. steady_auto. Qed.
Hint Resolve showDropdown_steady hideDropdown_steady : steady.

Lemma toggleDropdown_steady : preserves P toggleDropdown.
Proof. unfold toggleDropdown. steady_auto. Qed.

Lemma clearInput_steady : preserves P clearInput.
Proof. unfold clearInput. steady_auto. Qed.

Lemma _regexFilter_steady v : preserves P (_regexFilter v).
Proof. unfold _regexFilter. steady_auto. Qed.
Hint Resolve toggleDropdown_steady clearInput_steady _regexFilter_steady : steady.

Lemma _handleBackspace_steady a : preserves P (_handleBackspace a).
Proof. unfold _handleBackspace. steady_auto. Qed.

Lemma _onKeyUp_steady e : preserves P (_onKeyUp e).
Proof. unfold _onKeyUp. steady_auto. Qed.
Hint Resolve _handleBackspace_steady _onKeyUp_steady : steady.

(** [_addItem] keeps the property as soon as the dispatch of an [addItem]
    with the next id and the record of the call of the add callback do. *)
Lemma _addItem_steady_from :
  (forall v l c w, P w -> P (exec (dispatch (actions.addItem v l (nextId w) c)) w)) ->
  (forall id v w, P w -> P (log_callback (OnAddItem id v) w)) ->
  forall v l c cb, preserves P (_addItem v l c cb).
Proof.
  intros Hd Hc v l c cb w Hw. change (P (exec (_addItem v l c cb) w)).
  rewrite _addItem_exec. cbv zeta.
  match goal with
  | |- P (runAddCallback ?cb' ?id ?pv ?w2) =>
      assert (H2 : P w2);
        [ | unfold runAddCallback; destruct (callback_truthy cb');
            [ destruct (isFunction cb');
              [ apply Hc, H2 | apply (sd_console_error P HP), H2 ]
            | exact H2 ] ]
  end.
  destruct (isSelectOne (passedElement_type w)).
  - apply removeActiveItems_steady, Hd, Hw.
  - apply Hd, Hw.
Qed.

(** With the additions to the logs keeping the property too, every
    operation keeps it. *)
Hypothesis Hadd : forall v l c, preserves P (_addItem v l c CbUndefined).
Hypothesis HaddChoice :
  forall v l g d w,
    P w -> P (exec (dispatch (actions.addChoice v l (nextChoiceId w) g d)) w).
Hint Resolve Hadd : steady.

Lemma _addChoice_steady s d v l g : preserves P (_addChoice s d v l g).
Proof.
  intros w Hw. change (P (exec (_addChoice s d v l g) w)).
  rewrite _addChoice_exec. destruct (truthy v); [|exact Hw]. cbv zeta.
  destruct (s && negb d); [apply Hadd|]; apply HaddChoice, Hw.
Qed.

Lemma _handleEnter_steady a v : preserves P (_handleEnter a v).
Proof. unfold _handleEnter. steady_auto. Qed.
Hint Resolve _addChoice_steady _handleEnter_steady : steady.

Lemma _onKeyDown_steady e : preserves P (_onKeyDown e).
Proof. unfold _onKeyDown. steady_auto. Qed.

(** Every operation but [clearValue] keeps the property. *)
Lemma step_steady_kept o w : isClearValue o = false -> P w -> P (step o w).
Proof.
  intros Ho H. destruct o; try discriminate Ho; cbn [step]; unfold exec;
    try (apply (sd_input_value P HP); assumption);
    match goal with |- P (snd (?m w)) => revert w H; change (preserves P m) end;
    auto using _onKeyDown_steady with steady.
Qed.

Lemma run_steady_kept ops w :
  existsb isClearValue ops = false -> P w -> P (run ops w).
Proof.
  revert w; induction ops as [|o ops IH]; intros w Ho H; cbn; [exact H|].
  cbn in Ho. apply orb_false_iff in Ho. destruct Ho as [Ho Hops].
  apply IH; [exact Hops | apply step_steady_kept; assumption].
Qed.

(** With [clearAll] keeping it as well, every operation does. *)
Hypothesis Hclear : preserves P (dispatch actions.clearAll).

Lemma clearValue_steady : preserves P clearValue.
Proof. unfold clearValue. steady_auto. Qed.

Lemma step_steady o w : P w -> P (step o w).
Proof.
  intros H. destruct (isClearValue o) eqn:Ho.
  - destruct o; try discriminate Ho. apply clearValue_steady, H.
  - apply step_steady_kept; assumption.
Qed.

Lemma run_steady ops w : P w -> P (run ops w).
Proof.
  revert w; induction ops as [|o ops IH]; intros w H; cbn; [exact H|].
  apply IH, step_steady, H.
Qed.

End Steady.

(** What [_highlightChoice] leaves of an instance: all but the choice list
    and the highlight position. *)
Lemma _highlightChoice_fields el w :
  let w' := exec (_highlightChoice el) w in
  sameData w w' /\ Fuse_search w' = Fuse_search w
  /\ passedElement_value w' = passedElement_value w
  /\ input_value w' = input_value w /\ itemList w' = itemList w
  /\ dropdown_notice w' = dropdown_notice w
  /\ dropdown_active w' = dropdown_active w /\ canSearch w' = canSearch w
  /\ isSearching w' = isSearching w /\ currentValue w' = currentValue w
  /\ console_error w' = console_error w /\ dispatched w' = dispatched w.
Proof.
  cbv zeta. unfold _highlightChoice. rewrite exec_call.
  unfold exec, sameData, bind, gets, when, modify, skip, ret.
  destruct (1 <=? List.length (selectableEls w))%nat; [destruct el|];
    cbn; repeat split; reflexivity.
Qed.

(** A property of the data alone is steady as soon as the dispatch of the
    actions that add nothing keeps it. *)
Lemma steady_data (P : Choices -> Prop) :
  (forall w w', sameData w w' -> P w -> P w') ->
  (forall a, plainAction a -> preserves P (dispatch a)) ->
  steady P.
Proof.
  intros Hd Ha.
  constructor; try exact Ha;
    try solve [intros ? w H; apply (Hd w); [repeat split | exact H]].
  intros el w H. apply (Hd w); [|exact H].
  apply (_highlightChoice_fields el w).
Qed.

(** *** What the additions and removals of items keep *)

Section ItemWise.
Variable P : Choices -> Prop.
Hypothesis HP : itemWise P.

Ltac itemWise_auto :=
  repeat (first
    [ pres_step
    | apply pres_modify; intros;
      first [ apply (iw_console_error P HP) | apply (iw_callback P HP) ];
      assumption
    | apply (iw_addItem P HP)
    | apply (iw_removeItem P HP)
    | assumption ]).

Lemma _removeItem_itemWise i c : preserves P (_removeItem i c).
Proof. unfold _removeItem. itemWise_auto. Qed.

Lemma removeActiveItems_itemWise x : preserves P (removeActiveItems x).
Proof.
  unfold removeActiveItems. itemWise_auto. apply _removeItem_itemWise.
Qed.

Lemma _addItem_itemWise v l c cb : preserves P (_addItem v l c cb).
Proof.
  unfold _addItem. itemWise_auto. apply removeActiveItems_itemWise.
Qed.

End ItemWise.

(** *** The ids of the choice log *)

Lemma insertByRank_perm key c s : Permutation (insertByRank key c s) (c :: s).
Proof.
  induction s as [|d s IH]; cbn; [reflexivity|].
  destruct (key c <=? key d)%nat; [reflexivity|].
  rewrite IH. apply perm_swap.
Qed.

Lemma sortByRank_perm key s : Permutation (sortByRank key s) s.
Proof.
  induction s as [|c s IH]; cbn; [reflexivity|].
  rewrite insertByRank_perm. apply perm_skip, IH.
Qed.

(** The actions that add nothing permute the choice log at most. *)
Lemma reduce_choices_ids (a : action) (s : list Choice.t) :
  plainAction a ->
  Permutation (map Choice.id (reduce_choices a s)) (map Choice.id s).
Proof.
  intros Ha. destruct a; cbn in *; try reflexivity; try contradiction.
  - rewrite map_map. erewrite map_ext; [reflexivity|].
    intros c. destruct (references choiceId (Choice.id c)); reflexivity.
  - rewrite (Permutation_map Choice.id (sortByRank_perm _ _)).
    rewrite map_map. erewrite map_ext; [reflexivity|].
    intros c. destruct (scoreIn results c); reflexivity.
  - rewrite map_map. erewrite map_ext; [reflexivity|].
    intros c. destruct resetSelection; reflexivity.
Qed.

Lemma choiceIds_itemWise (L : list Z) :
  itemWise (fun w => map Choice.id (choices (store w)) = L).
Proof.
  constructor; try (intros ? w H; exact H).
  - intros v l i c w H.
    destruct (dispatch_fields (actions.addItem v l i c) w) as (Hs & _).
    unfold exec in Hs. rewrite Hs. cbn. rewrite map_map. rewrite <- H.
    apply map_ext. intros x. destruct (references c (Choice.id x)); reflexivity.
  - intros i c w H.
    destruct (dispatch_fields (actions.removeItem i c) w) as (Hs & _).
    unfold exec in Hs. rewrite Hs. cbn. rewrite map_map. rewrite <- H.
    apply map_ext. intros x. destruct (references c (Choice.id x)); reflexivity.
Qed.

Lemma choiceIds_addItem L v l c cb :
  preserves (fun w => map Choice.id (choices (store w)) = L) (_addItem v l c cb).
Proof. apply (_addItem_itemWise _ (choiceIds_itemWise L)). Qed.

(** An addition of a choice puts the next id at the end of the log. *)
Lemma _addChoice_ids s d v l g w :
  truthy v = true ->
  map Choice.id (choices (store (exec (_addChoice s d v l g) w))) =
  map Choice.id (choices (store w)) ++ [nextChoiceId w].
Proof.
  intros Hv. rewrite _addChoice_exec, Hv. cbv zeta.
  match goal with
  | |- context [exec (dispatch ?a) w] =>
      assert (H1 : map Choice.id (choices (store (exec (dispatch a) w))) =
                   map Choice.id (choices (store w)) ++ [nextChoiceId w])
  end.
  { match goal with
    | |- context [exec (dispatch ?a) w] =>
        destruct (dispatch_fields a w) as (Hs & _)
    end.
    rewrite Hs. cbn. rewrite map_app. reflexivity. }
  destruct (s && negb d); [|exact H1].
  apply (choiceIds_addItem _ _ _ _ _ _ H1).
Qed.

Lemma choiceIdsUpTo_steady : steady (fun w => choiceIdsUpTo (choices (store w))).
Proof.
  apply steady_data.
  - intros w w' (Hs & _) H. rewrite Hs. exact H.
  - intros a Ha w H.
    destruct (dispatch_fields a w) as (Hs & _). unfold exec in Hs.
    rewrite Hs. cbn [choices reducer]. unfold choiceIdsUpTo in *.
    pose proof (reduce_choices_ids a (choices (store w)) Ha) as Hp.
    rewrite <- (length_map Choice.id (reduce_choices a _)).
    rewrite (Permutation_length Hp), length_map.
    rewrite Hp. exact H.
Qed.

Lemma choiceIdsUpTo_run opts t fuse ops :
  choiceIdsUpTo (choices (store (run ops (new_Choices opts t fuse)))).
Proof.
  apply (run_steady _ choiceIdsUpTo_steady).
  - intros v l c w H. unfold choiceIdsUpTo in *.
    pose proof (choiceIds_addItem _ v l c CbUndefined w eq_refl) as E.
    cbv beta in E.
    rewrite <- (length_map Choice.id (choices (store (snd _)))), E, length_map.
    exact H.
  - intros v l g d w H.
    destruct (dispatch_fields (actions.addChoice v l (nextChoiceId w) g d) w)
      as (Hs & _).
    rewrite Hs. cbn. unfold choiceIdsUpTo in *.
    rewrite map_app, length_app, seq_app, map_app.
    apply Permutation_app; [exact H | reflexivity].
  - intros w H.
    destruct (dispatch_fields actions.clearAll w) as (Hs & _). unfold exec in Hs.
    rewrite Hs. apply perm_nil.
  - unfold new_Choices.
    destruct (render_fields (blank opts t fuse)) as (Hs & _).
    rewrite Hs. apply perm_nil.
Qed.

(** X1. Whatever the sequence of operations on a new instance, the ids of
    the choice log are pairwise distinct, and they are the numbers from 1 to
    the length of the log, in the order in which the store keeps the
    choices; a further [_addChoice] with a non-empty value leaves them in
    place and puts the next id, the length of the log plus one, at the
    end. *)
Theorem choice_ids_unique_and_consecutive :
  forall opts t fuse ops,
    let w := run ops (new_Choices opts t fuse) in
    let ids := map Choice.id (choices (store w)) in
    NoDup ids
    /\ (forall id, In id ids <-> 1 <= id <= Z.of_nat (List.length ids))
    /\ forall s d v l g,
         truthy v = true ->
         map Choice.id (choices (store (step (AddChoice s d v l g) w))) =
         ids ++ [Z.of_nat (List.length ids) + 1].
Proof.
  intros opts t fuse ops w ids.
  pose proof (choiceIdsUpTo_run opts t fuse ops) as H.
  unfold choiceIdsUpTo in H. fold w in H. fold ids in H.
  rewrite <- (length_map Choice.id), (length_map Choice.id) in H.
  replace (List.length (choices (store w))) with (List.length ids) in H
    by (subst ids; apply length_map).
  split; [|split].
  - apply (Permutation_NoDup (Permutation_sym H)).
    apply sorted_NoDup, countUp_sorted.
  - intros id. split.
    + intros Hin. apply (Permutation_in _ H) in Hin.
      apply in_map_iff in Hin. destruct Hin as (k & <- & Hk).
      apply in_seq in Hk. lia.
    + intros Hid. apply (Permutation_in _ (Permutation_sym H)).
      apply in_map_iff. exists (Z.to_nat (id - 1)). split; [lia|].
      apply in_seq. lia.
  - intros s d v l g Hv. cbn [step]. subst ids.
    rewrite _addChoice_ids by exact Hv. rewrite length_map. reflexivity.
Qed.

(** ** The calls of the add callback *)

Lemma reduce_items_announce (a : action) (s : list Item.t) :
  plainAction a -> map announce (reduce_items a s) = map announce s.
Proof.
  intros Ha. destruct a; cbn in *; try reflexivity; try contradiction;
    rewrite map_map; apply map_ext; intros i.
  - destruct (Item.id i =? id); reflexivity.
  - destruct ((Item.id i =? id) && Item.active i); reflexivity.
Qed.

Lemma dataLog_steady (o : Options) (C L : list callbackCall) :
  steady (fun w => options w = o /\ callbacks w = C
                   /\ map announce (items (store w)) = L).
Proof.
  apply steady_data.
  - intros w w' (Hs & Ho & _ & Hc) H. rewrite Hs, Ho, Hc. exact H.
  - intros a Ha w (H1 & H2 & H3).
    destruct (dispatch_fields a w)
      as (Hs & Ho & _ & _ & _ & _ & _ & _ & _ & _ & _ & _ & Hc & _).
    unfold exec in *. rewrite Hs, Ho, Hc. cbn.
    rewrite reduce_items_announce by assumption. auto.
Qed.

(** What [_addItem] does to the data: one item more in the log and, with a
    function for callback, one call of it more, with the id and the value of
    the new item. *)
Lemma _addItem_data v l c cb w :
  let w' := exec (_addItem v l c cb) w in
  let cb' := default_param cb (callbackOnAddItem (options w)) in
  options w' = options w
  /\ callbacks w' =
       callbacks w ++
       (if callback_truthy cb' && isFunction cb'
        then [OnAddItem (nextId w) (passedValue (options w) v)] else [])
  /\ map announce (items (store w')) =
       map announce (items (store w))
       ++ [OnAddItem (nextId w) (passedValue (options w) v)].
Proof.
  cbv zeta. rewrite _addItem_exec. cbv zeta.
  set (a := actions.addItem _ _ _ _).
  set (cb' := default_param cb (callbackOnAddItem (options w))).
  set (L := map announce (items (store w))
            ++ [OnAddItem (nextId w) (passedValue (options w) v)]).
  assert (H1 : options (exec (dispatch a) w) = options w
               /\ callbacks (exec (dispatch a) w) = callbacks w
               /\ map announce (items (store (exec (dispatch a) w))) = L).
  { destruct (dispatch_fields a w)
      as (Hs & Ho & _ & _ & _ & _ & _ & _ & _ & _ & _ & _ & Hc & _).
    rewrite Hs, Ho, Hc. cbn. rewrite map_app. auto. }
  match goal with
  | |- context [runAddCallback _ _ _ ?w2] =>
      assert (H2 : options w2 = options w /\ callbacks w2 = callbacks w
                   /\ map announce (items (store w2)) = L)
  end.
  { destruct (isSelectOne (passedElement_type w)); [|exact H1].
    apply (removeActiveItems_steady _ (dataLog_steady _ _ _)), H1. }
  destruct H2 as (Ho & Hc & Hl). unfold runAddCallback.
  destruct (callback_truthy cb'); [destruct (isFunction cb')|]; cbn;
    rewrite ?app_nil_r; rewrite Ho, Hc, Hl; auto.
Qed.

Lemma announced_steady pre : steady (announced pre).
Proof.
  apply steady_data.
  - intros w w' (Hs & Ho & _ & Hc) H. unfold announced. rewrite Hs, Ho, Hc. exact H.
  - intros a Ha w (H1 & H2).
    destruct (dispatch_fields a w)
      as (Hs & Ho & _ & _ & _ & _ & _ & _ & _ & _ & _ & _ & Hc & _).
    unfold announced, exec in *. rewrite Hs, Ho, Hc. cbn.
    rewrite reduce_items_announce by assumption. auto.
Qed.

Lemma announced_addItem pre v l c :
  preserves (announced pre) (_addItem v l c CbUndefined).
Proof.
  intros w (Hf & Hc).
  destruct (_addItem_data v l c CbUndefined w) as (Ho & Hc' & Hl).
  unfold announced. fold (exec (_addItem v l c CbUndefined) w).
  rewrite Ho, Hc', Hl. cbn [default_param]. rewrite Hf, Hc. cbn.
  rewrite app_assoc. auto.
Qed.

Lemma announced_addChoice pre v l g d w :
  announced pre w ->
  announced pre (exec (dispatch (actions.addChoice v l (nextChoiceId w) g d)) w).
Proof.
  intros (Hf & Hc).
  destruct (dispatch_fields (actions.addChoice v l (nextChoiceId w) g d) w)
    as (Hs & Ho & _ & _ & _ & _ & _ & _ & _ & _ & _ & _ & Hc' & _).
  unfold announced. rewrite Hs, Ho, Hc'. cbn. auto.
Qed.

Lemma announced_new opts t fuse :
  callbackOnAddItem opts = CbFunction -> announced [] (new_Choices opts t fuse).
Proof.
  intros Hf. unfold new_Choices, announced.
  destruct (render_fields (blank opts t fuse))
    as (Hs & Ho & _ & _ & _ & _ & _ & _ & _ & _ & _ & _ & Hc & _).
  rewrite Hs, Ho, Hc. cbn. auto.
Qed.

Lemma steady_ex {X} (P : X -> Choices -> Prop) :
  (forall x, steady (P x)) -> steady (fun w => exists x, P x w).
Proof.
  intros H.
  constructor;
    try solve [intros ? w [x Hx]; exists x; apply (H x); exact Hx].
  intros a Ha w [x Hx]. exists x. apply (sd_dispatch _ (H x) a Ha), Hx.
Qed.

(** X2. With a function for [callbackOnAddItem], whatever the operations on
    a new instance, the calls of the callback end with one call per item of
    the log, in the order of the log, each with the id and the value of its
    item; as long as [clearValue] is not called there are no other calls. *)
Theorem add_callback_announces_every_item :
  forall opts t fuse ops,
    callbackOnAddItem opts = CbFunction ->
    let w := run ops (new_Choices opts t fuse) in
    (exists pre, callbacks w = pre ++ map announce (items (store w)))
    /\ (existsb isClearValue ops = false ->
        callbacks w = map announce (items (store w))).
Proof.
  intros opts t fuse ops Hf w. split.
  - assert (H : exists pre, announced pre w).
    { apply (run_steady _ (steady_ex _ announced_steady)).
      + intros v l c w' [pre H]. exists pre. apply announced_addItem, H.
      + intros v l g d w' [pre H]. exists pre. apply announced_addChoice, H.
      + intros w' [pre [H1 H2]].
        destruct (dispatch_fields actions.clearAll w')
          as (Hs & Ho & _ & _ & _ & _ & _ & _ & _ & _ & _ & _ & Hc & _).
        exists (callbacks w'). unfold announced, exec in *.
        rewrite Hs, Ho, Hc. cbn. rewrite app_nil_r. auto.
      + exists []. apply announced_new, Hf. }
    destruct H as [pre [_ H]]. exists pre. exact H.
  - intros Hops.
    assert (H : announced [] w).
    { apply (run_steady_kept _ (announced_steady [])); try exact Hops.
      + intros v l c. apply announced_addItem.
      + intros v l g d w'. apply announced_addChoice.
      + apply announced_new, Hf. }
    exact (proj2 H).
Qed.

Lemma add_callback_announces_every_item_witness :
  let w := run (typeAndEnter "a" ++ typeAndEnter "b")
             (new_Choices defaultOptions text noFuse) in
  callbackOnAddItem defaultOptions = CbFunction
  /\ callbacks w = [OnAddItem 1 "a"; OnAddItem 2 "b"].
Proof.
  split; [reflexivity|].
  exact (proj2 (add_callback_announces_every_item defaultOptions text noFuse
                  (typeAndEnter "a" ++ typeAndEnter "b") eq_refl) eq_refl).
Defined.

(** ** Highlighting and rendering the choice list *)

Lemma _highlightChoice_exec el w :
  exec (_highlightChoice el) w =
  if (1 <=? List.length (selectableEls w))%nat
  then let els := addHighlight (highlightTarget w el)
                    (map removeHighlight (choiceList w)) in
       match el with
       | Some k => set_highlightPosition k (set_choiceList els w)
       | None => set_choiceList els w
       end
  else w.
Proof.
  unfold _highlightChoice. rewrite exec_call.
  unfold exec, bind, gets, when, modify, skip, ret, highlightTarget.
  destruct (1 <=? List.length (selectableEls w))%nat; [destruct el|]; reflexivity.
Qed.

Lemma render_exec w :
  exec render w =
  let its := filteredByActive (items (store w)) in
  let w1 :=
    if isText (passedElement_type w) then w
    else let frag := choiceListFragment (passedElement_type w) (store w)
                       (isSearching w) in
         if (1 <=? List.length frag)%nat
         then exec (_highlightChoice None) (set_choiceList frag w)
         else set_choiceList [NoticeEl (emptyNotice (isSearching w))] w in
  set_itemList its
    (if isText (passedElement_type w)
     then set_passedElement_value
            (join (delimiter (options w)) (itemsReducedToValues its)) w1
     else w1).
Proof.
  unfold render. rewrite exec_call. unfold exec, renderItems.
  destruct (passedElement_type w) eqn:Et;
    repeat first [ sym_step | rewrite Et; cbn [isText negb when] ];
    [ reflexivity | | ];
    match type of Et with
    | _ = ?t =>
        fold (choiceListFragment t (store w) (isSearching w));
        destruct (1 <=? List.length (choiceListFragment t (store w) (isSearching w)))%nat
    end;
    sym;
    try match goal with
        | |- context [exec (_highlightChoice None) ?x] =>
            destruct (_highlightChoice_fields None x) as ((Hs & Ho & Ht & _) & _);
            rewrite Hs, Ho, Ht
        end;
    cbn [passedElement_type set_choiceList store options]; rewrite Et;
    reflexivity.
Qed.

(** [render] as a function of the instance. *)
Lemma render_view w :
  exec render w =
  let its := filteredByActive (items (store w)) in
  set_itemList its
    (if isText (passedElement_type w)
     then set_passedElement_value
            (join (delimiter (options w)) (itemsReducedToValues its)) w
     else set_choiceList (renderedChoiceList w) w).
Proof.
  rewrite render_exec. cbv zeta.
  destruct (isText (passedElement_type w)); [reflexivity|].
  unfold renderedChoiceList.
  destruct (1 <=? List.length (choiceListFragment _ _ _))%nat; [|reflexivity].
  rewrite _highlightChoice_exec. unfold highlightedAt, highlightTarget, selectableEls, dropdownEls.
  cbn [choiceList set_choiceList dropdown_notice highlightPosition].
  match goal with |- context [(1 <=? ?n)%nat] => destruct (1 <=? n)%nat end;
    reflexivity.
Qed.

(** X3. Rendering twice is rendering once: what [render] builds is a
    function of the state, the highlight position and the type of the passed
    element, none of which it changes. *)
Theorem render_is_idempotent :
  forall w, exec render (exec render w) = exec render w.
Proof.
  intros w. rewrite (render_view (exec render w)). rewrite !render_view.
  cbv zeta. unfold renderedChoiceList.
  destruct (isText (passedElement_type w)) eqn:Et;
    cbn [passedElement_type set_itemList set_passedElement_value set_choiceList
         store options isSearching dropdown_notice highlightPosition
         Fuse_search passedElement_value input_value itemList choiceList
         dropdown_active canSearch currentValue console_error callbacks
         dispatched];
    rewrite Et; reflexivity.
Qed.

Lemma choicesOf_app a b : choicesOf (a ++ b) = choicesOf a ++ choicesOf b.
Proof. unfold choicesOf. apply flat_map_app. Qed.

Lemma choicesOf_removeHighlight els :
  choicesOf (map removeHighlight els) = choicesOf els.
Proof.
  induction els as [|e els IH]; [reflexivity|].
  cbn. unfold choicesOf in IH. rewrite IH. destruct e; reflexivity.
Qed.

Lemma choicesOf_addHighlight k els : choicesOf (addHighlight k els) = choicesOf els.
Proof.
  revert k; induction els as [|e els IH]; intros k; [reflexivity|].
  unfold choicesOf in *. destruct e as [g|c h|l]; cbn.
  - apply IH.
  - destruct (negb (Choice.disabled c)); [destruct k|]; cbn;
      rewrite ?IH; reflexivity.
  - apply IH.
Qed.

Lemma choicesOf_highlightedAt n p els :
  choicesOf (highlightedAt n p els) = choicesOf els.
Proof.
  unfold highlightedAt. cbv zeta.
  match goal with |- context [(1 <=? ?x)%nat] => destruct (1 <=? x)%nat end;
    [|reflexivity].
  rewrite choicesOf_addHighlight. apply choicesOf_removeHighlight.
Qed.

Lemma choicesOf_renderOptions t opts :
  choicesOf (renderOptions t opts) = filter (offerable t) opts.
Proof.
  unfold renderOptions, offerable.
  induction opts as [|c opts IH]; [reflexivity|].
  cbn [flat_map filter]. rewrite choicesOf_app, IH.
  destruct (isSelectOne t); [reflexivity|].
  destruct (Choice.selected c); reflexivity.
Qed.

Lemma groupOptions_offerable t g opts :
  filter (fun option_ =>
            if isSelectOne t
            then Choice.groupId option_ =? Group.id g
            else (Choice.groupId option_ =? Group.id g)
                 && negb (Choice.selected option_)) opts =
  filter (fun c => (Choice.groupId c =? Group.id g) && offerable t c) opts.
Proof.
  apply filter_ext. intros c. unfold offerable.
  destruct (isSelectOne t); [rewrite andb_true_r|]; reflexivity.
Qed.

Lemma filter_idem {A} (p : A -> bool) (l : list A) :
  filter p (filter p l) = filter p l.
Proof.
  induction l as [|x l IH]; [reflexivity|].
  cbn. destruct (p x) eqn:E; cbn; rewrite ?E, IH; reflexivity.
Qed.

Lemma filter_filter_and {A} (p q : A -> bool) (l : list A) :
  filter q (filter (fun x => p x && q x) l) = filter (fun x => p x && q x) l.
Proof.
  induction l as [|x l IH]; [reflexivity|].
  cbn. destruct (p x), (q x) eqn:E; cbn; rewrite ?E, IH; reflexivity.
Qed.

Lemma choicesOf_renderGroups t grps opts :
  choicesOf (renderGroups t grps opts) =
  flat_map (fun g => filter (fun c => (Choice.groupId c =? Group.id g)
                                      && offerable t c) opts) grps.
Proof.
  unfold renderGroups.
  induction grps as [|g grps IH]; [reflexivity|].
  cbn [flat_map]. rewrite choicesOf_app, IH. f_equal.
  rewrite groupOptions_offerable.
  destruct (1 <=? _)%nat eqn:E.
  - change (choicesOf (OptGroupEl g :: ?l)) with (choicesOf l).
    rewrite choicesOf_renderOptions. apply filter_filter_and.
  - destruct (filter _ opts); [reflexivity | discriminate E].
Qed.

Lemma offered_render w :
  isText (passedElement_type w) = false ->
  offered (exec render w) =
  choicesOf (choiceListFragment (passedElement_type w) (store w) (isSearching w)).
Proof.
  intros Et. rewrite render_view. cbv zeta. rewrite Et.
  unfold offered, renderedChoiceList. cbn [choiceList set_itemList set_choiceList].
  destruct (1 <=? _)%nat eqn:E.
  - apply choicesOf_highlightedAt.
  - destruct (choiceListFragment _ _ _); [reflexivity | discriminate E].
Qed.

(** X4. The choices that a select offers after [render]: with an active
    group, while no search is on, the active choices of each active group in
    turn; otherwise the active choices; in both cases in a select-one all of
    them and in a select-multiple those that are not selected.  So a choice
    that belongs to no active group is not offered while there are active
    groups, unless a search is on. *)
Theorem render_offers_active_choices :
  forall w,
    passedElement_type w <> text ->
    let t := passedElement_type w in
    let activeGroups := groupsFilteredByActive (groups (store w)) in
    let activeChoices := choicesFilteredByActive (choices (store w)) in
    offered (exec render w) =
    if (1 <=? List.length activeGroups)%nat && negb (isSearching w)
    then flat_map (fun g => filter (fun c => (Choice.groupId c =? Group.id g)
                                             && offerable t c) activeChoices)
           activeGroups
    else filter (offerable t) activeChoices.
Proof.
  intros w Ht.
  assert (Et : isText (passedElement_type w) = false)
    by (destruct (passedElement_type w); [contradiction | reflexivity | reflexivity]).
  intros t activeGroups activeChoices.
  rewrite offered_render by exact Et.
  unfold choiceListFragment. cbv zeta.
  fold t activeGroups activeChoices.
  destruct ((1 <=? List.length activeGroups)%nat && negb (isSearching w)).
  - apply choicesOf_renderGroups.
  - destruct (1 <=? List.length activeChoices)%nat eqn:E.
    + apply choicesOf_renderOptions.
    + destruct activeChoices; [reflexivity | discriminate E].
Qed.

Lemma render_offers_active_choices_witness :
  let w := run [AddChoice false false "x" None None;
                AddChoice false false "y" None None]
             (new_Choices defaultOptions select_multiple exactFuse) in
  passedElement_type w <> text
  /\ map Choice.value (offered (exec render w)) = ["x"; "y"].
Proof.
  intros w.
  assert (Ht : passedElement_type w <> text) by (vm_compute; discriminate).
  split; [exact Ht|].
  rewrite (render_offers_active_choices w Ht). vm_compute. reflexivity.
Defined.

Lemma renderOptions_nil t opts :
  choicesOf (renderOptions t opts) = [] -> renderOptions t opts = [].
Proof.
  unfold renderOptions. induction opts as [|c opts IH]; [reflexivity|].
  cbn [flat_map]. rewrite choicesOf_app.
  destruct (isSelectOne t); [discriminate|].
  destruct (negb (Choice.selected c)); [discriminate|]. exact IH.
Qed.

Lemma renderGroups_nil t grps opts :
  choicesOf (renderGroups t grps opts) = [] -> renderGroups t grps opts = [].
Proof.
  unfold renderGroups. induction grps as [|g grps IH]; [reflexivity|].
  cbn [flat_map]. rewrite choicesOf_app. intros H.
  apply app_eq_nil in H. destruct H as [H1 H2]. rewrite (IH H2), app_nil_r.
  destruct (1 <=? _)%nat eqn:E; [|reflexivity]. exfalso.
  change (choicesOf (OptGroupEl g :: ?l)) with (choicesOf l) in H1.
  rewrite choicesOf_renderOptions, groupOptions_offerable, filter_filter_and in H1.
  rewrite groupOptions_offerable, H1 in E. discriminate E.
Qed.

Lemma choiceListFragment_nil t st s :
  choicesOf (choiceListFragment t st s) = [] -> choiceListFragment t st s = [].
Proof.
  unfold choiceListFragment. cbv zeta.
  destruct (_ && _); [apply renderGroups_nil|].
  destruct (1 <=? _)%nat; [apply renderOptions_nil | reflexivity].
Qed.

(** X5. After [render] the choice list of a select holds the notice, No
    results found while a search is on and No choices to choose from
    otherwise, exactly when it offers no choice. *)
Theorem render_notice_iff_nothing_offered :
  forall w,
    passedElement_type w <> text ->
    offered (exec render w) = []
    <-> choiceList (exec render w) = [NoticeEl (emptyNotice (isSearching w))].
Proof.
  intros w Ht.
  assert (Et : isText (passedElement_type w) = false)
    by (destruct (passedElement_type w); [contradiction | reflexivity | reflexivity]).
  split.
  - rewrite offered_render by exact Et. intros H.
    apply choiceListFragment_nil in H.
    rewrite render_view. cbv zeta. rewrite Et.
    cbn [choiceList set_itemList set_choiceList].
    unfold renderedChoiceList. rewrite H. reflexivity.
  - unfold offered. intros ->. reflexivity.
Qed.

Lemma render_notice_iff_nothing_offered_witness :
  let w := new_Choices defaultOptions select_one exactFuse in
  passedElement_type w <> text
  /\ choiceList (exec render w) = [NoticeEl "No choices to choose from"].
Proof.
  intros w.
  assert (Ht : passedElement_type w <> text) by (vm_compute; discriminate).
  split; [exact Ht|].
  apply (proj1 (render_notice_iff_nothing_offered w Ht)). reflexivity.
Defined.

(** ** At most one highlighted option *)

Lemma count_removeHighlight els : countHighlighted (map removeHighlight els) = 0%nat.
Proof.
  unfold countHighlighted. induction els as [|e els IH]; [reflexivity|].
  destruct e; cbn; exact IH.
Qed.

Lemma count_addHighlight k els :
  countHighlighted els = 0%nat ->
  countHighlighted (addHighlight k els) =
  if (k <? List.length (filter isSelectableEl els))%nat then 1%nat else 0%nat.
Proof.
  unfold countHighlighted.
  revert k; induction els as [|e els IH]; intros k H; [reflexivity|].
  destruct e as [g|c h|l]; cbn in *.
  - apply IH, H.
  - destruct h; [discriminate H|].
    destruct (negb (Choice.disabled c)); cbn.
    + destruct k; cbn.
      * rewrite H. reflexivity.
      * rewrite IH by exact H. reflexivity.
    + apply IH, H.
  - apply IH, H.
Qed.

Lemma selectable_removeHighlight els :
  filter isSelectableEl (map removeHighlight els) =
  map removeHighlight (filter isSelectableEl els).
Proof.
  induction els as [|e els IH]; [reflexivity|].
  destruct e as [g|c h|l]; cbn; rewrite ?IH; try reflexivity.
  destruct (negb (Choice.disabled c)); cbn; rewrite ?IH; reflexivity.
Qed.

Lemma selectable_addHighlight k els :
  filter isSelectableEl (addHighlight k els) =
  addHighlight k (filter isSelectableEl els).
Proof.
  revert k; induction els as [|e els IH]; intros k; [reflexivity|].
  destruct e as [g|c h|l]; cbn; rewrite ?IH; try reflexivity.
  destruct (negb (Choice.disabled c)) eqn:E; cbn; rewrite ?E.
  - destruct k; cbn; rewrite ?E, ?IH; reflexivity.
  - apply IH.
Qed.

Lemma highlightedIndex_addHighlight k els :
  (forall e, In e els -> isSelectableEl e = true /\ isHighlightedEl e = false) ->
  (k < List.length els)%nat ->
  highlightedIndex (addHighlight k els) = Some k.
Proof.
  revert k; induction els as [|e els IH]; intros k H Hk; [cbn in Hk; lia|].
  destruct (H e (or_introl eq_refl)) as [Hs Hh].
  destruct e as [g|c h|l]; try discriminate Hs. cbn in Hs, Hh. subst h.
  cbn. rewrite Hs. destruct k; [reflexivity|].
  cbn. rewrite IH; [reflexivity | | cbn in Hk; lia].
  intros e He. apply H. right. exact He.
Qed.

Lemma selectable_unhighlighted els e :
  In e (map removeHighlight (filter isSelectableEl els)) ->
  isSelectableEl e = true /\ isHighlightedEl e = false.
Proof.
  intros H. apply in_map_iff in H. destruct H as (e0 & <- & H0).
  apply filter_In in H0. destruct H0 as [_ H0].
  destruct e0; try discriminate H0. split; [exact H0 | reflexivity].
Qed.

(** X6. [_highlightChoice], when the dropdown shows the choice list and the
    option aimed at exists, leaves that option highlighted and no other; the
    option aimed at is the one given or, with none given, the one at the
    highlight position, or the last one when the position lies beyond.  The
    highlight position becomes that of the option given, and stays as it is
    when none is given. *)
Theorem highlightChoice_highlights_one :
  forall w el,
    dropdown_notice w = None ->
    (highlightTarget w el < List.length (selectableEls w))%nat ->
    let w' := exec (_highlightChoice el) w in
    highlightedIndex (selectableEls w') = Some (highlightTarget w el)
    /\ countHighlighted (choiceList w') = 1%nat
    /\ highlightPosition w' =
         match el with Some k => k | None => highlightPosition w end
    /\ choicesOf (choiceList w') = choicesOf (choiceList w).
Proof.
  intros w el Hn Hk. cbv zeta. rewrite _highlightChoice_exec.
  assert (H1 : (1 <=? List.length (selectableEls w))%nat = true)
    by (apply Nat.leb_le; lia).
  rewrite H1. cbv zeta.
  assert (Hsel : selectableEls w = filter isSelectableEl (choiceList w))
    by (unfold selectableEls, dropdownEls; rewrite Hn; reflexivity).
  set (els := addHighlight (highlightTarget w el)
                (map removeHighlight (choiceList w))).
  assert (H : highlightedIndex (filter isSelectableEl els)
              = Some (highlightTarget w el)
              /\ countHighlighted els = 1%nat
              /\ choicesOf els = choicesOf (choiceList w)).
  { subst els. rewrite selectable_addHighlight, selectable_removeHighlight.
    rewrite count_addHighlight by apply count_removeHighlight.
    rewrite selectable_removeHighlight, length_map, <- Hsel.
    rewrite choicesOf_addHighlight, choicesOf_removeHighlight.
    split; [|split; [|reflexivity]].
    - apply highlightedIndex_addHighlight.
      + rewrite Hsel. apply selectable_unhighlighted.
      + rewrite length_map. exact Hk.
    - apply Nat.ltb_lt in Hk. rewrite Hk. reflexivity. }
  destruct H as (Ha & Hb & Hc).
  destruct el; unfold selectableEls, dropdownEls;
    cbn [dropdown_notice choiceList highlightPosition set_choiceList
         set_highlightPosition]; rewrite Hn; auto.
Qed.

Lemma highlightChoice_highlights_one_witness :
  let w := run [AddChoice false false "x" None None;
                AddChoice false false "y" None None]
             (new_Choices defaultOptions select_multiple exactFuse) in
  let w' := exec (_highlightChoice (Some 1%nat)) w in
  dropdown_notice w = None
  /\ (1 < List.length (selectableEls w))%nat
  /\ highlightedIndex (selectableEls w') = Some 1%nat
  /\ highlightPosition w' = 1%nat.
Proof.
  intros w w'.
  assert (Hn : dropdown_notice w = None) by (vm_compute; reflexivity).
  assert (Hk : (highlightTarget w (Some 1%nat) < List.length (selectableEls w))%nat)
    by (vm_compute; reflexivity).
  split; [exact Hn | split; [exact Hk|]].
  destruct (highlightChoice_highlights_one w (Some 1%nat) Hn Hk) as (Ha & _ & Hc & _).
  split; [exact Ha | exact Hc].
Defined.

Lemma count_app a b :
  countHighlighted (a ++ b) = (countHighlighted a + countHighlighted b)%nat.
Proof. unfold countHighlighted. rewrite filter_app, length_app. reflexivity. Qed.

Lemma count_renderOptions t opts : countHighlighted (renderOptions t opts) = 0%nat.
Proof.
  unfold renderOptions. induction opts as [|c opts IH]; [reflexivity|].
  cbn [flat_map]. rewrite count_app, IH.
  destruct (isSelectOne t); [reflexivity|].
  destruct (negb (Choice.selected c)); reflexivity.
Qed.

Lemma count_renderGroups t grps opts :
  countHighlighted (renderGroups t grps opts) = 0%nat.
Proof.
  unfold renderGroups. induction grps as [|g grps IH]; [reflexivity|].
  cbn [flat_map]. rewrite count_app, IH.
  destruct (1 <=? _)%nat; [|reflexivity].
  change (countHighlighted (OptGroupEl g :: ?l)) with (countHighlighted l).
  rewrite count_renderOptions. reflexivity.
Qed.

Lemma count_fragment t st s : countHighlighted (choiceListFragment t st s) = 0%nat.
Proof.
  unfold choiceListFragment. cbv zeta.
  destruct (_ && _); [apply count_renderGroups|].
  destruct (1 <=? _)%nat; [apply count_renderOptions | reflexivity].
Qed.

Lemma count_highlighted_again k els :
  (countHighlighted (addHighlight k (map removeHighlight els)) <= 1)%nat.
Proof.
  rewrite count_addHighlight by apply count_removeHighlight.
  destruct (k <? _)%nat; lia.
Qed.

Lemma count_rendered w : (countHighlighted (renderedChoiceList w) <= 1)%nat.
Proof.
  unfold renderedChoiceList. cbv zeta.
  destruct (1 <=? _)%nat; [|cbn; lia].
  unfold highlightedAt. cbv zeta.
  destruct (1 <=? _)%nat; [apply count_highlighted_again|].
  rewrite count_fragment. lia.
Qed.

Lemma oneHighlight_dispatch a :
  preserves (fun w => (countHighlighted (choiceList w) <= 1)%nat) (dispatch a).
Proof.
  intros w H. change (countHighlighted (choiceList (exec (dispatch a) w)) <= 1)%nat.
  rewrite dispatch_exec, render_view. cbv zeta.
  cbn [passedElement_type set_store log_dispatched].
  destruct (isText (passedElement_type w)).
  - exact H.
  - cbn [choiceList set_itemList set_choiceList]. apply count_rendered.
Qed.

Lemma oneHighlight_steady :
  steady (fun w => (countHighlighted (choiceList w) <= 1)%nat).
Proof.
  constructor; try (intros ? w H; exact H).
  - intros el w H.
    change (countHighlighted (choiceList (exec (_highlightChoice el) w)) <= 1)%nat.
    rewrite _highlightChoice_exec.
    destruct (1 <=? _)%nat; [|exact H]. cbv zeta.
    destruct el; cbn [choiceList set_choiceList set_highlightPosition];
      apply count_highlighted_again.
  - intros a _. apply oneHighlight_dispatch.
Qed.

(** X7. Whatever the sequence of operations on a new instance, at most one
    option of the choice list is highlighted. *)
Theorem at_most_one_option_highlighted :
  forall opts t fuse ops,
    (countHighlighted (choiceList (run ops (new_Choices opts t fuse))) <= 1)%nat.
Proof.
  intros opts t fuse ops.
  apply (run_steady _ oneHighlight_steady).
  - intros v l c. apply (_addItem_steady_from _ oneHighlight_steady).
    + intros v' l' c' w. apply oneHighlight_dispatch.
    + intros id v' w H. exact H.
  - intros v l g d w. apply oneHighlight_dispatch.
  - apply oneHighlight_dispatch.
  - unfold new_Choices. rewrite render_view. cbv zeta.
    destruct (isText (passedElement_type (blank opts t fuse))).
    + cbn. lia.
    + cbn [choiceList set_itemList set_choiceList]. apply count_rendered.
Qed.

(** ** Calls with nothing to act on, and key events *)

(** X8. Called without an item, [selectItem] and [deselectItem] return
    undefined and leave the instance as it is; [_removeItem] reports the
    missing item on the console, returns undefined and leaves the rest of the
    instance as it is: nothing is dispatched and no callback is looked at. *)
Theorem methods_without_item :
  forall cb w,
    selectItem None w = (Normal undefined, w)
    /\ deselectItem None w = (Normal undefined, w)
    /\ _removeItem None cb w =
         (Normal undefined,
          log_console_error "removeItem: No item object was passed to be removed" w).
Proof.
  intros cb w. repeat split.
Qed.

(** X9. A key event whose target is not the input of the widget is
    ignored: [_onKeyDown] and [_onKeyUp] return undefined at once and leave
    the instance as it is. *)
Theorem key_events_elsewhere_are_ignored :
  forall e w,
    targetIsInput e = false ->
    _onKeyDown e w = (Normal undefined, w)
    /\ _onKeyUp e w = (Normal undefined, w).
Proof.
  intros e w He. unfold _onKeyDown, _onKeyUp, call.
  rewrite He. cbn [negb when]. rewrite !bind_return. split; reflexivity.
Qed.

Lemma key_events_elsewhere_are_ignored_witness :
  let e := {| keyCode := enterKey; ctrlKey := false; metaKey := false;
              targetIsInput := false; inputIsActiveElement := true |} in
  let w := set_input_value "a" (new_Choices defaultOptions text noFuse) in
  targetIsInput e = false /\ exec (_onKeyDown e) w = w.
Proof.
  intros e w. split; [reflexivity|].
  unfold exec.
  rewrite (proj1 (key_events_elsewhere_are_ignored e w eq_refl)). reflexivity.
Defined.

(** X10. Escape on the input closes the dropdown when it is open and
    leaves it closed otherwise; nothing else changes but the search flag,
    which every key-down sets from the options. *)
Theorem escape_closes_the_dropdown :
  forall e w,
    targetIsInput e = true -> keyCode e = escapeKey ->
    let w1 := set_canSearch (searchOptions (options w)) w in
    let w' := exec (_onKeyDown e) w in
    w' = (if dropdown_active w then set_dropdown_active false w1 else w1)
    /\ dropdown_active w' = false.
Proof.
  intros e w He Hk.
  assert (E : exec (_onKeyDown e) w =
              if dropdown_active w
              then set_dropdown_active false
                     (set_canSearch (searchOptions (options w)) w)
              else set_canSearch (searchOptions (options w)) w).
  { unfold _onKeyDown. rewrite exec_call. unfold exec.
    rewrite He, Hk. cbn [negb when]. sym.
    change (isSearchKey escapeKey) with false.
    rewrite andb_false_r. cbn [andb when]. sym.
    change (escapeKey =? aKey) with false.
    change (escapeKey =? enterKey) with false.
    change (escapeKey =? escapeKey) with true. cbv iota.
    destruct (dropdown_active w) eqn:Ea; cbn [when]; sym;
      cbn [dropdown_active set_canSearch negb]; rewrite ?Ea; reflexivity. }
  cbv zeta. rewrite E. split; [reflexivity|].
  destruct (dropdown_active w) eqn:Ea; [reflexivity | exact Ea].
Qed.

Lemma escape_closes_the_dropdown_witness :
  let w := run [Input "a"; KeyUp (keyOnInput 65 false false)]
             (new_Choices defaultOptions text noFuse) in
  let e := keyOnInput escapeKey false false in
  targetIsInput e = true /\ keyCode e = escapeKey
  /\ dropdown_active w = true
  /\ dropdown_active (exec (_onKeyDown e) w) = false.
Proof.
  intros w e. split; [reflexivity | split; [reflexivity|]].
  split; [vm_compute; reflexivity|].
  exact (proj2 (escape_closes_the_dropdown e w eq_refl eq_refl)).
Defined.

Lemma _highlightChoice_choices el w :
  choicesOf (choiceList (exec (_highlightChoice el) w)) = choicesOf (choiceList w).
Proof.
  rewrite _highlightChoice_exec.
  destruct (1 <=? _)%nat; [|reflexivity]. cbv zeta.
  destruct el; cbn [choiceList set_choiceList set_highlightPosition];
    rewrite choicesOf_addHighlight; apply choicesOf_removeHighlight.
Qed.

(** X11. An arrow key on the input, while the dropdown is open, moves the
    highlight at most: the store, the text of the input and the choices
    offered stay as they are and nothing is dispatched; as it turns the
    search flag off, the key-up of the same key dispatches nothing either. *)
Theorem arrow_keys_move_the_highlight_only :
  forall e w,
    targetIsInput e = true ->
    keyCode e = upKey \/ keyCode e = downKey ->
    dropdown_active w = true ->
    let w1 := exec (_onKeyDown e) w in
    store w1 = store w /\ input_value w1 = input_value w
    /\ offered w1 = offered w
    /\ dispatched w1 = dispatched w
    /\ canSearch w1 = false
    /\ dispatched (exec (_onKeyUp e) w1) = dispatched w.
Proof.
  intros e w He Hk Ha. cbv zeta.
  assert (E : exists el,
             exec (_onKeyDown e) w =
             match el with
             | Some k => exec (_highlightChoice (Some k))
                           (set_canSearch false
                              (set_canSearch (searchOptions (options w)) w))
             | None => set_canSearch false
                         (set_canSearch (searchOptions (options w)) w)
             end).
  { unfold _onKeyDown. rewrite exec_call. unfold exec.
    rewrite He. cbn [negb when]. sym. rewrite Ha. cbn [negb].
    rewrite andb_false_r. cbn [when]. sym.
    assert (E1 : (keyCode e =? aKey) = false) by (destruct Hk as [-> | ->]; reflexivity).
    assert (E2 : (keyCode e =? enterKey) = false)
      by (destruct Hk as [-> | ->]; reflexivity).
    assert (E3 : (keyCode e =? escapeKey) = false)
      by (destruct Hk as [-> | ->]; reflexivity).
    assert (E4 : (keyCode e =? downKey) || (keyCode e =? upKey) = true)
      by (destruct Hk as [-> | ->]; reflexivity).
    rewrite E1, E2, E3, E4. cbn [when]. sym.
    match goal with
    | |- context [match ?x with Some k => _ | None => skip end] =>
        exists x; destruct x; sym; reflexivity
    end. }
  destruct E as [el E]. rewrite E.
  assert (H : store (exec (_onKeyDown e) w) = store w
              /\ input_value (exec (_onKeyDown e) w) = input_value w
              /\ offered (exec (_onKeyDown e) w) = offered w
              /\ dispatched (exec (_onKeyDown e) w) = dispatched w
              /\ canSearch (exec (_onKeyDown e) w) = false).
  { rewrite E. destruct el as [k|]; [|repeat split].
    unfold offered. rewrite _highlightChoice_choices.
    match goal with
    | |- context [exec (_highlightChoice ?x) ?y] =>
        destruct (_highlightChoice_fields x y)
          as ((Hs & _) & _ & _ & Hi & _ & _ & _ & Hc & _ & _ & _ & Hd)
    end.
    rewrite Hs, Hi, Hc, Hd. repeat split. }
  rewrite <- E. destruct H as (Hs & Hi & Ho & Hd & Hc).
  repeat (split; [assumption|]).
  rewrite _onKeyUp_dispatched. unfold keyUpActions.
  rewrite Hc, andb_false_r. cbn [andb]. rewrite app_nil_r. exact Hd.
Qed.

Lemma arrow_keys_move_the_highlight_only_witness :
  let w := run ([AddChoice false false "x" None None;
                 AddChoice false false "y" None None] ++ pressKey 88)
             (new_Choices defaultOptions select_multiple exactFuse) in
  let e := keyOnInput downKey false false in
  let w1 := exec (_onKeyDown e) w in
  targetIsInput e = true
  /\ (keyCode e = upKey \/ keyCode e = downKey)
  /\ dropdown_active w = true
  /\ store w1 = store w.
Proof.
  intros w e w1.
  assert (Ha : dropdown_active w = true) by (vm_compute; reflexivity).
  split; [reflexivity | split; [right; reflexivity | split; [exact Ha|]]].
  exact (proj1 (arrow_keys_move_the_highlight_only e w eq_refl
                  (or_intror eq_refl) Ha)).
Defined.

(** ** Removing and selecting several items *)

Lemma active_removeActiveItems x w :
  activeItems (exec (removeActiveItems x) w) =
  filter (fun i => negb (strictDiffers x (Item.id i))) (activeItems w).
Proof.
  unfold activeItems at 1. rewrite removeActiveItems_items, active_deactivate.
  fold (activeItems w). apply filter_ext_in. intros i Hi. f_equal.
  destruct (strictDiffers x (Item.id i)) eqn:E.
  - apply existsb_eqb_in. apply in_map. apply filter_In. split; [exact Hi|].
    unfold activeItems, filteredByActive in Hi. apply filter_In in Hi.
    rewrite (proj2 Hi), E. reflexivity.
  - destruct (existsb _ _) eqn:E'; [|reflexivity].
    apply existsb_eqb_in in E'. apply in_map_iff in E'.
    destruct E' as (j & Hj & Hin). apply filter_In in Hin.
    destruct Hin as [_ Hin]. apply andb_prop in Hin. rewrite Hj in Hin.
    rewrite E in Hin. destruct Hin; discriminate.
Qed.

(** X12. [removeActiveItems] leaves active the items that carry the
    excluded id and no other; with no id excluded it leaves no active item.
    It removes by deactivation: the log keeps its ids. *)
Theorem removeActiveItems_keeps_the_excluded_id :
  forall w,
    activeItems (exec (removeActiveItems None) w) = []
    /\ (forall id,
          activeItems (exec (removeActiveItems (Some id)) w) =
          filter (fun i => id =? Item.id i) (activeItems w))
    /\ forall x,
         map Item.id (items (store (exec (removeActiveItems x) w))) =
         map Item.id (items (store w)).
Proof.
  intros w. split; [|split].
  - rewrite active_removeActiveItems. cbn [strictDiffers negb].
    induction (activeItems w) as [|i s IH]; [reflexivity | exact IH].
  - intros id. rewrite active_removeActiveItems. apply filter_ext.
    intros i. cbn [strictDiffers]. apply negb_involutive.
  - intros x. rewrite removeActiveItems_items. unfold deactivate.
    rewrite map_map. apply map_ext. intros i.
    destruct (existsb _ _); reflexivity.
Qed.

(** X13. In any state that a run reaches, [removeSelectedItems] leaves
    active the active items that are not selected, in their order, and the
    log keeps its ids. *)
Theorem removeSelectedItems_removes_the_selected :
  forall opts t fuse ops,
    let w := run ops (new_Choices opts t fuse) in
    let w' := exec removeSelectedItems w in
    activeItems w' = filter (fun i => negb (Item.selected i)) (activeItems w)
    /\ map Item.id (items (store w')) = map Item.id (items (store w)).
Proof.
  intros opts t fuse ops w w'. subst w'. split.
  - unfold activeItems at 1. rewrite removeSelectedItems_items.
    apply active_without_selected, Inv_NoDup, Inv_run.
  - rewrite removeSelectedItems_items. unfold deactivate.
    rewrite map_map. apply map_ext. intros i.
    destruct (existsb _ _); reflexivity.
Qed.

Lemma deselectItem_run i w :
  deselectItem (Some i) w =
  (Normal this, exec (dispatch (actions.selectItem (Item.id i) false)) w).
Proof. unfold deselectItem, call. rewrite bind_dispatch. reflexivity. Qed.

Lemma forEach_normal {A} (xs : list A) (f : A -> M retval) w :
  (forall x, returns (f x)) ->
  forEach xs f w = (Normal tt, exec (forEach xs f) w).
Proof.
  intros Hf. revert w; induction xs as [|x xs IH]; intros w; [reflexivity|].
  cbn [forEach]. unfold exec. rewrite (bind_method _ _ w (Hf x)).
  rewrite IH. reflexivity.
Qed.

Lemma selectAll_nil b s : selectAll b [] s = s.
Proof. unfold selectAll. cbn. rewrite <- (map_id s) at 2. reflexivity. Qed.

Lemma selectAll_cons b a ids s :
  selectAll b (a :: ids) s =
  selectAll b ids (reduce_items (actions.selectItem a b) s).
Proof.
  unfold selectAll. cbn [reduce_items existsb]. rewrite map_map.
  apply map_ext. intros i.
  destruct (Item.id i =? a) eqn:E, (Item.active i) eqn:Ea; cbn;
    rewrite ?Ea, ?andb_false_r, ?andb_true_r; try reflexivity.
  destruct (existsb _ ids); destruct i; reflexivity.
Qed.

Lemma forEach_select_items (b : bool) (f : Item.t -> M retval) (its : list Item.t) w :
  (forall i w, f i w =
               (Normal undefined,
                exec (dispatch (actions.selectItem (Item.id i) b)) w)) ->
  items (store (exec (forEach its f) w)) =
  selectAll b (map Item.id its) (items (store w)).
Proof.
  intros Hf. revert w; induction its as [|i its IH]; intros w.
  - cbn. rewrite selectAll_nil. reflexivity.
  - cbn [forEach map]. unfold exec at 1.
    rewrite (bind_normal _ _ w _ _ (Hf i w)).
    change (snd (forEach its f ?x)) with (exec (forEach its f) x).
    rewrite IH, selectAll_cons.
    destruct (dispatch_fields (actions.selectItem (Item.id i) b) w) as (Hs & _).
    rewrite Hs. reflexivity.
Qed.

Lemma selectAll_own_ids b s :
  selectAll b (map Item.id s) s =
  map (fun i => if Item.active i then Item.set_selected b i else i) s.
Proof.
  unfold selectAll. apply map_ext_in. intros i Hi.
  assert (E : existsb (Z.eqb (Item.id i)) (map Item.id s) = true)
    by (apply existsb_eqb_in, in_map, Hi).
  rewrite E. reflexivity.
Qed.

Lemma highlightAll_items w :
  items (store (exec highlightAll w)) =
  map (fun i => if Item.active i then Item.set_selected true i else i)
    (items (store w)).
Proof.
  unfold highlightAll. rewrite exec_call. unfold exec. sym.
  rewrite bind_normal with (1 := forEach_normal _ _ w (fun i => returns_call _)).
  unfold return_. cbn [snd]. rewrite forEach_select_items with (b := true).
  - apply selectAll_own_ids.
  - intros i w0. unfold call. rewrite bind_normal with (1 := selectItem_run i w0).
    reflexivity.
Qed.

Lemma deselectAll_items w :
  items (store (exec deselectAll w)) =
  map (fun i => if Item.active i then Item.set_selected false i else i)
    (items (store w)).
Proof.
  unfold deselectAll. rewrite exec_call. unfold exec. sym.
  rewrite bind_normal with (1 := forEach_normal _ _ w (fun i => returns_call _)).
  unfold return_. cbn [snd]. rewrite forEach_select_items with (b := false).
  - apply selectAll_own_ids.
  - intros i w0. unfold call. rewrite bind_normal with (1 := deselectItem_run i w0).
    reflexivity.
Qed.

Lemma active_select_all b s :
  filteredByActive
    (map (fun i => if Item.active i then Item.set_selected b i else i) s) =
  map (Item.set_selected b) (filteredByActive s).
Proof.
  unfold filteredByActive. induction s as [|i s IH]; [reflexivity|].
  cbn. destruct (Item.active i) eqn:E; cbn; rewrite ?E, IH; reflexivity.
Qed.

(** X14. [highlightAll] marks every active item as selected and
    [deselectAll] marks none of them so; both leave the inactive items, and
    the ids, values and order of all items, as they are. *)
Theorem highlightAll_selects_every_active_item :
  forall w,
    items (store (exec highlightAll w)) =
      map (fun i => if Item.active i then Item.set_selected true i else i)
        (items (store w))
    /\ items (store (exec deselectAll w)) =
         map (fun i => if Item.active i then Item.set_selected false i else i)
           (items (store w))
    /\ activeItems (exec highlightAll w) =
         map (Item.set_selected true) (activeItems w)
    /\ activeItems (exec deselectAll w) =
         map (Item.set_selected false) (activeItems w).
Proof.
  intros w. unfold activeItems.
  rewrite highlightAll_items, deselectAll_items.
  rewrite (active_select_all true), (active_select_all false).
  repeat split.
Qed.

Lemma _onKeyDown_selectAll w ctrl meta :
  ctrl || meta = true ->
  exec (_onKeyDown (keyOnInput aKey ctrl meta)) w =
  let w0 := if negb (isText (passedElement_type w)) && negb (dropdown_active w)
            then set_dropdown_active true w else w in
  let w1 := set_canSearch false (set_canSearch (searchOptions (options w)) w0) in
  if removeItems (options w) && negb (truthy (input_value w))
  then exec highlightAll w1 else w1.
Proof.
  intros Hc. unfold _onKeyDown at 1. rewrite exec_call. unfold exec at 1.
  cbn [keyCode ctrlKey metaKey targetIsInput inputIsActiveElement keyOnInput negb when].
  rewrite Hc. sym.
  change (isSearchKey aKey) with true. rewrite andb_true_r.
  change (aKey =? aKey) with true. cbv iota. cbv zeta.
  destruct (negb (isText (passedElement_type w)) && negb (dropdown_active w));
    cbn [when]; sym;
    cbn [input_value options set_canSearch set_dropdown_active];
    rewrite andb_true_r;
    destruct (removeItems (options w) && negb (truthy (input_value w)));
    cbn [when]; sym; reflexivity.
Qed.

Lemma input_highlightAll x : preserves (fun w => input_value w = x) highlightAll.
Proof. unfold highlightAll. repeat pres_step. apply input_selectItem. Qed.

Lemma run_snoc ops o w : run (ops ++ [o]) w = step o (run ops w).
Proof. unfold run. rewrite fold_left_app. reflexivity. Qed.

Lemma all_selected_removed (s : list Item.t) :
  filter (fun i => negb (Item.selected i)) (map (Item.set_selected true) s) = [].
Proof. induction s as [|i s IH]; [reflexivity | exact IH]. Qed.

(** X15. Select all, then Backspace: in any state that a run reaches with
    an empty input, on a widget that is not a select-one and on which items
    can be removed, Ctrl+A or Cmd+A on the focused input marks every active
    item as selected, and Backspace or Delete then leaves no active item,
    whether or not items can be edited. *)
Theorem select_all_then_backspace_removes_all :
  forall opts t fuse ops ctrl meta code,
    t <> select_one -> removeItems opts = true ->
    ctrl || meta = true -> code = backKey \/ code = deleteKey ->
    let w := run ops (new_Choices opts t fuse) in
    input_value w = "" ->
    let w1 := step (KeyDown (keyOnInput aKey ctrl meta)) w in
    let w2 := step (KeyDown (keyOnInput code false false)) w1 in
    activeItems w1 = map (Item.set_selected true) (activeItems w)
    /\ input_value w1 = ""
    /\ activeItems w2 = [].
Proof.
  intros opts t fuse ops ctrl meta code Hne Hrm Hcm Hc w Hin w1 w2.
  destruct (run_new_facts opts t fuse ops) as (HI & Ho & Ht). fold w in HI, Ho, Ht.
  assert (E1 : exists w0, items (store w0) = items (store w)
                          /\ input_value w0 = "" /\ w1 = exec highlightAll w0).
  { subst w1. cbn [step]. rewrite (_onKeyDown_selectAll w ctrl meta Hcm).
    cbv zeta. rewrite Ho, Hrm, Hin. cbn [truthy negb andb].
    eexists. split; [|split; [|reflexivity]].
    - destruct (negb (isText (passedElement_type w)) && negb (dropdown_active w));
        reflexivity.
    - destruct (negb (isText (passedElement_type w)) && negb (dropdown_active w));
        exact Hin. }
  destruct E1 as (w0 & Hs0 & Hi0 & E1).
  assert (Ha1 : activeItems w1 = map (Item.set_selected true) (activeItems w)).
  { rewrite E1. unfold activeItems. rewrite highlightAll_items, active_select_all, Hs0.
    reflexivity. }
  assert (Hi1 : input_value w1 = "").
  { rewrite E1. apply (input_highlightAll "" w0 Hi0). }
  split; [exact Ha1 | split; [exact Hi1|]].
  pose proof (run_new_facts opts t fuse (ops ++ [KeyDown (keyOnInput aKey ctrl meta)]))
    as H1.
  cbv zeta in H1. rewrite run_snoc in H1. fold w in H1. fold w1 in H1.
  destruct H1 as (HI1 & Ho1 & Ht1).
  assert (Hs1 : isSelectOne (passedElement_type w1) = false)
    by (rewrite Ht1; destruct t; [reflexivity | contradiction | reflexivity]).
  assert (E2 : exists w1', items (store w1') = items (store w1)
                           /\ w2 = exec removeSelectedItems w1').
  { subst w2. cbn [step]. rewrite (_onKeyDown_backspace w1 code false false Hc).
    cbv zeta. rewrite Hi1, Hs1. cbn [truthy negb andb].
    rewrite _handleBackspace_exec. cbn [options set_canSearch].
    rewrite Ho1, Hrm.
    destruct (lastOf (activeItems w1)) as [i|] eqn:El.
    - assert (Hsel : existsb Item.selected (activeItems w1) = true).
      { destruct (lastOf_app _ _ El) as (A & HA). rewrite HA, existsb_app.
        assert (Hi : In i (activeItems w1)) by (rewrite HA; apply in_or_app; right; left; reflexivity).
        rewrite Ha1 in Hi. apply in_map_iff in Hi. destruct Hi as (j & <- & _).
        cbn. apply orb_true_r. }
      rewrite Hsel, andb_false_r. cbn [negb].
      eexists; split; [|reflexivity]. reflexivity.
    - eexists; split; [|reflexivity]. reflexivity. }
  destruct E2 as (w1' & Hs1' & E2).
  rewrite E2. unfold activeItems at 1. rewrite removeSelectedItems_items.
  unfold activeItems. rewrite Hs1'.
  rewrite active_without_selected by apply (Inv_NoDup w1 HI1).
  fold (activeItems w1). rewrite Ha1. apply all_selected_removed.
Qed.

Lemma select_all_then_backspace_removes_all_witness :
  let w := run (typeAndEnter "a" ++ typeAndEnter "b")
             (new_Choices defaultOptions text noFuse) in
  let w1 := step (KeyDown (keyOnInput aKey true false)) w in
  let w2 := step (KeyDown pressBackspace) w1 in
  text <> select_one /\ removeItems defaultOptions = true
  /\ input_value w = ""
  /\ List.length (activeItems w) = 2%nat
  /\ activeItems w2 = [].
Proof.
  intros w w1 w2.
  assert (Hin : input_value w = "") by (vm_compute; reflexivity).
  split; [discriminate | split; [reflexivity | split; [exact Hin|]]].
  split; [vm_compute; reflexivity|].
  exact (proj2 (proj2 (select_all_then_backspace_removes_all defaultOptions text
                         noFuse (typeAndEnter "a" ++ typeAndEnter "b") true false
                         deleteKey ltac:(discriminate) eq_refl eq_refl
                         (or_intror eq_refl) Hin))).
Defined.

(** ** What the methods return *)

Lemma removeLoop_returns_this (p : Item.t -> bool) w :
  valueOf (call (its <- gets (fun w => filteredByActive (items (store w))) ;;
                 forEach its (fun i =>
                   call (when (p i) (_removeItem (Some i) CbUndefined ;; skip))) ;;
                 return_ this)) w = this.
Proof.
  unfold valueOf, call at 1. sym.
  rewrite bind_normal with (1 := forEach_normal _ _ w (fun i => returns_call _)).
  reflexivity.
Qed.

(** X16. The public methods on items and on the dropdown return the
    instance, so that calls can be chained: [selectItem] and [deselectItem]
    given an item, [highlightAll], [deselectAll], [removeActiveItems],
    [removeSelectedItems], [showDropdown], [hideDropdown], [toggleDropdown],
    [clearValue] and [clearInput]. *)
Theorem public_methods_return_the_instance :
  forall w i x,
    valueOf (selectItem (Some i)) w = this
    /\ valueOf (deselectItem (Some i)) w = this
    /\ valueOf highlightAll w = this
    /\ valueOf deselectAll w = this
    /\ valueOf (removeActiveItems x) w = this
    /\ valueOf removeSelectedItems w = this
    /\ valueOf showDropdown w = this
    /\ valueOf hideDropdown w = this
    /\ valueOf toggleDropdown w = this
    /\ valueOf clearValue w = this
    /\ valueOf clearInput w = this.
Proof.
  intros w i x.
  split; [unfold valueOf; rewrite selectItem_run; reflexivity|].
  split; [unfold valueOf; rewrite deselectItem_run; reflexivity|].
  split.
  { unfold highlightAll, valueOf, call at 1. sym.
    rewrite bind_normal with (1 := forEach_normal _ _ w (fun i => returns_call _)).
    reflexivity. }
  split.
  { unfold deselectAll, valueOf, call at 1. sym.
    rewrite bind_normal with (1 := forEach_normal _ _ w (fun i => returns_call _)).
    reflexivity. }
  split; [apply removeLoop_returns_this|].
  split; [apply removeLoop_returns_this|].
  split; [reflexivity|]. split; [reflexivity|].
  split; [unfold valueOf; rewrite toggleDropdown_run; reflexivity|].
  split; [unfold clearValue, valueOf, call; sym; reflexivity|].
  unfold valueOf; rewrite clearInput_run; reflexivity.
Qed.

(** ** Additions *)

(** X17. [_addItem] always adds the item, with the next id and the value
    trimmed and wrapped in the prepend and append values, and returns the
    instance.  Its callback, the one passed or else [callbackOnAddItem] of the
    options, is called exactly once, with that id and that value, when it is
    a function; when it is something else that is not falsy, it is reported
    on the console and not called; when it is falsy nothing is called. *)
Theorem addItem_calls_its_callback_once :
  forall v l c cb w,
    let cb' := default_param cb (callbackOnAddItem (options w)) in
    let w' := exec (_addItem v l c cb) w in
    let call_ := OnAddItem (nextId w) (passedValue (options w) v) in
    valueOf (_addItem v l c cb) w = this
    /\ map announce (items (store w')) =
         map announce (items (store w)) ++ [call_]
    /\ callbacks w' = callbacks w ++ (if isFunction cb' then [call_] else [])
    /\ (callback_truthy cb' = true -> isFunction cb' = false ->
        In "callbackOnAddItem: Callback is not a function" (console_error w')).
Proof.
  intros v l c cb w cb' w' call_.
  destruct (_addItem_data v l c cb w) as (_ & Hc & Hl).
  fold w' cb' call_ in Hc, Hl.
  split; [|split; [exact Hl | split]].
  - unfold _addItem, valueOf, call at 1. sym.
    destruct (isSelectOne _); cbn [when]; sym;
      destruct (callback_truthy _); cbn [when];
      try destruct (isFunction _); sym; reflexivity.
  - rewrite Hc. destruct cb'; reflexivity.
  - intros Htr Hnf. subst w'. rewrite _addItem_exec. cbv zeta.
    fold cb'. unfold runAddCallback. rewrite Htr, Hnf.
    cbn [console_error log_console_error]. apply in_or_app. right. left. reflexivity.
Qed.

(** X18. With [addItems] off, Enter on a text input adds nothing, whatever
    was typed: the key-down changes nothing but the search flag. *)
Theorem enter_adds_nothing_when_addItems_is_off :
  forall opts fuse ops v ctrl meta,
    addItems opts = false ->
    let w := run ops (new_Choices opts text fuse) in
    step (KeyDown (keyOnInput enterKey ctrl meta)) (step (Input v) w) =
    set_canSearch (searchOptions opts) (set_input_value v w).
Proof.
  intros opts fuse ops v ctrl meta Hadd w.
  destruct (run_new_facts opts text fuse ops) as (HI & Ho & Ht). fold w in HI, Ho, Ht.
  cbn [step].
  assert (H0 : InvOf text (set_input_value v w))
    by (apply (st_input_value (InvOf_stable text)); split; assumption).
  rewrite (_onKeyDown_enter_text _ (keyOnInput enterKey ctrl meta) eq_refl eq_refl
             (proj1 H0) (proj2 H0)).
  cbv zeta. cbn [input_value set_input_value options]. rewrite Ho.
  destruct (truthy v); [|reflexivity].
  rewrite _handleEnter_exec. unfold canUpdate.
  cbn [options set_canSearch set_input_value]. rewrite Ho, Hadd. reflexivity.
Qed.

Lemma enter_adds_nothing_when_addItems_is_off_witness :
  let opts := {| maxItemCount := -1; addItems := false; removeItems := true;
                 removeItemButton := false; editItems := false;
                 duplicateItems := true; delimiter := ","; paste := true;
                 searchOptions := true; regexFilter := None;
                 prependValue := None; appendValue := None;
                 callbackOnAddItem := CbFunction;
                 callbackOnRemoveItem := CbFunction |} in
  let w := new_Choices opts text noFuse in
  addItems opts = false
  /\ items (store (step (KeyDown pressEnter) (step (Input "12") w))) = [].
Proof.
  intros opts w. split; [reflexivity|].
  change w with (run [] (new_Choices opts text noFuse)).
  unfold pressEnter.
  rewrite (enter_adds_nothing_when_addItems_is_off opts noFuse [] "12" false false
             eq_refl).
  reflexivity.
Defined.

(** X19. The test for duplicates compares the text as typed with the values
    of the active items, whereas the value stored is the typed text trimmed
    and wrapped.  So with [duplicateItems] off, no limit and no filter, Enter
    on a text that differs from every active value but is stored as one of
    them adds the item: two active items then carry the same value. *)
Theorem duplicate_test_is_on_the_untrimmed_text :
  forall opts fuse ops v ctrl meta,
    duplicateItems opts = false -> addItems opts = true ->
    maxItemCount opts <= 0 -> regexFilter opts = None ->
    let w := run ops (new_Choices opts text fuse) in
    truthy v = true ->
    hasValue v (activeItems w) = false ->
    hasValue (passedValue opts v) (activeItems w) = true ->
    let w1 := step (KeyDown (keyOnInput enterKey ctrl meta)) (step (Input v) w) in
    activeItems w1 = activeItems w ++ [newItem w v None None]
    /\ ~ NoDup (map Item.value (activeItems w1)).
Proof.
  intros opts fuse ops v ctrl meta Hdup Hadd Hmax Hre w Hv Hno Hyes w1.
  destruct (run_new_facts opts text fuse ops) as (HI & Ho & Ht). fold w in HI, Ho, Ht.
  assert (E : items (store w1) = items (store w) ++ [newItem w v None None]).
  { apply (enter_accepted w (keyOnInput enterKey ctrl meta) v eq_refl eq_refl HI Ht Hv).
    - unfold canUpdate, limitReached. cbn [options set_input_value itemList].
      rewrite Ho, Hadd.
      assert (Hl : negb (maxItemCount opts =? 0) && (0 <? maxItemCount opts) = false).
      { destruct (0 <? maxItemCount opts) eqn:E0; [|apply andb_false_r].
        apply Z.ltb_lt in E0. lia. }
      rewrite Hl. cbn [andb]. rewrite Hno.
      destruct (negb (duplicateItems opts) && _); reflexivity.
    - unfold passesFilter. rewrite Ho, Hre. reflexivity. }
  assert (Ea : activeItems w1 = activeItems w ++ [newItem w v None None]).
  { unfold activeItems. rewrite E. apply filter_active_app. reflexivity. }
  split; [exact Ea|].
  rewrite Ea, map_app. intros Hnd.
  apply NoDup_remove_2 in Hnd. rewrite app_nil_r in Hnd. apply Hnd.
  cbn [newItem Item.value]. rewrite Ho.
  unfold hasValue in Hyes. apply existsb_exists in Hyes.
  destruct Hyes as (i & Hi & Hiv). apply String.eqb_eq in Hiv.
  rewrite <- Hiv. apply in_map, Hi.
Qed.

Lemma duplicate_test_is_on_the_untrimmed_text_witness :
  let w := run (typeAndEnter "a") (new_Choices noDuplicates text noFuse) in
  let w1 := step (KeyDown pressEnter) (step (Input " a") w) in
  duplicateItems noDuplicates = false
  /\ map Item.value (activeItems w) = ["a"]
  /\ map Item.value (activeItems w1) = ["a"; "a"].
Proof.
  intros w w1. split; [reflexivity|]. split; [vm_compute; reflexivity|].
  assert (H : activeItems w1 = activeItems w ++ [newItem w " a" None None]).
  { apply (duplicate_test_is_on_the_untrimmed_text noDuplicates noFuse
             (typeAndEnter "a") " a" false false eq_refl eq_refl).
    - vm_compute. discriminate.
    - reflexivity.
    - reflexivity.
    - vm_compute. reflexivity.
    - vm_compute. reflexivity. }
  rewrite H. vm_compute. reflexivity.
Defined.

(** X20. Whatever the sequence of operations on a new instance, the item
    list shows the active items of the store, in their order; a text input
    carries their values joined by the delimiter, and its choice list is
    empty. *)
Theorem view_shows_the_active_items :
  forall opts t fuse ops,
    let w := run ops (new_Choices opts t fuse) in
    itemList w = activeItems w
    /\ (t = text ->
        passedElement_value w =
          join (delimiter opts) (map Item.value (activeItems w))
        /\ choiceList w = []).
Proof.
  intros opts t fuse ops w.
  destruct (run_new_facts opts t fuse ops) as (HI & Ho & Ht). fold w in HI, Ho, Ht.
  split; [apply (inv_itemList HI)|].
  intros ->. split.
  - rewrite (inv_value HI Ht), Ho. reflexivity.
  - apply (inv_choiceList HI Ht).
Qed.

(** ** Where the scroll animation stops *)

Module ScrollToProofs.
Import Scroll ScrollTo.
Local Open Scope Q_scope.





End ScrollToProofs.

(** ** Choices, and the removal of one item *)

Lemma unselected_itemWise (L : list Choice.t) :
  itemWise (fun w => map (Choice.set_selected false) (choices (store w)) = L).
Proof.
  constructor; try (intros ? w H; exact H).
  - intros v l i c w H.
    destruct (dispatch_fields (actions.addItem v l i c) w) as (Hs & _).
    unfold exec in Hs. rewrite Hs. cbn. rewrite map_map. rewrite <- H.
    apply map_ext. intros x. destruct (references c (Choice.id x)); reflexivity.
  - intros i c w H.
    destruct (dispatch_fields (actions.removeItem i c) w) as (Hs & _).
    unfold exec in Hs. rewrite Hs. cbn. rewrite map_map. rewrite <- H.
    apply map_ext. intros x. destruct (references c (Choice.id x)); reflexivity.
Qed.

Lemma choiceLabel_truthy v l : truthy v = true -> truthy (choiceLabel v l) = true.
Proof.
  intros Hv. unfold choiceLabel. destruct l as [x|]; [|exact Hv].
  destruct (truthy x) eqn:E; [exact E | exact Hv].
Qed.

Lemma _addItem_select_one_items v l c cb w :
  idsFrom1 (items (store w)) -> passedElement_type w = select_one ->
  items (store (exec (_addItem v l c cb) w)) =
  map (Item.set_active false) (items (store w)) ++ [newItem w v l c].
Proof.
  intros HI Ht. rewrite _addItem_exec. cbv zeta.
  rewrite Ht. cbn [isSelectOne]. rewrite runAddCallback_store.
  rewrite removeActiveItems_items. unfold activeItems.
  destruct (dispatch_fields
    (actions.addItem (passedValue (options w) v) (passedLabel v l)
       (nextId w) (passedOptionId c)) w) as (Hs & _).
  rewrite Hs. cbn [items reducer reduce_items].
  apply (deactivate_all_but_new (items (store w)) (newItem w v l c));
    [exact HI | reflexivity | reflexivity].
Qed.

(** The item that [_addChoice] makes of a choice passed as selected. *)
Lemma newItem_of_choice v l w w1 :
  truthy v = true ->
  items (store w1) = items (store w) -> options w1 = options w ->
  newItem w1 v (Some (choiceLabel v l)) (Some (nextChoiceId w)) =
  Item.mk (nextId w) (passedValue (options w) v) (choiceLabel v l) true false
    (nextChoiceId w).
Proof.
  intros Hv Ei Eo. unfold newItem, nextId. rewrite Ei, Eo. f_equal.
  - unfold passedLabel. rewrite (choiceLabel_truthy v l Hv). reflexivity.
  - unfold passedOptionId, nextChoiceId, refTruthy.
    destruct (_ =? 0) eqn:E0; [apply Z.eqb_eq in E0; lia | reflexivity].
Qed.

(** X23. [_addChoice] does nothing when the value is empty.  Otherwise, on
    any widget, it appends to the log a choice with the next id, the value as
    given, the label defaulting to the value and the group id to -1, active;
    the choices already in the log keep their place and, but for the
    selected flag that the store keeps in step with the items, their fields.
    It adds an item when the choice is passed as selected and not disabled,
    and only then: the item carries the id of the new choice as its choice
    id and the label of the choice, and its value is that of the choice once
    trimmed and wrapped; it comes at the end of the item log, whose other
    items stay as they are, except that in a select-one, where the ids of
    the item log count up from 1, they are all deactivated. *)
Theorem addChoice_appends_a_choice_and_its_item :
  forall s d v l g w,
    let w' := exec (_addChoice s d v l g) w in
    let new := Item.mk (nextId w) (passedValue (options w) v)
                 (choiceLabel v l) true false (nextChoiceId w) in
    (truthy v = false -> w' = w)
    /\ (truthy v = true ->
        map (Choice.set_selected false) (choices (store w')) =
          map (Choice.set_selected false) (choices (store w))
          ++ [newChoice w d v l g]
        /\ (s && negb d = false -> items (store w') = items (store w))
        /\ (s && negb d = true ->
            isSelectOne (passedElement_type w) = false ->
            items (store w') = items (store w) ++ [new])
        /\ (s && negb d = true ->
            passedElement_type w = select_one ->
            idsFrom1 (items (store w)) ->
            items (store w') =
              map (Item.set_active false) (items (store w)) ++ [new])).
Proof.
  intros s d v l g w w' new. subst w'. rewrite _addChoice_exec. split.
  - intros ->. reflexivity.
  - intros Hv. rewrite Hv. cbv zeta.
    match goal with
    | |- context [exec (dispatch ?a) w] =>
        destruct (dispatch_fields a w) as (E & Eo & Et & _);
        set (w1 := exec (dispatch a) w) in *
    end.
    assert (Ec : map (Choice.set_selected false) (choices (store w1)) =
                 map (Choice.set_selected false) (choices (store w))
                 ++ [newChoice w d v l g])
      by (rewrite E; cbn; rewrite map_app; reflexivity).
    assert (Ei : items (store w1) = items (store w)) by (rewrite E; reflexivity).
    pose proof (newItem_of_choice v l w w1 Hv Ei Eo) as En. fold new in En.
    destruct (s && negb d).
    + split; [|split; [discriminate | split]].
      * apply (_addItem_itemWise _ (unselected_itemWise _) _ _ _ _ w1 Ec).
      * intros _ Hs. rewrite _addItem_items by (rewrite Et; exact Hs).
        rewrite Ei, En. reflexivity.
      * intros _ Ht HI.
        rewrite _addItem_select_one_items;
          [ rewrite Ei, En; reflexivity
          | rewrite Ei; exact HI
          | rewrite Et; exact Ht ].
    + split; [exact Ec|]. split; [intros _; exact Ei|].
      split; discriminate.
Qed.

Lemma filter_out_one (a : Z) (s : list Item.t) :
  NoDup (map Item.id s) -> In a (map Item.id s) ->
  S (List.length (filter (fun j => negb (Item.id j =? a)) s)) = List.length s.
Proof.
  induction s as [|i s IH]; intros Hnd Hin; [destruct Hin|].
  cbn in Hnd. apply NoDup_cons_iff in Hnd. destruct Hnd as [Hni Hnd].
  cbn [filter]. destruct (Item.id i =? a) eqn:E; cbn [negb List.length].
  - apply Z.eqb_eq in E. subst a. f_equal.
    rewrite filter_all; [reflexivity|].
    intros j Hj. destruct (Item.id j =? Item.id i) eqn:E'; [|reflexivity].
    apply Z.eqb_eq in E'. exfalso. apply Hni. rewrite <- E'. apply in_map, Hj.
  - f_equal. apply IH; [exact Hnd|].
    destruct Hin as [Hin|Hin]; [|exact Hin].
    apply Z.eqb_neq in E. contradiction.
Qed.

(** X24. Removal is by deactivation.  In any state that a run reaches,
    [_removeItem] on an active item leaves the log with the same ids in the
    same order, takes that item, and no other, out of the active items, and
    so lowers their number by one. *)
Theorem removeItem_deactivates_one_item :
  forall opts t fuse ops i cb,
    let w := run ops (new_Choices opts t fuse) in
    In i (activeItems w) ->
    let w' := exec (_removeItem (Some i) cb) w in
    map Item.id (items (store w')) = map Item.id (items (store w))
    /\ activeItems w' =
         filter (fun j => negb (Item.id j =? Item.id i)) (activeItems w)
    /\ activeCount w' = activeCount w - 1
    /\ ~ In (Item.id i) (map Item.id (activeItems w')).
Proof.
  intros opts t fuse ops i cb w Hi w'.
  pose proof (Inv_NoDup w (Inv_run opts t fuse ops)) as Hnd.
  assert (E : items (store w') = deactivate [Item.id i] (items (store w))).
  { subst w'. rewrite _removeItem_items. apply removeItem_deactivate. }
  assert (Ea : activeItems w' =
               filter (fun j => negb (Item.id j =? Item.id i)) (activeItems w)).
  { unfold activeItems. rewrite E, active_deactivate. apply filter_ext.
    intros j. cbn [existsb]. rewrite orb_false_r. reflexivity. }
  split; [|split; [exact Ea | split]].
  - rewrite E. unfold deactivate. rewrite map_map. apply map_ext.
    intros j. destruct (existsb _ _); reflexivity.
  - unfold activeCount. rewrite Ea.
    rewrite <- (filter_out_one (Item.id i) (activeItems w)).
    + lia.
    + apply NoDup_ids_filter, Hnd.
    + apply in_map, Hi.
  - rewrite Ea. intros Hin. apply in_map_iff in Hin.
    destruct Hin as (j & Hj & Hf). apply filter_In in Hf.
    destruct Hf as [_ Hf]. rewrite Hj, Z.eqb_refl in Hf. discriminate.
Qed.

Lemma removeItem_deactivates_one_item_witness :
  let w := run (typeAndEnter "a" ++ typeAndEnter "b")
             (new_Choices defaultOptions text noFuse) in
  let i := Item.mk 1 "a" "a" true false (-1) in
  In i (activeItems w)
  /\ map Item.value (activeItems (exec (_removeItem (Some i) CbUndefined) w)) = ["b"].
Proof.
  intros w i.
  assert (Hi : In i (activeItems w)) by (vm_compute; left; reflexivity).
  split; [exact Hi|].
  destruct (removeItem_deactivates_one_item defaultOptions text noFuse
              (typeAndEnter "a" ++ typeAndEnter "b") i CbUndefined Hi)
    as (_ & Ea & _).
  unfold w. rewrite Ea. vm_compute. reflexivity.
Defined.

(** ** What the methods on items leave alone *)

Create HintDb quiet.

Section Quiet.
Variable P : Choices -> Prop.
Hypothesis HP : quiet P.

Ltac quiet_auto :=
  repeat (first
    [ pres_step
    | apply pres_modify; intros;
      first [ apply (q_console_error P HP) | apply (q_callback P HP) ];
      assumption
    | apply (q_dispatch P HP)
    | assumption
    | solve [ auto 2 with quiet ] ]).

Lemma selectItem_quiet i : preserves P (selectItem i).
Proof. unfold selectItem. quiet_auto. Qed.

Lemma deselectItem_quiet i : preserves P (deselectItem i).
Proof. unfold deselectItem. quiet_auto. Qed.
Hint Resolve selectItem_quiet deselectItem_quiet : quiet.

Lemma highlightAll_quiet : preserves P highlightAll.
Proof. unfold highlightAll. quiet_auto. Qed.

Lemma deselectAll_quiet : preserves P deselectAll.
Proof. unfold deselectAll. quiet_auto. Qed.

Lemma _removeItem_quiet i c : preserves P (_removeItem i c).
Proof. unfold _removeItem. quiet_auto. Qed.
Hint Resolve _removeItem_quiet : quiet.

Lemma removeItemsByValue_quiet v : preserves P (removeItemsByValue v).
Proof. unfold removeItemsByValue. quiet_auto. Qed.

Lemma removeActiveItems_quiet x : preserves P (removeActiveItems x).
Proof. unfold removeActiveItems. quiet_auto. Qed.

Lemma removeSelectedItems_quiet : preserves P removeSelectedItems.
Proof. unfold removeSelectedItems. quiet_auto. Qed.
Hint Resolve removeActiveItems_quiet : quiet.

Lemma _addItem_quiet v l c cb : preserves P (_addItem v l c cb).
Proof. unfold _addItem. quiet_auto. Qed.
Hint Resolve _addItem_quiet : quiet.

Lemma _addChoice_quiet s d v l g : preserves P (_addChoice s d v l g).
Proof. unfold _addChoice. quiet_auto. Qed.

Lemma clearValue_quiet : preserves P clearValue.
Proof. unfold clearValue. quiet_auto. Qed.

End Quiet.

Lemma viewOf_quiet x : quiet (fun w => viewOf w = x).
Proof.
  constructor; try (intros ? w H; exact H).
  intros a w H.
  destruct (dispatch_fields a w)
    as (_ & _ & _ & _ & H1 & H2 & H3 & H4 & H5 & H6 & H7 & _).
  unfold viewOf, exec in *. rewrite H1, H2, H3, H4, H5, H6, H7. exact H.
Qed.

(** X25. The methods that add, remove and select items and choices, and
    [clearValue], leave the text of the input, the notice and the open state
    of the dropdown, the search flags, the text last searched for and the
    highlight position as they are. *)
Theorem item_methods_leave_the_input_and_the_dropdown :
  forall w i x jv v l c cb s d g,
    viewOf (exec (selectItem i) w) = viewOf w
    /\ viewOf (exec (deselectItem i) w) = viewOf w
    /\ viewOf (exec highlightAll w) = viewOf w
    /\ viewOf (exec deselectAll w) = viewOf w
    /\ viewOf (exec (_removeItem i cb) w) = viewOf w
    /\ viewOf (exec (removeItemsByValue jv) w) = viewOf w
    /\ viewOf (exec (removeActiveItems x) w) = viewOf w
    /\ viewOf (exec removeSelectedItems w) = viewOf w
    /\ viewOf (exec (_addItem v l c cb) w) = viewOf w
    /\ viewOf (exec (_addChoice s d v l g) w) = viewOf w
    /\ viewOf (exec clearValue w) = viewOf w.
Proof.
  intros w i x jv v l c cb s d g.
  pose proof (viewOf_quiet (viewOf w)) as Q.
  repeat split.
  - apply (selectItem_quiet _ Q i w eq_refl).
  - apply (deselectItem_quiet _ Q i w eq_refl).
  - apply (highlightAll_quiet _ Q w eq_refl).
  - apply (deselectAll_quiet _ Q w eq_refl).
  - apply (_removeItem_quiet _ Q i cb w eq_refl).
  - apply (removeItemsByValue_quiet _ Q jv w eq_refl).
  - apply (removeActiveItems_quiet _ Q x w eq_refl).
  - apply (removeSelectedItems_quiet _ Q w eq_refl).
  - apply (_addItem_quiet _ Q v l c cb w eq_refl).
  - apply (_addChoice_quiet _ Q s d v l g w eq_refl).
  - apply (clearValue_quiet _ Q w eq_refl).
Qed.

(** ** Enter on a select *)








(** ** Setting values *)

Lemma setValueEntry_returns item : returns (setValueEntry item).
Proof. apply returns_call. Qed.

Lemma setValue_text_step item w :
  passedElement_type w = text ->
  passedElement_type (exec (setValueEntry item) w) = text
  /\ options (exec (setValueEntry item) w) = options w
  /\ items (store (exec (setValueEntry item) w)) =
       items (store w)
       ++ itemsOf (options w) (List.length (items (store w))) (textEntries [item]).
Proof.
  intros Ht. unfold setValueEntry. rewrite exec_call. unfold exec.
  assert (Ha : forall v l c,
             passedElement_type (exec (_addItem v l c CbUndefined) w) = text
             /\ options (exec (_addItem v l c CbUndefined) w) = options w
             /\ items (store (exec (_addItem v l c CbUndefined) w)) =
                  items (store w) ++ [newItem w v l c]).
  { intros v l c. split; [|split].
    - apply (type_addItem text v l c CbUndefined w Ht).
    - apply (options_addItem (options w) v l c CbUndefined w eq_refl).
    - apply _addItem_items. rewrite Ht. reflexivity. }
  destruct item as [value label id|s|]; cbn [textEntries flat_map].
  - destruct (noValue value); cbn [when]; sym.
    + rewrite app_nil_r. auto.
    + rewrite Ht. cbn [isText negb]. sym. cbn [snd skip ret]. rewrite app_nil_r.
      apply Ha.
  - sym. rewrite Ht. cbn [isText negb]. sym. cbn [snd skip ret]. apply Ha.
  - cbn. rewrite app_nil_r. auto.
Qed.

Lemma textEntries_cons item args :
  textEntries (item :: args) = textEntries [item] ++ textEntries args.
Proof. unfold textEntries. cbn [flat_map]. rewrite app_nil_r. reflexivity. Qed.

Lemma itemsOf_app opts n xs ys :
  itemsOf opts n (xs ++ ys) =
  itemsOf opts n xs ++ itemsOf opts (n + List.length xs) ys.
Proof.
  revert n; induction xs as [|[[v l] c] xs IH]; intros n; cbn.
  - rewrite Nat.add_0_r. reflexivity.
  - rewrite IH. do 3 f_equal. lia.
Qed.

Lemma itemsOf_length opts n xs : List.length (itemsOf opts n xs) = List.length xs.
Proof.
  revert n; induction xs as [|[[v l] c] xs IH]; intros n; cbn; [|rewrite IH];
    reflexivity.
Qed.

(** X27. [setValue] on a text input adds one item for each string of the
    array and for each object that has a non-empty value, in the order of the
    array and with consecutive ids, and skips everything else; an object
    gives its label and, as the choice id of the item, its id.  It returns
    the instance. *)
Theorem setValue_adds_the_entries_in_order :
  forall args w,
    passedElement_type w = text ->
    items (store (exec (setValue args) w)) =
      items (store w)
      ++ itemsOf (options w) (List.length (items (store w))) (textEntries args)
    /\ valueOf (setValue args) w = this.
Proof.
  intros args w Ht. split.
  - unfold setValue. rewrite exec_call. unfold exec.
    rewrite bind_normal with (1 := forEach_normal _ _ w setValueEntry_returns).
    unfold return_. cbn [snd].
    revert w Ht. induction args as [|item args IH]; intros w Ht.
    + cbn. rewrite app_nil_r. reflexivity.
    + cbn [forEach]. unfold exec at 1.
      rewrite bind_method by apply setValueEntry_returns.
      destruct (setValue_text_step item w Ht) as (Ht1 & Ho1 & Hi1).
      fold (exec (forEach args setValueEntry) (exec (setValueEntry item) w)).
      rewrite (IH (exec (setValueEntry item) w) Ht1), Ho1, Hi1.
      rewrite <- app_assoc. f_equal.
      rewrite (textEntries_cons item args).
      rewrite itemsOf_app, length_app, itemsOf_length. reflexivity.
  - unfold setValue, valueOf, call at 1.
    rewrite bind_normal with (1 := forEach_normal _ _ w setValueEntry_returns).
    reflexivity.
Qed.

Lemma setValue_adds_the_entries_in_order_witness :
  let w := new_Choices defaultOptions text noFuse in
  let args := [ArgString " a"; ArgObject (Some "") None None; ArgOther;
               ArgObject (Some "b") (Some "B") (Some 7); ArgString ""] in
  passedElement_type w = text
  /\ items (store (exec (setValue args) w)) =
       [Item.mk 1 "a" "a" true false (-1); Item.mk 2 "b" "B" true false 7;
        Item.mk 3 "" "" true false (-1)].
Proof.
  intros w args.
  assert (Ht : passedElement_type w = text) by reflexivity.
  split; [exact Ht|].
  rewrite (proj1 (setValue_adds_the_entries_in_order args w Ht)).
  vm_compute. reflexivity.
Defined.

(** ** The notice of a text input *)

Lemma dropdown_dispatch N A a :
  preserves (fun w => dropdown_notice w = N /\ dropdown_active w = A) (dispatch a).
Proof.
  intros w [H1 H2]. destruct (dispatch_dropdown a w) as [E1 E2].
  unfold exec in *. rewrite E1, E2. auto.
Qed.

Ltac keyUp_search_part :=
  match goal with
  | |- context [snd (?m ?x)] =>
      let H := fresh "Htail" in
      assert (H : preserves (fun w => dropdown_notice w = dropdown_notice x
                                      /\ dropdown_active w = dropdown_active x) m)
        by (repeat first [ pres_step
                         | apply pres_modify; intros ? HH; exact HH
                         | apply dropdown_dispatch ]);
      destruct (H x (conj eq_refl eq_refl)) as [Hn Ha];
      rewrite Hn, Ha; clear H Hn Ha
  end.

(** X28. A key-up on a text input.  With an empty input it closes the
    dropdown.  With text that the filter, if any, lets through it opens the
    dropdown and writes a notice over it: that of the limit when the limit
    on the number of items is reached; else, when duplicates are refused and
    an active item has the typed text for value, the one that asks for unique
    values; else the invitation to add the text.  With text that the filter
    rejects it leaves the dropdown as it is. *)
Theorem keyUp_writes_the_notice :
  forall w e,
    targetIsInput e = true -> passedElement_type w = text ->
    let w' := exec (_onKeyUp e) w in
    (truthy (input_value w) = false ->
     dropdown_active w' = false /\ dropdown_notice w' = dropdown_notice w)
    /\ (truthy (input_value w) = true ->
        passesFilter (options w) (input_value w) = true ->
        dropdown_active w' = true /\ dropdown_notice w' = Some (noticeFor w))
    /\ (truthy (input_value w) = true ->
        passesFilter (options w) (input_value w) = false ->
        dropdown_active w' = dropdown_active w
        /\ dropdown_notice w' = dropdown_notice w).
Proof.
  intros w e He Ht. cbv zeta.
  unfold _onKeyUp. rewrite exec_call. unfold exec.
  rewrite He. cbn [negb when]. sym. rewrite Ht. cbn [isText when]. sym.
  split; [|split].
  - intros Hv. rewrite Hv.
    destruct (dropdown_active w) eqn:Ea; cbn [when]; sym; keyUp_search_part;
      cbn [dropdown_active dropdown_notice set_dropdown_active]; auto.
  - intros Hv Hp. rewrite Hv. sym.
    unfold passesFilter in Hp.
    assert (E : (match regexFilter (options w) with
                 | Some _ => r <- _regexFilter (input_value w);; ret (retval_truthy r)
                 | None => ret true
                 end) w = (Normal true, w)).
    { destruct (regexFilter (options w)) as [re|] eqn:Er; [|reflexivity].
      sym. rewrite Er, Hv. cbn [RegExp_of]. rewrite Hv in Hp. cbn [andb] in Hp.
      rewrite Hp. reflexivity. }
    rewrite (bind_normal _ _ w _ _ E). cbn [when]. sym.
    cbn [dropdown_active set_dropdown_notice].
    fold (activeItems w). fold (hasValue (input_value w) (activeItems w)).
    rewrite negb_involutive.
    change (negb (maxItemCount (options w) =? 0) && (0 <? maxItemCount (options w))
            && (maxItemCount (options w) <=? Z.of_nat (List.length (itemList w))))
      with (limitReached w).
    fold (noticeFor w).
    destruct (dropdown_active w) eqn:Ea; cbn [negb when]; sym; keyUp_search_part;
      cbn [dropdown_active dropdown_notice set_dropdown_active set_dropdown_notice];
      auto.
  - intros Hv Hp. rewrite Hv. sym.
    unfold passesFilter in Hp.
    destruct (regexFilter (options w)) as [re|] eqn:Er; [|discriminate Hp].
    sym. rewrite Er, Hv. cbn [RegExp_of]. rewrite Hv in Hp. cbn [andb] in Hp.
    rewrite Hp. cbn [retval_truthy when]. sym. keyUp_search_part. auto.
Qed.

Lemma keyUp_writes_the_notice_witness :
  let w := step (Input "a")
             (run (typeAndEnter "a") (new_Choices noDuplicates text noFuse)) in
  let e := keyOnInput 65 false false in
  targetIsInput e = true /\ passedElement_type w = text
  /\ dropdown_notice (exec (_onKeyUp e) w) = Some uniqueNotice.
Proof.
  intros w e.
  assert (Ht : passedElement_type w = text) by (vm_compute; reflexivity).
  split; [reflexivity | split; [exact Ht|]].
  destruct (keyUp_writes_the_notice w e eq_refl Ht) as (_ & H & _).
  destruct (H eq_refl eq_refl) as [_ Hn]. rewrite Hn. vm_compute. reflexivity.
Defined.

(** ** Typing in a select, and the single item of a select-one *)

Lemma searchKey_not (k code : Z) :
  isSearchKey code = true -> isSearchKey k = false -> (code =? k) = false.
Proof.
  intros H1 H2. destruct (Z.eqb_spec code k) as [->|]; [|reflexivity].
  rewrite H1 in H2. discriminate.
Qed.

(** X29. On a select, a key-down on the input whose key code is the
    character code of a letter, a digit, a hyphen, an underscore or a space
    opens the dropdown when it is closed, and leaves it open otherwise.
    These are the key codes 32, 45, 48 to 57, 65 to 90, 95 and 97 to 122:
    the letter keys, the digit keys and the space bar are among them; the
    hyphen and underscore key, of key code 189 or 173, is not. *)
Theorem typing_opens_the_dropdown_of_a_select :
  forall w e,
    targetIsInput e = true -> passedElement_type w <> text ->
    isSearchKey (keyCode e) = true ->
    dropdown_active (exec (_onKeyDown e) w) = true.
Proof.
  intros w e He Ht Hk.
  assert (Et : isText (passedElement_type w) = false)
    by (destruct (passedElement_type w); [contradiction | reflexivity | reflexivity]).
  unfold _onKeyDown. rewrite exec_call. unfold exec.
  rewrite He. cbn [negb when]. sym. rewrite Et, Hk. cbn [negb andb].
  rewrite (searchKey_not enterKey _ Hk eq_refl),
    (searchKey_not escapeKey _ Hk eq_refl),
    (searchKey_not downKey _ Hk eq_refl), (searchKey_not upKey _ Hk eq_refl),
    (searchKey_not backKey _ Hk eq_refl), (searchKey_not deleteKey _ Hk eq_refl).
  cbn [orb].
  assert (H : forall w0, dropdown_active w0 = true ->
              dropdown_active
                (snd ((modify (set_canSearch (searchOptions (options w)));;
                       (if keyCode e =? aKey
                        then when (ctrlKey e || metaKey e)
                               (modify (set_canSearch false);;
                                v <- gets input_value;;
                                when (removeItems (options w) && negb (truthy v)
                                      && inputIsActiveElement e)
                                  (highlightAll;; skip))
                        else skip)) w0)) = true).
  { intros w0 H0.
    match goal with
    | |- dropdown_active (snd (?m w0)) = true =>
        assert (Hp : preserves (fun x => dropdown_active x = true) m)
    end.
    { repeat first [ pres_step | apply pres_modify; intros ? HH; exact HH ].
      intros x Hx.
      pose proof (highlightAll_quiet _ (viewOf_quiet (viewOf x)) x eq_refl) as Hv.
      unfold viewOf in Hv. injection Hv as _ _ Hd _ _ _ _.
      rewrite Hd. exact Hx. }
    apply Hp, H0. }
  destruct (dropdown_active w) eqn:Ea; cbn [negb when].
  - apply H, Ea.
  - sym. apply H. reflexivity.
Qed.

Lemma typing_opens_the_dropdown_of_a_select_witness :
  let w := new_Choices defaultOptions select_multiple exactFuse in
  let e := keyOnInput 88 false false in
  targetIsInput e = true /\ passedElement_type w <> text
  /\ isSearchKey (keyCode e) = true
  /\ dropdown_active w = false
  /\ dropdown_active (exec (_onKeyDown e) w) = true.
Proof.
  intros w e.
  assert (Ht : passedElement_type w <> text) by (vm_compute; discriminate).
  split; [reflexivity | split; [exact Ht | split; [reflexivity|]]].
  split; [reflexivity|].
  exact (typing_opens_the_dropdown_of_a_select w e eq_refl Ht eq_refl).
Defined.

Lemma singleActive_addItem v l c cb :
  preserves (fun w => InvOf select_one w /\ activeCount w <= 1)
    (_addItem v l c cb).
Proof.
  intros w [[HI Ht] _]. split.
  - apply (InvOf_addItem select_one v l c cb w). split; assumption.
  - change (activeCount (exec (_addItem v l c cb) w) <= 1).
    unfold activeCount, activeItems.
    rewrite (_addItem_select_one_items v l c cb w (inv_ids HI) Ht).
    unfold filteredByActive at 1. rewrite filter_app.
    fold (filteredByActive (map (Item.set_active false) (items (store w)))).
    rewrite filter_deactivated. cbn. lia.
Qed.

(** X30. Whatever the sequence of operations on a new select-one, at most
    one item is active. *)
Theorem select_one_has_at_most_one_active_item :
  forall opts fuse ops,
    (List.length (activeItems (run ops (new_Choices opts select_one fuse))) <= 1)%nat.
Proof.
  intros opts fuse ops.
  assert (H : InvOf select_one (run ops (new_Choices opts select_one fuse))
              /\ activeCount (run ops (new_Choices opts select_one fuse)) <= 1).
  { apply (run_pres (stable_and _ _ (InvOf_stable select_one) (count_stable 1))).
    - intros v l c cb. apply singleActive_addItem.
    - intros w [[HI Ht] _].
      destruct (dispatch_fields actions.clearAll w) as (Hs & _ & Ht' & _).
      split; [split|].
      + apply Inv_clearAll, HI.
      + unfold exec in Ht'. rewrite Ht'. exact Ht.
      + unfold activeCount, activeItems. unfold exec in Hs. rewrite Hs. cbn. lia.
    - split; [split|].
      + apply Inv_new.
      + apply (sameEnv_new opts select_one fuse).
      + unfold activeCount, activeItems, new_Choices.
        destruct (render_fields (blank opts select_one fuse)) as (Hs & _).
        rewrite Hs. cbn. lia. }
  destruct H as [_ H]. unfold activeCount in H. lia.
Qed.

(** ** The scenarios of the specification, run on the model *)

Example digitsOnly_tests :
  RegExp_test digitsOnly "abc" = false /\ RegExp_test digitsOnly "123" = true
  /\ RegExp_test digitsOnly "12a" = false /\ RegExp_test digitsOnly "" = false.
Proof. repeat split. Qed.

Example trim_tests : trim "  a b  " = "a b" /\ trim "   " = "".
Proof. split; reflexivity. Qed.

(** maxItemCount=2: a and b are added, c is rejected. *)
Example scenario_limit :
  map Item.value
    (activeItems
       (run (typeAndEnter "a" ++ typeAndEnter "b" ++ typeAndEnter "c")
          (new_Choices (limitedTo 2 None) text noFuse))) = ["a"; "b"].
Proof. vm_compute. reflexivity. Qed.

(** regexFilter=^[0-9]+$: abc adds nothing, 123 adds one item. *)
Example scenario_regex :
  map Item.value
    (items (store
       (run (typeAndEnter "abc" ++ typeAndEnter "123")
          (new_Choices (withRegexFilter digitsOnly defaultOptions) text noFuse))))
  = ["123"].
Proof. vm_compute. reflexivity. Qed.

(** A select-one with the options x and y, x chosen first: committing y
    leaves y as the one active item. *)
Example scenario_select_one :
  map Item.value
    (activeItems
       (run [AddChoice true false "x" None None;
             AddChoice false false "y" None None;
             AddItem "y" (Some "y") (Some 2)]
          (new_Choices defaultOptions select_one noFuse))) = ["y"].
Proof. vm_compute. reflexivity. Qed.

(** editItems=true: Backspace on the empty input puts foo back and removes
    the item. *)
Example scenario_backspace :
  let w := run (typeAndEnter "foo" ++ [KeyDown pressBackspace])
             (new_Choices editable text noFuse) in
  input_value w = "foo" /\ activeItems w = [].
Proof. vm_compute. split; reflexivity. Qed.

(** [removeItemsByValue] on the value of an active item removes nothing. *)
Example removeItemsByValue_removes_nothing :
  map Item.value
    (activeItems
       (run [AddItem "a" None None; RemoveItemsByValue (VString "a")]
          (new_Choices defaultOptions text noFuse))) = ["a"].
Proof. vm_compute. reflexivity. Qed.

(** The animation from 0 to 100 takes 16 frames; one started past its end
    point draws a single frame. *)
Example animateScroll_tests :
  option_map snd (Scroll.animateScroll 50 100 1 0) = Some 16%nat
  /\ option_map snd (Scroll.animateScroll 50 5 1 10) = Some 1%nat
  /\ Scroll.animateScroll 3 100 1 0 = None.
Proof. vm_compute. repeat split. Qed.
